(** * VideoHub backend ([main.py]): URL normalizer, channel cache,
      download pipeline and channel-video lister.

    A shallow embedding of the Python module and the properties of its
    specification.  Python [str] values are lists of Unicode code points
    ([N]); the SQLite table is the list of its rows in rowid order; the
    filesystem is a finite map from paths to file contents; exceptions are
    the [Raise] results of a small error type.  The values that come from a
    JSON document are dynamically typed: they are values of the type
    [json]. *)

From Stdlib Require Import NArith String Ascii Lia List Permutation Sorted.
From Stdlib Require Import DecimalString.
From stdpp Require Import base option list gmap.
Import ListNotations.
Local Open Scope N_scope.

(** ** Text *)

Abbreviation str := (list N).

(** A Rocq string literal as a Python [str]. *)
Definition u (s : string) : str := map N_of_ascii (list_ascii_of_string s).
Arguments u : simpl never.

(** [str.isspace] on one code point (CPython's [_PyUnicode_IsWhitespace]). *)
Definition is_space (c : N) : bool :=
  ((9 <=? c) && (c <=? 13)) || ((28 <=? c) && (c <=? 32))
  || (c =? 133) || (c =? 160) || (c =? 5760)
  || ((8192 <=? c) && (c <=? 8202))
  || (c =? 8232) || (c =? 8233) || (c =? 8239) || (c =? 8287) || (c =? 12288).

(** [str.isalnum] on an ASCII code point. *)
Definition ascii_alnum (c : N) : bool :=
  ((48 <=? c) && (c <=? 57)) || ((65 <=? c) && (c <=? 90))
  || ((97 <=? c) && (c <=? 122)).

(** The alphanumeric property of the code points above ASCII comes from the
    Unicode character database of the Python runtime, which is not part of
    the repository: it is an interface of the development.  No character is
    both white space and alphanumeric. *)
Class Unicode := {
  unicode_alnum : N → bool;
  alnum_not_space : ∀ c, is_space c = true → unicode_alnum c = false
}.

(** The instance in which only the Latin-1 letters, superscripts and
    fractions are alphanumeric above ASCII. *)
Definition latin1_alnum (c : N) : bool :=
  (c =? 170) || (c =? 178) || (c =? 179) || (c =? 181) || (c =? 185)
  || (c =? 186) || ((188 <=? c) && (c <=? 190))
  || ((192 <=? c) && (c <=? 214)) || ((216 <=? c) && (c <=? 246))
  || ((248 <=? c) && (c <=? 255)).

(** The same with the CJK unified ideographs, which are letters. *)
Definition cjk_alnum (c : N) : bool :=
  latin1_alnum c || ((19968 <=? c) && (c <=? 40959)).

(** [\w] of a [str] pattern: alphanumeric or underscore. *)
Definition is_word `{Unicode} (c : N) : bool :=
  if c <? 128 then ascii_alnum c || (c =? 95) else unicode_alnum c.

(** [str.strip()]: drop the white space at both ends. *)
Fixpoint lstrip (s : str) : str :=
  match s with
  | c :: s' => if is_space c then lstrip s' else s
  | [] => []
  end.

Definition rstrip (s : str) : str := rev (lstrip (rev s)).

Definition strip (s : str) : str := rstrip (lstrip s).

(** [s.startswith(l)] and [s.endswith(l)]. *)
Fixpoint startswith (l s : str) : bool :=
  match l, s with
  | [], _ => true
  | a :: l', b :: s' => (a =? b) && startswith l' s'
  | _ :: _, [] => false
  end.

Definition endswith (l s : str) : bool := startswith (rev l) (rev s).

(** [s.replace(a, b)] for one-character [a] and [b]. *)
Definition replace_char (a b : N) (s : str) : str :=
  map (λ c, if c =? a then b else c) s.

(** The code points an encoding cannot write: UTF-8 has no encoding of a
    lone surrogate, Latin-1 none of a code point above 255. *)
Definition is_surrogate (c : N) : bool := (55296 <=? c) && (c <=? 57343).

(** [s.encode("utf-8")] and [s.encode("latin-1")] do not raise. *)
Definition utf8_encodable (s : str) : bool := forallb (λ c, negb (is_surrogate c)) s.
Definition latin1_encodable (s : str) : bool := forallb (λ c, c <=? 255) s.

(** The decimal text of an integer: [str(n)]. *)
Definition decimal (n : Z) : str := u (NilZero.string_of_int (Z.to_int n)).

(** ** JSON values

    The values [json.loads] builds: [None], [bool], [int], [str], [list]
    and [dict] (the items of a dict in insertion order, under distinct
    keys).  A number is an integer: numbers with a fraction or an exponent
    are not represented. *)

#[warnings="-register-all"]
Inductive json : Type :=
| JNull
| JBool (b : bool)
| JStr (s : str)
| JInt (n : Z)
| JArr (l : list json)
| JObj (fields : list (str * json)).

(** [json.dumps(v, ensure_ascii=False, separators=(",", ":"))]: the text of
    a value.  In a string the quote, the backslash and the control
    characters are escaped; every other character is written as it is. *)
Definition hex_digit (n : N) : N := if n <? 10 then 48 + n else 87 + n.

Definition json_escape (c : N) : str :=
  if c =? 34 then [92; 34]
  else if c =? 92 then [92; 92]
  else if c =? 8 then [92; 98]
  else if c =? 12 then [92; 102]
  else if c =? 10 then [92; 110]
  else if c =? 13 then [92; 114]
  else if c =? 9 then [92; 116]
  else if c <? 32 then [92; 117; 48; 48; hex_digit (c / 16); hex_digit (c mod 16)]
  else [c].

Definition json_string (s : str) : str := [34] ++ flat_map json_escape s ++ [34].

Fixpoint join (sep : str) (l : list str) : str :=
  match l with
  | [] => []
  | [x] => x
  | x :: l' => x ++ sep ++ join sep l'
  end.

Fixpoint json_dumps (v : json) : str :=
  match v with
  | JNull => u "null"
  | JBool b => if b then u "true" else u "false"
  | JInt n => decimal n
  | JStr s => json_string s
  | JArr l => [91] ++ join [44] (map json_dumps l) ++ [93]
  | JObj fields =>
      [123] ++ join [44] (map (λ '(k, x), json_string k ++ [58] ++ json_dumps x) fields)
      ++ [125]
  end.

(** ** Exceptions *)

Inductive exn : Type :=
| IndexError                       (* [m.group(i)] or [l[i]] without such an index *)
| FileNotFoundError                (* [open] or [os.remove] of a missing file *)
| DownloadError (msg : str)        (* raised by the extraction library *)
| IntegrityError                   (* a PRIMARY KEY constraint fails *)
| UnicodeEncodeError (encoding object : str)
                                   (* [object.encode(encoding)] cannot write a character *)
| OverflowError                    (* an [int] outside the 64 bits of an INTEGER *)
| ProgrammingError                 (* a parameter of a type sqlite3 does not bind *)
| KeyError (key : json)            (* [d[key]] without that key *)
| TypeError                        (* an operation on a value of the wrong type *)
| AttributeError                   (* [v.get] on a value that is not a dict *)
| ValueError                       (* a body that is not JSON *)
| RequestException                 (* a call of [requests] that fails or times out *)
| HTTPException (status_code : N) (detail : str).

Inductive result (A : Type) : Type :=
| Ok (a : A)
| Raise (e : exn).
Arguments Ok {A} a.
Arguments Raise {A} e.

Definition rbind {A B} (r : result A) (k : A → result B) : result B :=
  match r with
  | Ok a => k a
  | Raise e => Raise e
  end.

(** [s.encode("utf-8")] and [s.encode("latin-1")], for their exception. *)
Definition encode_utf8 (s : str) : result unit :=
  if utf8_encodable s then Ok tt else Raise (UnicodeEncodeError (u "utf-8") s).

Definition encode_latin1 (s : str) : result unit :=
  if latin1_encodable s then Ok tt else Raise (UnicodeEncodeError (u "latin-1") s).

(** ** Regular expressions

    The fragment of [re] the module uses, with the backtracking semantics of
    the [re] engine: [run r s] lists the ways [r] matches at the start of
    [s], as (matched text, captured groups), in the order in which the
    engine tries them; the engine returns the first. *)

Inductive regex : Type :=
| Lit (l : str)                        (* literal characters *)
| Cat (r1 r2 : regex)                  (* r1 r2 *)
| Alt (r1 r2 : regex)                  (* r1|r2 *)
| Opt (r : regex)                      (* r?  (greedy) *)
| AtLeast (n : nat) (p : N → bool)     (* [class]{n,}  (greedy) *)
| Grp (r : regex).                     (* (r), a capturing group *)

(** The prefixes of [s] made of at least [n] characters of the class [p],
    longest first. *)
Fixpoint greedy (p : N → bool) (n : nat) (s : str) : list str :=
  let stop := match n with O => [[]] | S _ => [] end in
  match s with
  | c :: s' => if p c then map (cons c) (greedy p (pred n) s') ++ stop else stop
  | [] => stop
  end.

Fixpoint run (r : regex) (s : str) : list (str * list str) :=
  match r with
  | Lit l => if startswith l s then [(l, [])] else []
  | Cat r1 r2 =>
      flat_map (λ '(m1, g1),
        map (λ '(m2, g2), (m1 ++ m2, g1 ++ g2)) (run r2 (drop (length m1) s)))
        (run r1 s)
  | Alt r1 r2 => run r1 s ++ run r2 s
  | Opt r => run r s ++ [([], [])]
  | AtLeast n p => map (λ m, (m, [])) (greedy p n s)
  | Grp r => map (λ '(m, g), (m, m :: g)) (run r s)
  end.

(** A match object: the matched text and the groups, numbered from 1. *)
Record re_match := { m_text : str; m_groups : list str }.

(** [re.search(r, s)]: the first match at the leftmost position that has
    one. *)
Fixpoint re_search (r : regex) (s : str) : option re_match :=
  match head (run r s) with
  | Some (m, g) => Some {| m_text := m; m_groups := g |}
  | None =>
      match s with
      | [] => None
      | _ :: s' => re_search r s'
      end
  end.

(** [m.group(i)]. *)
Definition group (m : re_match) (i : nat) : result str :=
  match i with
  | O => Ok (m_text m)
  | S k => match m_groups m !! k with Some g => Ok g | None => Raise IndexError end
  end.

(** [re.sub(r"[class]", repl, s)] for a pattern that is one character class:
    every character of the class is replaced. *)
Definition re_sub_class (p : N → bool) (repl : str) (s : str) : str :=
  flat_map (λ c, if p c then repl else [c]) s.

(** ** The URL normalizer *)

Section Normalizer.
Context `{Unicode}.

(** [[\w-]] *)
Definition is_idchar (c : N) : bool := is_word c || (c =? 45).

(** [https?://(?:www\.)?youtube\.com/shorts/([\w-]{6,})] *)
Definition shorts_re : regex :=
  Cat (Lit (u "http")) (Cat (Opt (Lit (u "s"))) (Cat (Lit (u "://"))
  (Cat (Opt (Lit (u "www."))) (Cat (Lit (u "youtube.com/shorts/"))
  (Grp (AtLeast 6 is_idchar)))))).

(** [(https?://(?:www\.)?(?:youtube\.com/watch\?v=|youtu\.be/)[\w-]{6,})] *)
Definition watch_re : regex :=
  Grp (Cat (Lit (u "http")) (Cat (Opt (Lit (u "s"))) (Cat (Lit (u "://"))
  (Cat (Opt (Lit (u "www.")))
  (Cat (Alt (Lit (u "youtube.com/watch?v=")) (Lit (u "youtu.be/")))
  (AtLeast 6 is_idchar)))))).

Definition clean_youtube_url (url : str) : result str :=
  let url := strip url in
  match re_search shorts_re url with
  | Some m =>
      rbind (group m 1) (λ id, Ok (u "https://www.youtube.com/watch?v=" ++ id))
  | None =>
      match re_search watch_re url with
      | Some m => group m 1
      | None => Ok url
      end
  end.

End Normalizer.


(** ** Timestamps

    [datetime.utcnow().isoformat()]: a naive datetime, printed as
    [YYYY-MM-DDTHH:MM:SS.ffffff], or without the fraction when the
    microsecond is zero. *)

Record datetime := {
  year : N; month : N; day : N;
  hour : N; minute : N; second : N; microsecond : N
}.

(** The ranges the [datetime] type enforces (the length of each month is not
    modelled: the day is only bounded by 31). *)
Definition valid_datetime (d : datetime) : Prop :=
  1 ≤ year d ≤ 9999 ∧ 1 ≤ month d ≤ 12 ∧ 1 ≤ day d ≤ 31 ∧
  hour d < 24 ∧ minute d < 60 ∧ second d < 60 ∧ microsecond d < 1000000.

(** ["%0wd" % n], for [n] below [10^w]. *)
Fixpoint digits (w : nat) (n : N) : str :=
  match w with
  | O => []
  | S w' => digits w' (n / 10) ++ [48 + n mod 10]
  end.

Definition isoformat (d : datetime) : str :=
  digits 4 (year d) ++ u "-" ++ digits 2 (month d) ++ u "-" ++ digits 2 (day d)
  ++ u "T" ++ digits 2 (hour d) ++ u ":" ++ digits 2 (minute d) ++ u ":"
  ++ digits 2 (second d)
  ++ (if microsecond d =? 0 then [] else u "." ++ digits 6 (microsecond d)).

(** Lexicographic comparison of code-point sequences: the comparison of
    SQLite's TEXT values (BINARY collation) and of Python tuples. *)
Fixpoint lex_compare (a b : list N) : comparison :=
  match a, b with
  | [], [] => Eq
  | [], _ :: _ => Lt
  | _ :: _, [] => Gt
  | x :: a', y :: b' =>
      match x ?= y with
      | Eq => lex_compare a' b'
      | c => c
      end
  end.

Definition str_leb (a b : str) : bool :=
  match lex_compare a b with Gt => false | _ => true end.

Definition str_le (a b : str) : Prop := lex_compare a b ≠ Gt.
Definition str_lt (a b : str) : Prop := lex_compare a b = Lt.

(** The order of naive datetimes: the fields compared in turn. *)
Definition dt_fields (d : datetime) : list N :=
  [year d; month d; day d; hour d; minute d; second d; microsecond d].

Definition dt_le (a b : datetime) : Prop := lex_compare (dt_fields a) (dt_fields b) ≠ Gt.
Definition dt_lt (a b : datetime) : Prop := lex_compare (dt_fields a) (dt_fields b) = Lt.

(** ** The channel cache

    Table [channels (id TEXT PRIMARY KEY, title TEXT, thumbnail TEXT,
    saved_at TEXT, last_used_at TEXT)], as the list of its rows in rowid
    order. *)

Record row := {
  c_id : str;
  c_title : option str;
  c_thumbnail : option str;
  c_saved_at : str;
  c_last_used_at : str
}.

Abbreviation table := (list row).

Definition str_eqb (a b : str) : bool := bool_decide (a = b).

(** [SELECT id FROM channels WHERE id=?] followed by [fetchone()]. *)
Definition select_id (ch_id : str) (tbl : table) : option str :=
  head (map c_id (filter (λ r, c_id r = ch_id) tbl)).

(** SQL [COALESCE(new, old)]. *)
Definition coalesce (new old : option str) : option str :=
  match new with
  | Some v => Some v
  | None => old
  end.

(** [UPDATE channels SET title=COALESCE(?, title),
    thumbnail=COALESCE(?, thumbnail), last_used_at=? WHERE id=?] *)
Definition sql_update (title thumb : option str) (now ch_id : str) (tbl : table) : table :=
  map (λ r, if str_eqb (c_id r) ch_id
            then {| c_id := c_id r;
                    c_title := coalesce title (c_title r);
                    c_thumbnail := coalesce thumb (c_thumbnail r);
                    c_saved_at := c_saved_at r;
                    c_last_used_at := now |}
            else r) tbl.

(** [INSERT INTO channels (id, title, thumbnail, saved_at, last_used_at)
    VALUES (?, ?, ?, ?, ?)]; the primary key rejects a second row of the
    same id. *)
Definition sql_insert (r : row) (tbl : table) : result table :=
  if existsb (λ x, str_eqb (c_id x) (c_id r)) tbl
  then Raise IntegrityError
  else Ok (tbl ++ [r]).

(** The binding of a [str] parameter: sqlite3 passes it to SQLite as
    UTF-8. *)
Definition bind_text (s : str) : result str :=
  rbind (encode_utf8 s) (λ _, Ok s).

(** The binding of a parameter that goes to a TEXT column, as the value the
    column then holds: [None] is NULL; a [str] is its text; an [int] or a
    [bool] is bound as an INTEGER of 64 bits, which the affinity of the
    column stores as its decimal text; a [list] or a [dict] is not a
    supported parameter. *)
Definition bind_parameter (v : json) : result (option str) :=
  match v with
  | JNull => Ok None
  | JStr s => rbind (bind_text s) (λ s, Ok (Some s))
  | JInt n =>
      if ((- 2 ^ 63 <=? n) && (n <? 2 ^ 63))%Z then Ok (Some (decimal n))
      else Raise OverflowError
  | JBool b => Ok (Some (if b then u "1" else u "0"))
  | JArr _ | JObj _ => Raise ProgrammingError
  end.

(** [now] is the reading of [datetime.utcnow()] inside the call.  The id is
    a [str] or [None]; the title and the thumbnail are the values the
    caller passes.  Each [execute] binds its parameters in turn and raises
    at the first that cannot be bound, before the statement runs; nothing
    is committed then. *)
Definition upsert_channel (now : datetime)
    (ch_id : option str) (title thumb : json) (tbl : table) : result table :=
  match ch_id with
  | None | Some [] => Ok tbl
  | Some ch_id =>
      let now := isoformat now in
      rbind (bind_text ch_id) (λ ch_id,
      match select_id ch_id tbl with
      | Some _ =>
          rbind (bind_parameter title) (λ title,
          rbind (bind_parameter thumb) (λ thumb,
          Ok (sql_update title thumb now ch_id tbl)))
      | None =>
          rbind (bind_parameter title) (λ title,
          rbind (bind_parameter thumb) (λ thumb,
          sql_insert {| c_id := ch_id; c_title := title; c_thumbnail := thumb;
                        c_saved_at := now; c_last_used_at := now |} tbl))
      end)
  end.

(** The rows [GET /channels] returns, with the column aliases of the
    query. *)
Record channel_entry := {
  channel_id : str;
  channel_title : option str;
  thumbnail : option str;
  saved_at : str;
  last_used_at : str
}.

Definition entry_of_row (r : row) : channel_entry :=
  {| channel_id := c_id r; channel_title := c_title r; thumbnail := c_thumbnail r;
     saved_at := c_saved_at r; last_used_at := c_last_used_at r |}.

(** [ORDER BY last_used_at DESC]: a sort on the TEXT column; rows of equal
    key keep their rowid order (SQL leaves the order of ties open). *)
Fixpoint insert_desc (r : row) (l : list row) : list row :=
  match l with
  | [] => [r]
  | x :: l' =>
      if str_leb (c_last_used_at x) (c_last_used_at r)
      then r :: l
      else x :: insert_desc r l'
  end.

Definition order_by_last_used_desc (tbl : table) : list row :=
  foldr insert_desc [] tbl.

Definition list_channels (tbl : table) : list channel_entry :=
  map entry_of_row (order_by_last_used_desc tbl).

(** A sequence of upserts, each with its clock reading. *)
Record upsert_call := {
  u_now : datetime;
  u_id : option str;
  u_title : json;
  u_thumb : json
}.

Fixpoint upserts (calls : list upsert_call) (tbl : table) : result table :=
  match calls with
  | [] => Ok tbl
  | c :: calls' =>
      rbind (upsert_channel (u_now c) (u_id c) (u_title c) (u_thumb c) tbl)
            (upserts calls')
  end.

(** The readings of a clock that never goes back. *)
Fixpoint nondecreasing (ts : list datetime) : Prop :=
  match ts with
  | [] => True
  | t :: ts' => Forall (dt_le t) ts' ∧ nondecreasing ts'
  end.

(** ** Files and the streaming generator *)

Abbreviation fs := (gmap (list N) (list Byte.byte)).

(** [os.remove(path)] *)
Definition os_remove (path : str) (files : fs) : result fs :=
  match files !! path with
  | Some _ => Ok (delete path files)
  | None => Raise FileNotFoundError
  end.

(** [os.path.exists(path)] *)
Definition path_exists (path : str) (files : fs) : bool :=
  bool_decide (is_Some (files !! path)).

(** [os.path.join(a, b)] (POSIX). *)
Definition path_join (a b : str) : str :=
  if startswith (u "/") b then b
  else if bool_decide (a = []) || endswith (u "/") a then a ++ b
  else a ++ u "/" ++ b.

(** [s.rfind(c)] for a one-character [c]: the last index, or -1. *)
Fixpoint rfind_from (c : N) (s : str) (i last : Z) : Z :=
  match s with
  | [] => last
  | x :: s' => rfind_from c s' (i + 1)%Z (if x =? c then i else last)
  end.

Definition rfind (c : N) (s : str) : Z := rfind_from c s 0%Z (-1)%Z.

(** [s[i:j]] for indices that are not negative. *)
Definition slice (s : str) (i j : Z) : str :=
  take (Z.to_nat j - Z.to_nat i) (drop (Z.to_nat i) s).

(** [os.path.splitext(p)] (POSIX): the extension starts at the last dot of
    the last component, unless only dots come before it. *)
Definition splitext (p : str) : str * str :=
  let sepIndex := rfind 47 p in
  let dotIndex := rfind 46 p in
  if (sepIndex <? dotIndex)%Z
     && existsb (λ c, negb (c =? 46)) (slice p (sepIndex + 1) dotIndex)
  then (take (Z.to_nat dotIndex) p, drop (Z.to_nat dotIndex) p)
  else (p, []).

(** The chunk size of [f.read(1024 * 1024)]. *)
Definition CHUNK : N := 1024 * 1024.

(** An open binary file: its bytes and the read position. *)
Record file_handle := { h_data : list Byte.byte; h_pos : nat }.

(** [f.read(n)] *)
Definition file_read (n : N) (f : file_handle) : list Byte.byte * file_handle :=
  let chunk := take (N.to_nat n) (drop (h_pos f) (h_data f)) in
  (chunk, {| h_data := h_data f; h_pos := h_pos f + length chunk |}).

(** The generator [stream_and_delete] of one response: not started,
    suspended at its [yield] with the file open, or finished. *)
Inductive gen_state : Type :=
| GenCreated
| GenSuspended (f : file_handle)
| GenClosed.

Inductive gen_event : Type :=
| Yield (chunk : list Byte.byte)
| StopIteration
| GenRaise (e : exn).

(** The [while chunk := f.read(1024 * 1024)] loop from the position of [f],
    up to the next [yield] or, when the file is exhausted, through the end
    of the [with] block and the removal of the file, whose failure is
    ignored. *)
Definition stream_loop (final_path : str) (f : file_handle) (files : fs)
    : gen_event * gen_state * fs :=
  let '(chunk, f') := file_read CHUNK f in
  match chunk with
  | [] =>
      let files' := match os_remove final_path files with
                    | Ok files' => files'
                    | Raise _ => files
                    end in
      (StopIteration, GenClosed, files')
  | _ :: _ => (Yield chunk, GenSuspended f', files)
  end.

(** [next(gen)] *)
Definition gen_next (final_path : str) (g : gen_state) (files : fs)
    : gen_event * gen_state * fs :=
  match g with
  | GenCreated =>
      match files !! final_path with
      | Some data => stream_loop final_path {| h_data := data; h_pos := 0 |} files
      | None => (GenRaise FileNotFoundError, GenClosed, files)
      end
  | GenSuspended f => stream_loop final_path f files
  | GenClosed => (StopIteration, GenClosed, files)
  end.

(** [gen.close()]: GeneratorExit is raised at the [yield]; the [with] block
    closes the file and the exception leaves the generator, so that nothing
    after the [with] block runs. *)
Definition gen_close (g : gen_state) (files : fs) : gen_state * fs :=
  match g with
  | GenCreated => (GenClosed, files)
  | GenSuspended _ => (GenClosed, files)
  | GenClosed => (GenClosed, files)
  end.

(** The caller reads the stream to its end: [next] until the generator
    stops, at most [fuel] times. *)
Fixpoint drain (fuel : nat) (final_path : str) (g : gen_state) (files : fs)
    : option (list (list Byte.byte) * gen_event * fs) :=
  match fuel with
  | O => None
  | S fuel' =>
      match gen_next final_path g files with
      | (Yield chunk, g', files') =>
          match drain fuel' final_path g' files' with
          | Some (chunks, ev, files'') => Some (chunk :: chunks, ev, files'')
          | None => None
          end
      | (ev, _, files') => Some ([], ev, files')
      end
  end.

(** The caller reads [k] chunks and goes away: the generator is closed. *)
Fixpoint read_then_close (k : nat) (final_path : str) (g : gen_state) (files : fs)
    : list (list Byte.byte) * gen_state * fs :=
  match k with
  | O => let '(g', files') := gen_close g files in ([], g', files')
  | S k' =>
      match gen_next final_path g files with
      | (Yield chunk, g', files') =>
          let '(chunks, g'', files'') := read_then_close k' final_path g' files' in
          (chunk :: chunks, g'', files'')
      | (_, g', files') => ([], g', files')
      end
  end.

(** ** Python's dynamic accessors on JSON values *)

Fixpoint assoc (key : str) (fields : list (str * json)) : option json :=
  match fields with
  | [] => None
  | (k, v) :: fields' => if str_eqb k key then Some v else assoc key fields'
  end.

(** A [str] or [None] as a value. *)
Definition opt_str (o : option str) : json :=
  match o with
  | Some s => JStr s
  | None => JNull
  end.

(** [bool(v)] *)
Definition truthy (v : json) : bool :=
  match v with
  | JNull | JBool false | JStr [] | JInt 0%Z | JArr [] | JObj [] => false
  | _ => true
  end.

(** [d.get(key, default)]: only a dict has the method. *)
Definition jget (key : str) (default : json) (d : json) : result json :=
  match d with
  | JObj fields =>
      match assoc key fields with
      | Some v => Ok v
      | None => Ok default
      end
  | _ => Raise AttributeError
  end.

(** [d[key]] for a [str] key: a list and a [str] take no such index, the
    other values take no index at all. *)
Definition jitem (key : str) (d : json) : result json :=
  match d with
  | JObj fields =>
      match assoc key fields with
      | Some v => Ok v
      | None => Raise (KeyError (JStr key))
      end
  | _ => Raise TypeError
  end.

(** [l[0]]: the first element of a list, the first character of a [str],
    the value of a dict under the key [0], which a JSON object never
    has. *)
Definition jfirst (l : json) : result json :=
  match l with
  | JArr (x :: _) => Ok x
  | JStr (c :: _) => Ok (JStr [c])
  | JArr [] | JStr [] => Raise IndexError
  | JObj _ => Raise (KeyError (JInt 0))
  | JNull | JBool _ | JInt _ => Raise TypeError
  end.

(** [for it in l]: the elements of a list, the keys of a dict, the
    characters of a [str]. *)
Definition jiter (l : json) : result (list json) :=
  match l with
  | JArr xs => Ok xs
  | JObj fields => Ok (map (λ kv, JStr kv.1) fields)
  | JStr s => Ok (map (λ c, JStr [c]) s)
  | JNull | JBool _ | JInt _ => Raise TypeError
  end.

(** [a or b] *)
Definition jor (a b : json) : json := if truthy a then a else b.

Fixpoint rmap {A B} (f : A → result B) (l : list A) : result (list B) :=
  match l with
  | [] => Ok []
  | x :: l' => rbind (f x) (λ y, rbind (rmap f l') (λ ys, Ok (y :: ys)))
  end.

(** ** The request handlers

    A handler runs on the state of the world: the channel table, the files
    of the download directory and the log of the calls made to the external
    API.  It returns a value or raises. *)

Record request := { req_url : str; req_params : list (str * json) }.

Record http_response := {
  status_code : N;
  text : str;
  json_body : result json      (* [.json()] *)
}.

Record world := {
  db : table;
  files : fs;
  calls : list request         (* the external calls made, latest first *)
}.

Definition M (A : Type) : Type := world → result A * world.

Definition ret {A} (a : A) : M A := λ w, (Ok a, w).
Definition raise {A} (e : exn) : M A := λ w, (Raise e, w).
Definition bind {A B} (m : M A) (k : A → M B) : M B :=
  λ w, match m w with
       | (Ok a, w') => k a w'
       | (Raise e, w') => (Raise e, w')
       end.
Definition lift {A} (r : result A) : M A := λ w, (r, w).

(** [try: m  except Exception as e: handler e] *)
Definition try_except {A} (m : M A) (handler : exn → M A) : M A :=
  λ w, match m w with
       | (Ok a, w') => (Ok a, w')
       | (Raise e, w') => handler e w'
       end.

Notation "'do' x <- m ; k" := (bind m (λ x, k))
  (at level 10, x name, m at level 100, k at level 200,
   format "'[v' 'do'  x  <-  m ; '/' k ']'").

(** The metadata dictionary built by [extract_info]. *)
Record video_info := {
  v_id : option str;
  v_title : option str;
  v_duration : option N;
  v_thumbnail : option str;
  v_uploader : option str;
  v_channel_id : option str;
  v_channel_url : option str;
  v_upload_date : option str;
  v_webpage_url : option str
}.

(** What a handler returns to the framework. *)
Inductive response : Type :=
| StreamingResponse (body_path : str) (body : gen_state)
    (media_type : str) (headers : list (str * str))
  (* the body is the generator [stream_and_delete] over [body_path] *)
| JSONResponse (content : json) (status : N).

(** The framework encodes the name and the value of each header in turn,
    as Latin-1 (the names lower-cased first: those of the module are ASCII
    literals). *)
Fixpoint encode_headers (headers : list (str * str)) : result unit :=
  match headers with
  | [] => Ok tt
  | (k, v) :: headers' =>
      rbind (encode_latin1 k) (λ _,
      rbind (encode_latin1 v) (λ _, encode_headers headers'))
  end.

(** [StreamingResponse(gen, media_type=..., headers=...)] over a generator
    that has not started: the headers are encoded, then the media type. *)
Definition new_streaming_response (body_path media_type : str)
    (headers : list (str * str)) : result response :=
  rbind (encode_headers headers) (λ _,
  rbind (encode_latin1 media_type) (λ _,
  Ok (StreamingResponse body_path GenCreated media_type headers))).

(** [JSONResponse(content, status_code=...)]: the framework renders the
    body at once, the text of the content as UTF-8. *)
Definition new_json_response (content : json) (status : N) : result response :=
  rbind (encode_utf8 (json_dumps content)) (λ _, Ok (JSONResponse content status)).

Section Handlers.
Context `{Unicode}.

(** The collaborators and the configuration of the process. *)
Variable ydl_extract_info : str → result video_info.
  (* [YoutubeDL(...).extract_info(url, download=False)] *)
Variable ydl_download : str → str → fs → result str * fs.
  (* [extract_info(url, download=True)] with the output template, then
     [prepare_filename]: the reported path or the exception raised, and
     the files of the directory as the call leaves them *)
Variable requests_get : request → result http_response.
  (* [requests.get(url, params=..., timeout=20)] *)
Variable exn_message : exn → str.              (* [str(e)] *)
Variable YOUTUBE_API_KEY : option str.
Variable DOWNLOADS_DIR : str.

Definition extract_info (url : str) : M video_info :=
  do info <- lift (ydl_extract_info url);
  ret {| v_id := v_id info; v_title := v_title info;
         v_duration := v_duration info; v_thumbnail := v_thumbnail info;
         v_uploader := v_uploader info; v_channel_id := v_channel_id info;
         v_channel_url := v_channel_url info; v_upload_date := v_upload_date info;
         v_webpage_url := v_webpage_url info |}.

(** [upsert_channel] on the table of the world. *)
Definition do_upsert (now : datetime) (ch_id : option str) (title thumb : json)
    : M unit :=
  λ w, match upsert_channel now ch_id title thumb (db w) with
       | Ok tbl => (Ok tt, {| db := tbl; files := files w; calls := calls w |})
       | Raise e => (Raise e, w)
       end.

Definition do_download (url outtmpl : str) : M str :=
  λ w, let '(r, files') := ydl_download url outtmpl (files w) in
       (r, {| db := db w; files := files'; calls := calls w |}).

Definition do_get (url : str) (params : list (str * json)) : M http_response :=
  λ w, let rq := {| req_url := url; req_params := params |} in
       (requests_get rq,
        {| db := db w; files := files w; calls := rq :: calls w |}).

Definition do_exists (path : str) : M bool :=
  λ w, (Ok (path_exists path (files w)), w).

(** [(title or "video").strip().replace("\n", " ")[:100]] *)
Definition title_for_name (title : option str) : str :=
  let t := match title with
           | Some (c :: t) => c :: t
           | Some [] | None => u "video"
           end in
  take 100 (replace_char 10 32 (strip t)).

(** [re.sub(r"[^\w\- .]", "_", title_for_name) + ".mp4"] *)
Definition filename_safe (title_for_name : str) : str :=
  re_sub_class (λ c, negb (is_word c || (c =? 45) || (c =? 32) || (c =? 46)))
    (u "_") title_for_name ++ u ".mp4".

(** [GET /download]; [now] is the clock reading of the upsert and
    [unique_id] the value of [uuid.uuid4().hex]. *)
Definition download (now : datetime) (unique_id : str) (url : str) : M response :=
  try_except
    (do url <- lift (clean_youtube_url url);
     do title <- try_except
       (do info <- extract_info url;
        do _ <- do_upsert now (v_channel_id info) (opt_str (v_uploader info))
                  (opt_str (v_thumbnail info));
        ret (title_for_name (v_title info)))
       (λ _, ret (u "video"));
     let out_base := path_join DOWNLOADS_DIR unique_id in
     do final_path <- do_download url (out_base ++ u ".%(ext)s");
     do final_path <-
       (if negb (endswith (u ".mp4") final_path) then
          let merged := (splitext final_path).1 ++ u ".mp4" in
          do found <- do_exists merged;
          ret (if found then merged else final_path)
        else ret final_path);
     let headers :=
       [(u "Content-Disposition", u "attachment; filename=" ++ filename_safe title)] in
     lift (new_streaming_response final_path (u "video/mp4") headers))
    (λ e, lift (new_json_response (JObj [(u "error", JStr (exn_message e))]) 500)).

(** One entry of the uploads playlist as a video summary. *)
Definition video_of_item (it : json) : result json :=
  rbind (jget (u "snippet") (JObj []) it) (λ sn,
  rbind (jget (u "contentDetails") (JObj []) it) (λ cd,
  rbind (jget (u "thumbnails") (JObj []) sn) (λ thumbs,
  rbind (jget (u "medium") JNull thumbs) (λ medium,
  rbind (jget (u "default") JNull thumbs) (λ default,
  rbind (jget (u "url") JNull (jor (jor medium default) (JObj []))) (λ thumb,
  rbind (jget (u "videoId") JNull cd) (λ videoId,
  rbind (jget (u "title") JNull sn) (λ title,
  rbind (jget (u "publishedAt") JNull sn) (λ publishedAt,
  rbind (jget (u "channelTitle") JNull sn) (λ channelTitle,
  Ok (JObj [(u "videoId", videoId); (u "title", title); (u "thumbnail", thumb);
            (u "publishedAt", publishedAt); (u "channelTitle", channelTitle)]))))))))))).

(** [GET /channels/{channel_id}/videos]: the run of the handler, to the
    dict it returns or the exception it raises. *)
Definition channel_videos (now : datetime)
    (channel_id : str) (page_token : option str) (max_results : Z) : M json :=
  if negb (truthy (opt_str YOUTUBE_API_KEY)) then
    raise (HTTPException 400 (u "Server missing YT_API_KEY env var for channel listing"))
  else
    let key := opt_str YOUTUBE_API_KEY in
    do ch <- do_get (u "https://www.googleapis.com/youtube/v3/channels")
          [(u "part", JStr (u "contentDetails,snippet"));
           (u "id", JStr channel_id); (u "key", key)];
    if negb (status_code ch =? 200) then raise (HTTPException (status_code ch) (text ch))
    else
    do body <- lift (json_body ch);
    do items <- lift (jget (u "items") (JArr []) body);
    if negb (truthy items) then raise (HTTPException 404 (u "Channel not found"))
    else
    do item <- lift (jfirst items);
    do uploads <- lift (rbind (jitem (u "contentDetails") item) (λ cd,
                    rbind (jitem (u "relatedPlaylists") cd) (jitem (u "uploads"))));
    do snippet <- lift (jitem (u "snippet") item);
    do ch_title <- lift (jitem (u "title") snippet);
    do ch_thumb <- lift (rbind (jitem (u "thumbnails") snippet) (λ th,
                     rbind (jitem (u "default") th) (jitem (u "url"))));
    do pl <- do_get (u "https://www.googleapis.com/youtube/v3/playlistItems")
          [(u "part", JStr (u "snippet,contentDetails"));
           (u "playlistId", uploads);
           (u "maxResults", JInt max_results);
           (u "pageToken", jor (opt_str page_token) (JStr []));
           (u "key", key)];
    if negb (status_code pl =? 200) then raise (HTTPException (status_code pl) (text pl))
    else
    do data <- lift (json_body pl);
    do entries <- lift (rbind (jget (u "items") (JArr []) data) jiter);
    do videos <- lift (rmap video_of_item entries);
    do _ <- do_upsert now (Some channel_id) ch_title ch_thumb;
    do nextPageToken <- lift (jget (u "nextPageToken") JNull data);
    ret (JObj [(u "channel", JObj [(u "id", JStr channel_id); (u "title", ch_title);
                                    (u "thumbnail", ch_thumb)]);
               (u "videos", JArr videos);
               (u "nextPageToken", nextPageToken)]).

End Handlers.

(** ** The metadata endpoint *)

(** The metadata dictionary as the body of a JSON response. *)
Definition json_of_info (data : video_info) : json :=
  JObj [(u "id", opt_str (v_id data));
        (u "title", opt_str (v_title data));
        (u "duration", match v_duration data with
                       | Some n => JInt (Z.of_N n)
                       | None => JNull
                       end);
        (u "thumbnail", opt_str (v_thumbnail data));
        (u "uploader", opt_str (v_uploader data));
        (u "channel_id", opt_str (v_channel_id data));
        (u "channel_url", opt_str (v_channel_url data));
        (u "upload_date", opt_str (v_upload_date data));
        (u "webpage_url", opt_str (v_webpage_url data))].

Section MetadataEndpoint.
Context `{Unicode}.
Variable ydl_extract_info : str → result video_info.
Variable exn_message : exn → str.

(** [GET /video_info] (the handler [video_info] of the module; the name is
    taken by the record of the metadata).  [save] is the query parameter,
    [now] the clock reading of the upsert. *)
Definition get_video_info (now : datetime) (url : str) (save : Z) : M response :=
  try_except
    (do url <- lift (clean_youtube_url url);
     do data <- extract_info ydl_extract_info url;
     do _ <- (if (save =? 1)%Z && truthy (opt_str (v_channel_id data))
              then do_upsert now (v_channel_id data) (opt_str (v_uploader data))
                     (opt_str (v_thumbnail data))
              else ret tt);
     lift (new_json_response (json_of_info data) 200))
    (λ e, raise (HTTPException 400 (u "Failed to extract: " ++ exn_message e))).

End MetadataEndpoint.

(** * The vocabulary of the statements *)

(** ** Text and patterns *)

(** A string that does not begin with white space. *)
Definition no_lead (s : str) : Prop :=
  match s with
  | [] => True
  | c :: _ => is_space c = false
  end.

Definition no_trail (s : str) : Prop := no_lead (rev s).

(** A string that does not begin with a character of the class [p]. *)
Definition no_head (p : N → bool) (s : str) : Prop :=
  match s with
  | [] => True
  | c :: _ => p c = false
  end.

(** The language of an expression: the texts it matches, with the groups
    they capture. *)
Inductive matches : regex → str → list str → Prop :=
| M_Lit l : matches (Lit l) l []
| M_Cat r1 r2 m1 g1 m2 g2 :
    matches r1 m1 g1 → matches r2 m2 g2 → matches (Cat r1 r2) (m1 ++ m2) (g1 ++ g2)
| M_Alt_l r1 r2 m g : matches r1 m g → matches (Alt r1 r2) m g
| M_Alt_r r1 r2 m g : matches r2 m g → matches (Alt r1 r2) m g
| M_Opt_some r m g : matches r m g → matches (Opt r) m g
| M_Opt_none r : matches (Opt r) [] []
| M_AtLeast n p m :
    Forall (λ c, p c = true) m → (n ≤ length m)%nat → matches (AtLeast n p) m []
| M_Grp r m g : matches r m g → matches (Grp r) m (m :: g).

(** Some part of [s] matches [r]. *)
Definition contains (r : regex) (s : str) : Prop :=
  ∃ a m g t, s = a ++ m ++ t ∧ matches r m g.

(** [r] matches at the start of [s]. *)
Definition matches_at (r : regex) (s : str) : Prop :=
  ∃ m g t, s = m ++ t ∧ matches r m g.

(** The four forms of the prefix of a shorts URL and the eight of a watch
    URL. *)
Definition shorts_prefixes : list str :=
  [u "https://www.youtube.com/shorts/"; u "https://youtube.com/shorts/";
   u "http://www.youtube.com/shorts/"; u "http://youtube.com/shorts/"].

Definition watch_prefixes : list str :=
  [u "https://www.youtube.com/watch?v="; u "https://www.youtu.be/";
   u "https://youtube.com/watch?v="; u "https://youtu.be/";
   u "http://www.youtube.com/watch?v="; u "http://www.youtu.be/";
   u "http://youtube.com/watch?v="; u "http://youtu.be/"].

(** ** The channel cache *)

(** The record of a channel id: [SELECT * FROM channels WHERE id=?]. *)
Definition lookup_channel (ch_id : str) (tbl : table) : option row :=
  head (filter (λ r, c_id r = ch_id) tbl).

(** The parameters of an upsert can be bound: the id is empty or absent, so
    that nothing is bound, or the id is text that UTF-8 encodes and the
    title and the thumbnail are values sqlite3 binds. *)
Definition can_bind (v : json) : bool :=
  match bind_parameter v with
  | Ok _ => true
  | Raise _ => false
  end.

Definition bindable (ch_id : option str) (title thumb : json) : bool :=
  match ch_id with
  | None | Some [] => true
  | Some cid => utf8_encodable cid && can_bind title && can_bind thumb
  end.

Definition bindable_call (c : upsert_call) : Prop :=
  bindable (u_id c) (u_title c) (u_thumb c) = true.

(** The row an update leaves in place of [r]. *)
Definition updated (title thumb : option str) (now : str) (r : row) : row :=
  {| c_id := c_id r; c_title := coalesce title (c_title r);
     c_thumbnail := coalesce thumb (c_thumbnail r);
     c_saved_at := c_saved_at r; c_last_used_at := now |}.

(** The row an insertion adds. *)
Definition inserted (ch_id : str) (title thumb : option str) (now : str) : row :=
  {| c_id := ch_id; c_title := title; c_thumbnail := thumb;
     c_saved_at := now; c_last_used_at := now |}.

(** The table after an upsert of [cid] at [now] whose title and thumbnail
    were bound as [t] and [th]: the record of [cid] updated, or a new
    record after the others. *)
Definition upserted (now cid : str) (t th : option str) (tbl : table) : table :=
  match lookup_channel cid tbl with
  | Some _ => sql_update t th now cid tbl
  | None => tbl ++ [inserted cid t th now]
  end.


(** The tables the system builds from the empty table of [init_db]. *)
Definition reachable (tbl : table) : Prop :=
  ∃ calls, upserts calls [] = Ok tbl.


(** [x] is listed before [y]: it was used no earlier. *)
Definition listed_before (x y : row) : Prop :=
  str_le (c_last_used_at y) (c_last_used_at x).

Definition entry_before (x y : channel_entry) : Prop :=
  str_le (last_used_at y) (last_used_at x).

(** ** The download pipeline *)

(** The path the response streams from: the reported path, or the same
    path with the extension [.mp4] when the report has another extension
    and that file exists. *)
Definition resolve_final_path (reported : str) (files : fs) : str :=
  if negb (endswith (u ".mp4") reported)
  then let merged := (splitext reported).1 ++ u ".mp4" in
       if path_exists merged files then merged else reported
  else reported.

(** The characters a file name keeps: [[\w\- .]]. *)
Definition kept_in_filename `{Unicode} (c : N) : bool :=
  is_word c || (c =? 45) || (c =? 32) || (c =? 46).

(** The display name of a download, as the amended statement words it: the
    title, or [video] when the title is missing or empty; trimmed of the
    white space around it; each newline replaced by a space; cut to 100
    characters; each character outside [[\w\- .]] replaced by an
    underscore. *)
Definition display_name `{Unicode} (title : option str) : str :=
  let name := match title with
              | Some t => if bool_decide (t = []) then u "video" else t
              | None => u "video"
              end in
  map (λ c, if kept_in_filename c then c else 95)
      (take 100 (map (λ c, if c =? 10 then 32 else c) (strip name))).

(** The file name as the specification words it: the title cut to 100
    characters, its newlines stripped, each character outside [[\w\- .]]
    replaced by an underscore, and the extension.  [strip_newlines] is the
    reading of "stripping newlines". *)
Definition claimed_filename `{Unicode} (strip_newlines : str → str) (title : str) : str :=
  map (λ c, if kept_in_filename c then c else 95) (strip_newlines (take 100 title))
  ++ u ".mp4".

(** Three readings of "stripping newlines": the newlines are removed; they
    are replaced by spaces; the text is trimmed and its newlines are
    replaced by spaces. *)
Definition remove_newlines (s : str) : str := filter (λ c, c ≠ 10) s.
Definition newlines_to_spaces (s : str) : str := replace_char 10 32 s.
Definition trim_and_replace (s : str) : str := replace_char 10 32 (strip s).

Section Metadata.
Variable ydl_extract_info : str → result video_info.

(** The state and the title after the metadata step. *)
Definition after_metadata (now : datetime) (url : str) (w : world) : str * world :=
  match ydl_extract_info url with
  | Ok info =>
      match upsert_channel now (v_channel_id info) (opt_str (v_uploader info))
              (opt_str (v_thumbnail info)) (db w) with
      | Ok tbl => (title_for_name (v_title info),
                   {| db := tbl; files := files w; calls := calls w |})
      | Raise _ => (u "video", w)
      end
  | Raise _ => (u "video", w)
  end.

End Metadata.

(** ** The channel-video lister *)

(** The two calls of the lister: the channel, then a page of its uploads
    playlist. *)
Definition channels_request (key channel_id : str) : request :=
  {| req_url := u "https://www.googleapis.com/youtube/v3/channels";
     req_params := [(u "part", JStr (u "contentDetails,snippet"));
                    (u "id", JStr channel_id); (u "key", JStr key)] |}.

Definition playlist_request (key : str) (uploads : json) (page_token : option str)
    (max_results : Z) : request :=
  {| req_url := u "https://www.googleapis.com/youtube/v3/playlistItems";
     req_params := [(u "part", JStr (u "snippet,contentDetails"));
                    (u "playlistId", uploads);
                    (u "maxResults", JInt max_results);
                    (u "pageToken", JStr (match page_token with
                                          | Some token => token
                                          | None => []
                                          end));
                    (u "key", JStr key)] |}.

(** The value of a document under a path of keys: [v[k1][k2]...]. *)
Fixpoint jpath (keys : list str) (v : json) : result json :=
  match keys with
  | [] => Ok v
  | k :: keys' => rbind (jitem k v) (jpath keys')
  end.

(** The value of an object under a key, or [default] without the key. *)
Definition field (key : str) (default : json) (fields : list (str * json)) : json :=
  match assoc key fields with
  | Some v => v
  | None => default
  end.

(** ** Data of the instances *)

Definition t1 : datetime :=
  {| year := 2024; month := 3; day := 9; hour := 7; minute := 5; second := 0;
     microsecond := 0 |}.
Definition t2 : datetime :=
  {| year := 2024; month := 3; day := 9; hour := 7; minute := 5; second := 0;
     microsecond := 1250 |}.
Definition t3 : datetime :=
  {| year := 2024; month := 11; day := 30; hour := 23; minute := 59; second := 59;
     microsecond := 999999 |}.

Definition acme (now : datetime) : upsert_call :=
  {| u_now := now; u_id := Some (u "UCxyz"); u_title := JStr (u "Acme");
     u_thumb := JStr (u "http://t/1.jpg") |}.

Definition other (now : datetime) : upsert_call :=
  {| u_now := now; u_id := Some (u "UCabc"); u_title := JNull; u_thumb := JNull |}.

(** A title that is one lone surrogate, ["\udc80"]. *)
Definition lone_surrogate : str := [56448].

Definition acme_row : row :=
  inserted (u "UCxyz") (Some (u "Acme")) (Some (u "http://t/1.jpg")) (isoformat t1).

Definition no_metadata (url : str) : result video_info :=
  Raise (DownloadError (u "Video unavailable")).

Definition some_metadata (url : str) : result video_info :=
  Ok {| v_id := Some (u "abc123X"); v_title := Some (u " Tom & Jerry: ep/1 ");
        v_duration := Some 61; v_thumbnail := Some (u "http://t/1.jpg");
        v_uploader := Some (u "Acme"); v_channel_id := Some (u "UCxyz");
        v_channel_url := None; v_upload_date := Some (u "20240309");
        v_webpage_url := Some url |}.

(** A video whose title is two ideographs, and one whose uploader cannot be
    bound. *)
Definition cjk_metadata (url : str) : result video_info :=
  Ok {| v_id := Some (u "abc123X"); v_title := Some [20013; 25991];
        v_duration := None; v_thumbnail := None; v_uploader := None;
        v_channel_id := None; v_channel_url := None; v_upload_date := None;
        v_webpage_url := Some url |}.

Definition surrogate_metadata (url : str) : result video_info :=
  Ok {| v_id := Some (u "abc123X"); v_title := Some (u "Clip");
        v_duration := None; v_thumbnail := None; v_uploader := Some lone_surrogate;
        v_channel_id := Some (u "UCxyz"); v_channel_url := None;
        v_upload_date := None; v_webpage_url := Some url |}.

Definition webm_then_mp4 (url outtmpl : str) (files : fs) : result str * fs :=
  (Ok (u "downloads/3f2a.webm"), <[ u "downloads/3f2a.mp4" := [Byte.x00; Byte.x01] ]> files).

(** A sample of [str(e)]. *)
Definition message (e : exn) : str :=
  match e with
  | DownloadError msg => msg
  | UnicodeEncodeError encoding _ => u "'" ++ encoding ++ u "' codec can't encode the text"
  | _ => []
  end.

Definition empty_world : world := {| db := []; files := ∅; calls := [] |}.

(** The lister with a credential: an unknown channel, and one page of a
    known channel. *)
Definition api_without_channel (rq : request) : result http_response :=
  Ok {| status_code := 200; text := []; json_body := Ok (JObj [(u "items", JArr [])]) |}.

Definition api_with_channel (rq : request) : result http_response :=
  if endswith (u "/channels") (req_url rq) then
    Ok {| status_code := 200; text := [];
          json_body := Ok (JObj [(u "items", JArr [JObj
            [(u "contentDetails",
              JObj [(u "relatedPlaylists", JObj [(u "uploads", JStr (u "UUxyz"))])]);
             (u "snippet",
              JObj [(u "title", JStr (u "Acme"));
                    (u "thumbnails",
                     JObj [(u "default", JObj [(u "url", JStr (u "http://t/c.jpg"))])])])]])]) |}
  else
    Ok {| status_code := 200; text := [];
          json_body := Ok (JObj
            [(u "items", JArr [JObj
               [(u "snippet",
                 JObj [(u "title", JStr (u "First"));
                       (u "publishedAt", JStr (u "2024-03-09T07:05:00Z"));
                       (u "channelTitle", JStr (u "Acme"));
                       (u "thumbnails",
                        JObj [(u "default", JObj [(u "url", JStr (u "http://t/d.jpg"))])])]);
                (u "contentDetails", JObj [(u "videoId", JStr (u "abc123X"))])]]);
             (u "nextPageToken", JStr (u "CAUQAA"))]) |}.

(** A download that fails after it has written a part of the file. *)
Definition download_fails (url outtmpl : str) (files : fs) : result str * fs :=
  (Raise (DownloadError (u "HTTP Error 403: Forbidden")),
   <[ u "downloads/3f2a.mp4.part" := [Byte.x00] ]> files).

Definition mp4_written (url outtmpl : str) (files : fs) : result str * fs :=
  (Ok (u "downloads/3f2a.mp4"), <[ u "downloads/3f2a.mp4" := [Byte.x2a] ]> files).

Definition api_refuses (rq : request) : result http_response :=
  Ok {| status_code := 403; text := u "quotaExceeded"; json_body := Raise ValueError |}.

Definition playlist_entry : list (str * json) :=
  [(u "snippet",
    JObj [(u "title", JStr (u "First"));
          (u "thumbnails",
           JObj [(u "default", JObj [(u "url", JStr (u "http://t/d.jpg"))]);
                 (u "medium", JObj [(u "url", JStr (u "http://t/m.jpg"))])])]);
   (u "contentDetails", JObj [(u "videoId", JStr (u "abc123X"))])].

(** * Properties *)

(** ** An instance of the Unicode interface *)

(** Boolean comparisons of code points as propositions, for [lia]. *)
Ltac b2p :=
  repeat (rewrite ?orb_true_iff, ?andb_true_iff, ?orb_false_iff, ?andb_false_iff,
            ?N.eqb_eq, ?N.eqb_neq, ?N.leb_le, ?N.leb_gt, ?N.ltb_lt, ?N.ltb_ge in * ).

Lemma latin1_alnum_not_space c : is_space c = true → latin1_alnum c = false.
Proof. unfold is_space, latin1_alnum. intros Hs. b2p. lia. Qed.

#[export] Instance latin1_only : Unicode :=
  {| unicode_alnum := latin1_alnum; alnum_not_space := latin1_alnum_not_space |}.

Lemma cjk_alnum_not_space c : is_space c = true → cjk_alnum c = false.
Proof. unfold is_space, cjk_alnum, latin1_alnum. intros Hs. b2p. lia. Qed.

#[export] Instance latin1_and_cjk : Unicode | 10 :=
  {| unicode_alnum := cjk_alnum; alnum_not_space := cjk_alnum_not_space |}.

(** ** Text *)

Lemma startswith_app (l t : str) : startswith l (l ++ t) = true.
Proof. induction l as [|a l IH]; simpl; [done|]. by rewrite N.eqb_refl. Qed.

Lemma startswith_true (l s : str) : startswith l s = true → s = l ++ drop (length l) s.
Proof.
  revert s. induction l as [|a l IH]; intros [|b s]; simpl; try done.
  intros [->%N.eqb_eq Hs]%andb_true_iff. f_equal. by apply IH.
Qed.

Lemma lstrip_no_lead s : no_lead (lstrip s).
Proof.
  induction s as [|c s IH]; simpl; [done|].
  destruct (is_space c) eqn:E; [done|]. simpl. done.
Qed.

Lemma lstrip_id s : no_lead s → lstrip s = s.
Proof. destruct s as [|c s]; simpl; [done|]. by intros ->. Qed.

Lemma lstrip_suffix s : ∃ ws, s = ws ++ lstrip s.
Proof.
  induction s as [|c s [ws IH]]; simpl; [by exists []|].
  destruct (is_space c); [|by exists []].
  exists (c :: ws). simpl. by f_equal.
Qed.

Lemma lstrip_app a b : b ≠ [] → no_lead b → lstrip (a ++ b) = lstrip a ++ b.
Proof.
  intros Hb Hl. induction a as [|c a IH]; simpl.
  - by apply lstrip_id.
  - by destruct (is_space c).
Qed.

Lemma rstrip_prefix s : ∃ ws, s = rstrip s ++ ws.
Proof.
  unfold rstrip. destruct (lstrip_suffix (rev s)) as [ws Hws].
  exists (rev ws). rewrite <- rev_app_distr, <- Hws. by rewrite rev_involutive.
Qed.

Lemma rstrip_no_trail s : no_trail (rstrip s).
Proof. unfold no_trail, rstrip. rewrite rev_involutive. apply lstrip_no_lead. Qed.

Lemma rstrip_id s : no_trail s → rstrip s = s.
Proof. unfold no_trail, rstrip. intros Hs. by rewrite lstrip_id, rev_involutive. Qed.

Lemma rstrip_app a b : a ≠ [] → no_trail a → rstrip (a ++ b) = a ++ rstrip b.
Proof.
  intros Ha Ht. unfold rstrip. rewrite rev_app_distr, lstrip_app.
  - by rewrite rev_app_distr, rev_involutive.
  - intros Hr. apply Ha. by rewrite <- (rev_involutive a), Hr.
  - done.
Qed.

Lemma no_lead_prefix a b : a ≠ [] → no_lead (a ++ b) → no_lead a.
Proof. by destruct a. Qed.

Lemma no_lead_app a b : a ≠ [] → no_lead a → no_lead (a ++ b).
Proof. by destruct a. Qed.

Lemma rstrip_no_lead s : no_lead s → no_lead (rstrip s).
Proof.
  intros Hs. destruct (rstrip_prefix s) as [ws Hws].
  destruct (rstrip s) as [|c r] eqn:E; [done|].
  rewrite Hws in Hs. done.
Qed.

Lemma strip_no_lead s : no_lead (strip s).
Proof. apply rstrip_no_lead, lstrip_no_lead. Qed.

Lemma strip_no_trail s : no_trail (strip s).
Proof. apply rstrip_no_trail. Qed.

Lemma strip_id s : no_lead s → no_trail s → strip s = s.
Proof. intros Hl Ht. unfold strip. by rewrite lstrip_id, rstrip_id. Qed.

Lemma strip_idempotent s : strip (strip s) = strip s.
Proof. apply strip_id; [apply strip_no_lead | apply strip_no_trail]. Qed.

(** The stripped string is a part of the string. *)
Lemma strip_middle s : ∃ a b, s = a ++ strip s ++ b.
Proof.
  destruct (lstrip_suffix s) as [a Ha]. destruct (rstrip_prefix (lstrip s)) as [b Hb].
  exists a, b. unfold strip. by rewrite <- Hb.
Qed.

(** ** The regular-expression engine against the language of the
    expressions *)

Lemma greedy_sound p n s m :
  In m (greedy p n s) →
  Forall (λ c, p c = true) m ∧ (n ≤ length m)%nat ∧ ∃ t, s = m ++ t.
Proof.
  revert n m. induction s as [|c s IH]; intros n m; simpl.
  - destruct n; simpl; [|done]. intros [<-|[]]. split; [done|]. split; [done|]. by exists [].
  - assert (Hstop : In m (match n with O => [[]] | S _ => [] end) →
      Forall (λ c, p c = true) m ∧ (n ≤ length m)%nat ∧ ∃ t, c :: s = m ++ t).
    { destruct n; simpl; [|done]. intros [<-|[]].
      split; [done|]. split; [done|]. by exists (c :: s). }
    destruct (p c) eqn:Hc; [|done].
    rewrite in_app_iff, in_map_iff. intros [(m' & <- & Hm')|Hm]; [|by apply Hstop].
    destruct (IH _ _ Hm') as (Hall & Hlen & t & ->).
    split; [by constructor|]. split; [simpl; lia|]. by exists t.
Qed.

Lemma greedy_complete p n m t :
  Forall (λ c, p c = true) m → (n ≤ length m)%nat → In m (greedy p n (m ++ t)).
Proof.
  intros Hall. revert n. induction Hall as [|c m Hc Hall IH]; intros n Hn; simpl in *.
  - assert (n = O) as -> by lia. destruct t as [|c t]; simpl; [by left|].
    destruct (p c); [apply in_app_iff; right|]; by left.
  - rewrite Hc. apply in_app_iff. left. apply in_map. apply IH. lia.
Qed.

Lemma run_sound r s m g :
  In (m, g) (run r s) → matches r m g ∧ ∃ t, s = m ++ t.
Proof.
  revert s m g. induction r as [l|r1 IH1 r2 IH2|r1 IH1 r2 IH2|r IH|n p|r IH];
    intros s m g; simpl.
  - destruct (startswith l s) eqn:E; [|done]. intros [[= <- <-]|[]].
    split; [constructor|]. eexists. by apply startswith_true.
  - rewrite in_flat_map. intros ([m1 g1] & H1 & H2).
    apply in_map_iff in H2 as ([m2 g2] & [= <- <-] & H2).
    destruct (IH1 _ _ _ H1) as (M1 & t1 & ->).
    rewrite drop_app_length in H2.
    destruct (IH2 _ _ _ H2) as (M2 & t2 & ->).
    split; [by constructor|]. exists t2. by rewrite <- app_assoc.
  - rewrite in_app_iff. intros [H1|H2].
    + destruct (IH1 _ _ _ H1) as [M1 Ht]. split; [by apply M_Alt_l|done].
    + destruct (IH2 _ _ _ H2) as [M2 Ht]. split; [by apply M_Alt_r|done].
  - rewrite in_app_iff. intros [H1|[[= <- <-]|[]]].
    + destruct (IH _ _ _ H1) as [M1 Ht]. split; [by apply M_Opt_some|done].
    + split; [apply M_Opt_none|]. by exists s.
  - rewrite in_map_iff. intros (m' & [= <- <-] & Hm).
    destruct (greedy_sound _ _ _ _ Hm) as (Hall & Hlen & Ht).
    split; [by constructor|done].
  - rewrite in_map_iff. intros ([m' g'] & [= <- <-] & Hm).
    destruct (IH _ _ _ Hm) as [M1 Ht]. split; [by constructor|done].
Qed.

Lemma run_complete r m g t : matches r m g → In (m, g) (run r (m ++ t)).
Proof.
  intros Hm. revert t. induction Hm; intros t; simpl.
  - rewrite startswith_app. by left.
  - apply in_flat_map. exists (m1, g1). split.
    + rewrite <- app_assoc. apply IHHm1.
    + apply in_map_iff. exists (m2, g2). split; [done|].
      rewrite <- app_assoc, drop_app_length. apply IHHm2.
  - apply in_app_iff. left. apply IHHm.
  - apply in_app_iff. right. apply IHHm.
  - apply in_app_iff. left. apply IHHm.
  - apply in_app_iff. right. by left.
  - apply in_map_iff. exists m. split; [done|]. by apply greedy_complete.
  - apply in_map_iff. exists (m, g). split; [done|]. apply IHHm.
Qed.

Lemma head_in {A} (l : list A) x : head l = Some x → In x l.
Proof. destruct l; simpl; [done|]. intros [= ->]. by left. Qed.

Lemma head_none_nil {A} (l : list A) : head l = None → l = [].
Proof. by destruct l. Qed.

Lemma run_nil_iff r s : run r s = [] ↔ ¬ matches_at r s.
Proof.
  split.
  - intros Hnil (m & g & t & -> & Hm).
    pose proof (run_complete _ _ _ t Hm) as Hin. by rewrite Hnil in Hin.
  - intros Hno. destruct (run r s) as [|[m g] l] eqn:E; [done|].
    exfalso. apply Hno. destruct (run_sound r s m g) as (Hm & t & ->).
    { rewrite E. by left. }
    by exists m, g, t.
Qed.

Lemma re_search_sound r s mt :
  re_search r s = Some mt →
  ∃ a t, s = a ++ m_text mt ++ t ∧ matches r (m_text mt) (m_groups mt).
Proof.
  induction s as [|c s IH]; simpl.
  - destruct (head (run r [])) as [[m g]|] eqn:E; [|done]. intros [= <-]. simpl.
    destruct (run_sound _ _ _ _ (head_in _ _ E)) as (Hm & t & Ht).
    by exists [], t.
  - destruct (head (run r (c :: s))) as [[m g]|] eqn:E.
    + intros [= <-]. simpl.
      destruct (run_sound _ _ _ _ (head_in _ _ E)) as (Hm & t & Ht).
      by exists [], t.
    + intros Hs. destruct (IH Hs) as (a & t & -> & Hm). by exists (c :: a), t.
Qed.

Lemma re_search_none r s : re_search r s = None ↔ ¬ contains r s.
Proof.
  split.
  - intros Hnone (a & m & g & t & -> & Hm).
    induction a as [|c a IH]; simpl in Hnone.
    + pose proof (run_complete _ _ _ t Hm) as Hin.
      destruct (m ++ t); simpl in *; destruct (run r _) as [|[] ?]; done.
    + destruct (head (run r _)) as [[]|]; [done|]. by apply IH.
  - intros Hno. destruct (re_search r s) as [mt|] eqn:E; [|done].
    exfalso. apply Hno. destruct (re_search_sound _ _ _ E) as (a & t & -> & Hm).
    by exists a, (m_text mt), (m_groups mt), t.
Qed.

(** Where no match starts at the first character, the search goes on. *)
Lemma re_search_skip r c s : run r (c :: s) = [] → re_search r (c :: s) = re_search r s.
Proof. simpl. by intros ->. Qed.

Lemma re_search_skip_app r a s :
  (∀ a1 a2, a = a1 ++ a2 → a2 ≠ [] → ¬ matches_at r (a2 ++ s)) →
  re_search r (a ++ s) = re_search r s.
Proof.
  induction a as [|c a IH]; intros Hno; [done|].
  rewrite <- app_comm_cons, re_search_skip.
  - apply IH. intros a1 a2 -> Ha2. by apply (Hno (c :: a1) a2).
  - apply run_nil_iff. rewrite app_comm_cons. by apply (Hno [] (c :: a)).
Qed.

Lemma re_search_here r s m g :
  head (run r s) = Some (m, g) → re_search r s = Some {| m_text := m; m_groups := g |}.
Proof. destruct s; simpl; by intros ->. Qed.

Lemma greedy_head p n id rest :
  Forall (λ c, p c = true) id → no_head p rest →
  head (greedy p n (id ++ rest)) = if decide (n ≤ length id)%nat then Some id else None.
Proof.
  intros Hall Hrest. revert n. induction Hall as [|c id Hc Hall IH]; intros n; simpl.
  - destruct rest as [|c rest]; simpl in *; [|rewrite Hrest]; by destruct n.
  - rewrite Hc. specialize (IH (pred n)).
    destruct (decide (pred n ≤ length id)%nat) as [Hle|Hgt].
    + destruct (greedy p (pred n) (id ++ rest)) as [|x l]; [done|].
      simpl in IH. injection IH as ->. simpl. by rewrite decide_True by lia.
    + apply head_none_nil in IH. rewrite IH. simpl.
      destruct n as [|n]; simpl in *; [lia|]. by rewrite decide_False by lia.
Qed.

Lemma span_class p s :
  ∃ id rest, s = id ++ rest ∧ Forall (λ c, p c = true) id ∧ no_head p rest.
Proof.
  induction s as [|c s (id & rest & -> & Hall & Hrest)].
  - by exists [], [].
  - destruct (p c) eqn:Hc.
    + exists (c :: id), rest. split; [done|]. split; [by constructor|done].
    + by exists [], (c :: id ++ rest).
Qed.

(** ** The URL normalizer *)

Section NormalizerFacts.
Context `{Unicode}.

Lemma idchar_not_space c : is_idchar c = true → is_space c = false.
Proof.
  unfold is_idchar, is_word. intros Hc.
  destruct (is_space c) eqn:Hs; [|done].
  rewrite (alnum_not_space c Hs) in Hc.
  unfold is_space, ascii_alnum in *. destruct (c <? 128) eqn:Hlt; b2p; lia.
Qed.

(** String literals as explicit code points, for evaluation. *)
Ltac norm_u :=
  repeat match goal with
         | |- context [u ?s] =>
             let v := eval vm_compute in (u s) in change (u s) with v
         end.

(** [run] of a pattern on a string with an explicit prefix. *)
Ltac run_eval :=
  norm_u; cbn; rewrite ?app_nil_r, ?map_map, ?drop_0;
  first [ reflexivity | apply map_ext; intros; reflexivity ].

Lemma run_shorts_prefix P t :
  In P shorts_prefixes →
  run shorts_re (P ++ t) = map (λ id, (P ++ id, [id])) (greedy is_idchar 6 t).
Proof.
  intros HP. unfold shorts_prefixes in HP. simpl in HP.
  destruct HP as [<-|[<-|[<-|[<-|[]]]]]; unfold shorts_re; run_eval.
Qed.

Lemma run_watch_prefix P t :
  In P watch_prefixes →
  run watch_re (P ++ t) = map (λ id, (P ++ id, [P ++ id])) (greedy is_idchar 6 t).
Proof.
  intros HP. unfold watch_prefixes in HP. simpl in HP.
  destruct HP as [<-|[<-|[<-|[<-|[<-|[<-|[<-|[<-|[]]]]]]]]]; unfold watch_re; run_eval.
Qed.

(** The texts the two patterns match. *)
Ltac invert_matches :=
  repeat match goal with
         | Hm : matches (Cat _ _) _ _ |- _ => inversion Hm; subst; clear Hm
         | Hm : matches (Opt _) _ _ |- _ => inversion Hm; subst; clear Hm
         | Hm : matches (Alt _ _) _ _ |- _ => inversion Hm; subst; clear Hm
         | Hm : matches (Grp _) _ _ |- _ => inversion Hm; subst; clear Hm
         | Hm : matches (AtLeast _ _) _ _ |- _ => inversion Hm; subst; clear Hm
         | Hm : matches (Lit _) _ _ |- _ => inversion Hm; subst; clear Hm
         end.

Ltac pick_prefix P id :=
  exists P, id; split; [simpl; tauto | split; [norm_u; reflexivity | done]].

Lemma matches_shorts m g :
  matches shorts_re m g →
  ∃ P id, In P shorts_prefixes ∧ m = P ++ id ∧ g = [id] ∧
          Forall (λ c, is_idchar c = true) id ∧ (6 ≤ length id)%nat.
Proof.
  unfold shorts_re. intros Hm. invert_matches.
  - pick_prefix (u "https://www.youtube.com/shorts/") m6.
  - pick_prefix (u "http://www.youtube.com/shorts/") m6.
  - pick_prefix (u "https://youtube.com/shorts/") m6.
  - pick_prefix (u "http://youtube.com/shorts/") m6.
Qed.

Lemma matches_watch m g :
  matches watch_re m g →
  ∃ P id, In P watch_prefixes ∧ m = P ++ id ∧ g = [m] ∧
          Forall (λ c, is_idchar c = true) id ∧ (6 ≤ length id)%nat.
Proof.
  unfold watch_re. intros Hm. invert_matches.
  - pick_prefix (u "https://www.youtube.com/watch?v=") m6.
  - pick_prefix (u "https://www.youtu.be/") m6.
  - pick_prefix (u "http://www.youtube.com/watch?v=") m6.
  - pick_prefix (u "http://www.youtu.be/") m6.
  - pick_prefix (u "https://youtube.com/watch?v=") m6.
  - pick_prefix (u "https://youtu.be/") m6.
  - pick_prefix (u "http://youtube.com/watch?v=") m6.
  - pick_prefix (u "http://youtu.be/") m6.
Qed.

(** Conversely, a prefix followed by an identifier is in the language of
    the pattern. *)
Lemma shorts_shape_matches P id :
  In P shorts_prefixes → Forall (λ c, is_idchar c = true) id → (6 ≤ length id)%nat →
  matches shorts_re (P ++ id) [id].
Proof.
  intros HP Hall Hlen. apply (run_sound shorts_re (P ++ id ++ [])).
  rewrite run_shorts_prefix by done. apply in_map_iff. exists id. split; [done|].
  by apply greedy_complete.
Qed.

Lemma watch_shape_matches P id :
  In P watch_prefixes → Forall (λ c, is_idchar c = true) id → (6 ≤ length id)%nat →
  matches watch_re (P ++ id) [P ++ id].
Proof.
  intros HP Hall Hlen. apply (run_sound watch_re (P ++ id ++ [])).
  rewrite run_watch_prefix by done. apply in_map_iff. exists id. split; [done|].
  by apply greedy_complete.
Qed.

(** Every prefix starts with [h], which is not white space. *)
Lemma shorts_prefix_lead P t : In P shorts_prefixes → P ++ t ≠ [] ∧ no_lead (P ++ t).
Proof.
  intros HP. unfold shorts_prefixes in HP. simpl in HP.
  destruct HP as [<-|[<-|[<-|[<-|[]]]]]; by vm_compute.
Qed.

Lemma watch_prefix_lead P t : In P watch_prefixes → P ++ t ≠ [] ∧ no_lead (P ++ t).
Proof.
  intros HP. unfold watch_prefixes in HP. simpl in HP.
  destruct HP as [<-|[<-|[<-|[<-|[<-|[<-|[<-|[<-|[]]]]]]]]]; by vm_compute.
Qed.

(** An identifier of the URL ends with a character that is not white
    space. *)
Lemma idchars_no_trail a id :
  Forall (λ c, is_idchar c = true) id → id ≠ [] → no_trail (a ++ id).
Proof.
  intros Hall Hne. unfold no_trail. rewrite rev_app_distr.
  destruct (rev id) as [|c r] eqn:E.
  - destruct Hne. by rewrite <- (rev_involutive id), E.
  - simpl. apply idchar_not_space.
    rewrite List.Forall_forall in Hall. apply Hall.
    apply in_rev. rewrite E. by left.
Qed.

Lemma idchars_no_head_strip rest : no_head is_idchar rest → no_head is_idchar (rstrip rest).
Proof.
  intros Hr. destruct (rstrip_prefix rest) as [ws Hws].
  destruct (rstrip rest) as [|c r]; [done|]. rewrite Hws in Hr. done.
Qed.

(** A string of identifier characters holds no URL: the patterns need a
    colon. *)
Lemma no_colon_no_match r s :
  (∀ m g, matches r m g → In 58 m) → is_idchar 58 = false →
  Forall (λ c, is_idchar c = true) s → re_search r s = None.
Proof.
  intros Hcolon H58 Hall. apply re_search_none.
  intros (a & m & g & t & -> & Hm).
  rewrite List.Forall_forall in Hall.
  rewrite (Hall 58) in H58; [done|].
  rewrite !in_app_iff. right. left. by eapply Hcolon.
Qed.

Lemma idchar_colon : is_idchar 58 = false.
Proof. reflexivity. Qed.

Lemma shorts_has_colon m g : matches shorts_re m g → In 58 m.
Proof.
  intros (P & id & HP & -> & _)%matches_shorts. apply in_app_iff. left.
  unfold shorts_prefixes in HP. simpl in HP.
  destruct HP as [<-|[<-|[<-|[<-|[]]]]]; vm_compute; tauto.
Qed.

Lemma watch_has_colon m g : matches watch_re m g → In 58 m.
Proof.
  intros (P & id & HP & -> & _)%matches_watch. apply in_app_iff. left.
  unfold watch_prefixes in HP. simpl in HP.
  destruct HP as [<-|[<-|[<-|[<-|[<-|[<-|[<-|[<-|[]]]]]]]]]; vm_compute; tauto.
Qed.

(** The searches on a string that starts with a URL. *)
Lemma search_shorts_here P id rest :
  In P shorts_prefixes → Forall (λ c, is_idchar c = true) id → (6 ≤ length id)%nat →
  no_head is_idchar rest →
  re_search shorts_re (P ++ id ++ rest) = Some {| m_text := P ++ id; m_groups := [id] |}.
Proof.
  intros HP Hall Hlen Hrest. apply re_search_here.
  rewrite run_shorts_prefix by done.
  pose proof (greedy_head is_idchar 6 id rest Hall Hrest) as Hh.
  rewrite decide_True in Hh by done.
  destruct (greedy is_idchar 6 (id ++ rest)); simpl in *; [done|]. by injection Hh as ->.
Qed.

Lemma search_watch_here P id rest :
  In P watch_prefixes → Forall (λ c, is_idchar c = true) id → (6 ≤ length id)%nat →
  no_head is_idchar rest →
  re_search watch_re (P ++ id ++ rest)
  = Some {| m_text := P ++ id; m_groups := [P ++ id] |}.
Proof.
  intros HP Hall Hlen Hrest. apply re_search_here.
  rewrite run_watch_prefix by done.
  pose proof (greedy_head is_idchar 6 id rest Hall Hrest) as Hh.
  rewrite decide_True in Hh by done.
  destruct (greedy is_idchar 6 (id ++ rest)); simpl in *; [done|]. by injection Hh as ->.
Qed.

(** The three outcomes of the normalizer. *)
Lemma clean_youtube_url_cases url :
  (∃ P id, In P shorts_prefixes ∧ Forall (λ c, is_idchar c = true) id ∧
           (6 ≤ length id)%nat ∧
           clean_youtube_url url = Ok (u "https://www.youtube.com/watch?v=" ++ id))
  ∨ (∃ P id, In P watch_prefixes ∧ Forall (λ c, is_idchar c = true) id ∧
             (6 ≤ length id)%nat ∧ clean_youtube_url url = Ok (P ++ id))
  ∨ (re_search shorts_re (strip url) = None ∧ re_search watch_re (strip url) = None ∧
     clean_youtube_url url = Ok (strip url)).
Proof.
  unfold clean_youtube_url.
  destruct (re_search shorts_re (strip url)) as [mt|] eqn:Es.
  - left. destruct (re_search_sound _ _ _ Es) as (a & t & _ & Hm).
    apply matches_shorts in Hm as (P & id & HP & _ & Hg & Hall & Hlen).
    exists P, id. unfold group. rewrite Hg. simpl. done.
  - right. destruct (re_search watch_re (strip url)) as [mt|] eqn:Ew.
    + left. destruct (re_search_sound _ _ _ Ew) as (a & t & _ & Hm).
      apply matches_watch in Hm as (P & id & HP & Ht & Hg & Hall & Hlen).
      exists P, id. unfold group. rewrite Hg. simpl. by rewrite Ht.
    + by right.
Qed.

(** A watch URL is a fixed point of the normalizer. *)
Lemma clean_youtube_url_fixed P id :
  In P watch_prefixes → Forall (λ c, is_idchar c = true) id → (6 ≤ length id)%nat →
  clean_youtube_url (P ++ id) = Ok (P ++ id).
Proof.
  intros HP Hall Hlen. unfold clean_youtube_url.
  assert (id ≠ []) as Hne by (destruct id; simpl in *; [lia|done]).
  rewrite strip_id;
    [|by apply watch_prefix_lead|by apply idchars_no_trail].
  assert (re_search shorts_re (P ++ id) = None) as ->.
  { unfold watch_prefixes in HP. simpl in HP.
    destruct HP as [<-|[<-|[<-|[<-|[<-|[<-|[<-|[<-|[]]]]]]]]];
      norm_u; cbn [app]; repeat (rewrite re_search_skip by (vm_compute; reflexivity));
      by apply (no_colon_no_match _ _ shorts_has_colon idchar_colon). }
  rewrite <- (app_nil_r id) at 1. rewrite search_watch_here by done. done.
Qed.

Lemma matches_at_extend r x t t' : matches_at r (x ++ t) → matches_at r (x ++ t ++ t').
Proof.
  intros (m & g & t0 & Heq & Hm). exists m, g, (t0 ++ t').
  split; [|done]. by rewrite !app_assoc, Heq, <- !app_assoc.
Qed.

Lemma contains_strip r s : contains r (strip s) → contains r s.
Proof.
  intros (a & m & g & t & Heq & Hm). destruct (strip_middle s) as (x & y & Hs).
  exists (x ++ a), m, g, (t ++ y). split; [|done].
  rewrite Hs at 1. rewrite Heq. by rewrite <- !app_assoc.
Qed.

(** A check of the positions of [pre] by evaluation. *)
Lemma no_match_inside r pre s :
  forallb (λ k, match run r (drop k (pre ++ s)) with [] => true | _ :: _ => false end)
          (seq 0 (length pre)) = true →
  ∀ a b, pre = a ++ b → b ≠ [] → ¬ matches_at r (b ++ s).
Proof.
  intros Hall a b -> Hb. rewrite forallb_forall in Hall.
  specialize (Hall (length a)). rewrite <- app_assoc, drop_app_length in Hall.
  apply run_nil_iff. destruct (run r (b ++ s)); [done|].
  discriminate Hall. apply in_seq. rewrite length_app.
  destruct b; simpl; [done|lia].
Qed.

(** C2: an input that holds a shorts URL -- one of the four forms of the
    prefix, then an identifier of at least six characters of [[\w-]] that
    ends where the text ends or at a character outside the class -- with no
    earlier shorts URL in the text before it, is normalized to the canonical
    watch URL that carries this identifier. *)
Theorem shorts_url_normalized (pre P id rest : str) :
  In P shorts_prefixes →
  Forall (λ c, is_idchar c = true) id → (6 ≤ length id)%nat →
  no_head is_idchar rest →
  (∀ a b, pre = a ++ b → b ≠ [] → ¬ matches_at shorts_re (b ++ P ++ id ++ rest)) →
  clean_youtube_url (pre ++ P ++ id ++ rest)
  = Ok (u "https://www.youtube.com/watch?v=" ++ id).
Proof.
  intros HP Hall Hlen Hrest Hfirst.
  assert (id ≠ []) as Hne by (destruct id; simpl in *; [lia|done]).
  unfold clean_youtube_url, strip.
  rewrite lstrip_app by (by apply shorts_prefix_lead).
  replace (lstrip pre ++ P ++ id ++ rest) with ((lstrip pre ++ P ++ id) ++ rest)
    by (by rewrite <- !app_assoc).
  rewrite rstrip_app.
  2: { destruct (lstrip pre), P, id; done. }
  2: { rewrite app_assoc. by apply idchars_no_trail. }
  rewrite <- !app_assoc.
  rewrite re_search_skip_app.
  - rewrite search_shorts_here; [done..|]. by apply idchars_no_head_strip.
  - intros a1 a2 Hpre Ha2 Hm.
    destruct (lstrip_suffix pre) as [ws Hws].
    destruct (rstrip_prefix rest) as [ws' Hws'].
    apply (Hfirst (ws ++ a1) a2); [by rewrite <- app_assoc, <- Hpre|done|].
    rewrite Hws'.
    replace (a2 ++ P ++ id ++ rstrip rest ++ ws')
      with ((a2 ++ P ++ id) ++ rstrip rest ++ ws') by (by rewrite <- !app_assoc).
    apply matches_at_extend. by rewrite <- !app_assoc.
Qed.

(** C3: the normalizer returns a string for every input, and an input no
    part of which matches the shorts pattern or the watch pattern is
    returned trimmed of the white space around it. *)
Theorem unrecognized_url_trimmed (url : str) :
  (∃ out, clean_youtube_url url = Ok out) ∧
  (¬ contains shorts_re url → ¬ contains watch_re url →
   clean_youtube_url url = Ok (strip url)).
Proof.
  split.
  - destruct (clean_youtube_url_cases url)
      as [(P & id & _ & _ & _ & ->)|[(P & id & _ & _ & _ & ->)|(_ & _ & ->)]];
      by eexists.
  - intros Hs Hw. unfold clean_youtube_url.
    assert (re_search shorts_re (strip url) = None) as ->.
    { apply re_search_none. intros Hc. by apply Hs, contains_strip. }
    assert (re_search watch_re (strip url) = None) as ->.
    { apply re_search_none. intros Hc. by apply Hw, contains_strip. }
    done.
Qed.

(** C10: the normalizer applied to its own result returns that result. *)
Theorem clean_youtube_url_idempotent (url : str) :
  rbind (clean_youtube_url url) clean_youtube_url = clean_youtube_url url.
Proof.
  destruct (clean_youtube_url_cases url)
    as [(P & id & _ & Hall & Hlen & ->)|[(P & id & HP & Hall & Hlen & ->)
       |(Hs & Hw & ->)]]; cbn [rbind].
  - apply clean_youtube_url_fixed; [|done..]. simpl. tauto.
  - by apply clean_youtube_url_fixed.
  - unfold clean_youtube_url. by rewrite strip_idempotent, Hs, Hw.
Qed.

End NormalizerFacts.

Example clean_shorts :
  clean_youtube_url (u " https://youtube.com/shorts/abc-123_X?feature=share ")
  = Ok (u "https://www.youtube.com/watch?v=abc-123_X").
Proof. vm_compute. reflexivity. Qed.

Example clean_watch :
  clean_youtube_url (u "see https://www.youtube.com/watch?v=dQw4w9WgXcQ&t=42s")
  = Ok (u "https://www.youtube.com/watch?v=dQw4w9WgXcQ").
Proof. vm_compute. reflexivity. Qed.

Example clean_short_domain :
  clean_youtube_url (u "http://youtu.be/abc123X") = Ok (u "http://youtu.be/abc123X").
Proof. vm_compute. reflexivity. Qed.

Example clean_other :
  clean_youtube_url (u "  https://youtu.be/abc  ") = Ok (u "https://youtu.be/abc").
Proof. vm_compute. reflexivity. Qed.

Example clean_keeps_longest_id :
  clean_youtube_url (u "https://youtu.be/abc123X_-9/extra")
  = Ok (u "https://youtu.be/abc123X_-9").
Proof. vm_compute. reflexivity. Qed.

Example clean_short_id_unrecognized :
  clean_youtube_url (u "https://youtube.com/shorts/abc12")
  = Ok (u "https://youtube.com/shorts/abc12").
Proof. vm_compute. reflexivity. Qed.

Lemma shorts_url_normalized_witness :
  clean_youtube_url (u "my clip: https://youtube.com/shorts/abc-123_X?feature=share ")
  = Ok (u "https://www.youtube.com/watch?v=abc-123_X").
Proof.
  apply (shorts_url_normalized (u "my clip: ") (u "https://youtube.com/shorts/")
           (u "abc-123_X") (u "?feature=share ")).
  - simpl. tauto.
  - repeat constructor.
  - simpl. lia.
  - reflexivity.
  - apply no_match_inside. vm_compute. reflexivity.
Defined.

Lemma unrecognized_url_trimmed_witness :
  clean_youtube_url (u "  https://vimeo.com/12345678  ")
  = Ok (u "https://vimeo.com/12345678").
Proof.
  apply (unrecognized_url_trimmed (u "  https://vimeo.com/12345678  "));
    apply re_search_none; vm_compute; reflexivity.
Defined.

(** ** Timestamps: the text order is the order of time *)

Lemma lex_compare_refl a : lex_compare a a = Eq.
Proof. induction a as [|x a IH]; simpl; [done|]. by rewrite N.compare_refl. Qed.

Lemma lex_compare_eq a b : lex_compare a b = Eq → a = b.
Proof.
  revert b. induction a as [|x a IH]; intros [|y b]; simpl; try done.
  destruct (N.compare_spec x y); try done. intros Hab. subst. f_equal. by apply IH.
Qed.

Lemma lex_compare_antisym a b : lex_compare b a = CompOpp (lex_compare a b).
Proof.
  revert b. induction a as [|x a IH]; intros [|y b]; simpl; try done.
  rewrite (N.compare_antisym x y). destruct (x ?= y); simpl; [apply IH|done..].
Qed.

Lemma lex_compare_lt_trans a b c :
  lex_compare a b = Lt → lex_compare b c = Lt → lex_compare a c = Lt.
Proof.
  revert b c. induction a as [|x a IH]; intros [|y b] [|z c]; simpl; try done.
  destruct (N.compare_spec x y), (N.compare_spec y z); try done; subst;
    try rewrite N.compare_refl; try (intros; by apply (IH b c)).
  - intros _ _. by apply N.compare_lt_iff in H0 as ->.
  - intros _ _. by apply N.compare_lt_iff in H as ->.
  - intros _ _. assert (x < z) as Hxz by lia. by apply N.compare_lt_iff in Hxz as ->.
Qed.

Lemma str_le_refl a : str_le a a.
Proof. unfold str_le. by rewrite lex_compare_refl. Qed.

Lemma str_le_trans a b c : str_le a b → str_le b c → str_le a c.
Proof.
  unfold str_le. intros Hab Hbc Hac.
  destruct (lex_compare a b) eqn:Eab; [|clear Hab|done].
  - apply lex_compare_eq in Eab as ->. done.
  - destruct (lex_compare b c) eqn:Ebc; [|clear Hbc|done].
    + apply lex_compare_eq in Ebc as ->. by rewrite Eab in Hac.
    + by rewrite (lex_compare_lt_trans a b c) in Hac.
Qed.

Lemma str_le_antisym a b : str_le a b → str_le b a → a = b.
Proof.
  unfold str_le. rewrite (lex_compare_antisym a b). intros Hab Hba.
  apply lex_compare_eq. by destruct (lex_compare a b).
Qed.

Lemma str_leb_le a b : str_leb a b = true ↔ str_le a b.
Proof. unfold str_leb, str_le. by destruct (lex_compare a b). Qed.

Lemma str_leb_total a b : str_leb a b = false → str_le b a.
Proof.
  unfold str_leb, str_le. rewrite (lex_compare_antisym a b).
  by destruct (lex_compare a b).
Qed.

Lemma str_lt_le a b : str_lt a b → str_le a b.
Proof. unfold str_lt, str_le. by intros ->. Qed.

(** Texts of equal length compare first; the rest decides a tie. *)
Lemma lex_compare_app x x' y y' :
  length x = length x' →
  lex_compare (x ++ y) (x' ++ y')
  = match lex_compare x x' with Eq => lex_compare y y' | c => c end.
Proof.
  revert x'. induction x as [|a x IH]; intros [|a' x'] Hlen; simpl in *; try done.
  destruct (a ?= a'); [|done..]. apply IH. lia.
Qed.

Lemma length_digits w n : length (digits w n) = w.
Proof.
  revert n. induction w as [|w IH]; intros n; simpl; [done|].
  rewrite length_app, IH. simpl. lia.
Qed.

Lemma compare_div_mod n m :
  (n ?= m) = match n / 10 ?= m / 10 with Eq => n mod 10 ?= m mod 10 | c => c end.
Proof.
  pose proof (N.div_mod n 10 ltac:(done)) as Hn.
  pose proof (N.div_mod m 10 ltac:(done)) as Hm.
  pose proof (N.mod_lt n 10 ltac:(done)) as Hn'.
  pose proof (N.mod_lt m 10 ltac:(done)) as Hm'.
  destruct (N.compare_spec (n / 10) (m / 10)) as [Heq|Hlt|Hgt].
  - destruct (N.compare_spec (n mod 10) (m mod 10));
      [apply N.compare_eq_iff|apply N.compare_lt_iff|apply N.compare_gt_iff]; lia.
  - apply N.compare_lt_iff. revert Hn Hm Hn' Hm' Hlt.
    generalize (n / 10) (m / 10) (n mod 10) (m mod 10). intros. lia.
  - apply N.compare_gt_iff. revert Hn Hm Hn' Hm' Hgt.
    generalize (n / 10) (m / 10) (n mod 10) (m mod 10). intros. lia.
Qed.

Lemma compare_add_l k a b : (k + a ?= k + b) = (a ?= b).
Proof.
  destruct (N.compare_spec a b);
    [apply N.compare_eq_iff|apply N.compare_lt_iff|apply N.compare_gt_iff]; lia.
Qed.

(** Zero-padded numbers of one width compare as the numbers. *)
Lemma lex_compare_digits w n m :
  n < 10 ^ N.of_nat w → m < 10 ^ N.of_nat w →
  lex_compare (digits w n) (digits w m) = (n ?= m).
Proof.
  revert n m. induction w as [|w IH]; intros n m Hn Hm.
  - simpl in *. assert (n = 0) as -> by lia. by assert (m = 0) as -> by lia.
  - rewrite Nat2N.inj_succ, N.pow_succ_r' in Hn, Hm. simpl.
    rewrite lex_compare_app by (by rewrite !length_digits).
    rewrite IH by (apply N.Div0.div_lt_upper_bound; lia).
    simpl. rewrite compare_add_l, (compare_div_mod n m).
    destruct (n / 10 ?= m / 10); [|done..]. by destruct (n mod 10 ?= m mod 10).
Qed.

Lemma lex_compare_fraction a b :
  a < 1000000 → b < 1000000 →
  lex_compare (if a =? 0 then [] else u "." ++ digits 6 a)
              (if b =? 0 then [] else u "." ++ digits 6 b) = (a ?= b).
Proof.
  intros Ha Hb. destruct (N.eqb_spec a 0) as [->|Ha0], (N.eqb_spec b 0) as [->|Hb0].
  - done.
  - symmetry. apply N.compare_lt_iff. lia.
  - symmetry. apply N.compare_gt_iff. lia.
  - rewrite lex_compare_app by done. rewrite lex_compare_refl.
    by apply lex_compare_digits.
Qed.

(** [isoformat] keeps the order of valid datetimes. *)
Lemma lex_compare_isoformat a b :
  valid_datetime a → valid_datetime b →
  lex_compare (isoformat a) (isoformat b) = lex_compare (dt_fields a) (dt_fields b).
Proof.
  intros (Hy & Hmo & Hd & Hh & Hmi & Hs & Hus) (Hy' & Hmo' & Hd' & Hh' & Hmi' & Hs' & Hus').
  unfold isoformat, dt_fields.
  repeat (rewrite lex_compare_app by (by rewrite ?length_digits)).
  rewrite !lex_compare_refl.
  rewrite lex_compare_fraction by done.
  rewrite !lex_compare_digits by (cbn; lia).
  simpl. by repeat (match goal with |- context [?x ?= ?y] => destruct (x ?= y) end).
Qed.

Lemma isoformat_le a b :
  valid_datetime a → valid_datetime b →
  dt_le a b → str_le (isoformat a) (isoformat b).
Proof. intros Ha Hb. unfold dt_le, str_le. by rewrite lex_compare_isoformat. Qed.

Lemma isoformat_lt a b :
  valid_datetime a → valid_datetime b →
  dt_lt a b → str_lt (isoformat a) (isoformat b).
Proof. intros Ha Hb. unfold dt_lt, str_lt. by rewrite lex_compare_isoformat. Qed.

Example isoformat_example :
  isoformat {| year := 2024; month := 3; day := 9; hour := 7; minute := 5;
               second := 0; microsecond := 1250 |}
  = u "2024-03-09T07:05:00.001250".
Proof. vm_compute. reflexivity. Qed.

Example isoformat_whole_second :
  isoformat {| year := 2024; month := 3; day := 9; hour := 7; minute := 5;
               second := 0; microsecond := 0 |}
  = u "2024-03-09T07:05:00".
Proof. vm_compute. reflexivity. Qed.

(** ** The channel cache *)

Lemma lookup_cons cid r tbl :
  lookup_channel cid (r :: tbl)
  = if decide (c_id r = cid) then Some r else lookup_channel cid tbl.
Proof. unfold lookup_channel. rewrite filter_cons. by case_decide. Qed.

Lemma lookup_app cid a b :
  lookup_channel cid (a ++ b)
  = match lookup_channel cid a with Some r => Some r | None => lookup_channel cid b end.
Proof.
  induction a as [|r a IH]; [done|]. simpl. rewrite !lookup_cons. by case_decide.
Qed.

Lemma lookup_Some cid tbl r : lookup_channel cid tbl = Some r → In r tbl ∧ c_id r = cid.
Proof.
  induction tbl as [|x tbl IH]; [done|]. rewrite lookup_cons. case_decide.
  - intros [= ->]. split; [by left|done].
  - intros Hl. destruct (IH Hl). split; [by right|done].
Qed.

Lemma lookup_None cid tbl : lookup_channel cid tbl = None ↔ ¬ In cid (map c_id tbl).
Proof.
  induction tbl as [|x tbl IH]; [split; [by intros _ []|done]|].
  rewrite lookup_cons. simpl. case_decide.
  - split; [done|]. intros Hn. destruct Hn. by left.
  - rewrite IH. tauto.
Qed.

Lemma lookup_In cid tbl r :
  NoDup (map c_id tbl) → In r tbl → c_id r = cid → lookup_channel cid tbl = Some r.
Proof.
  induction tbl as [|x tbl IH]; simpl; [done|].
  intros [Hx Hnd]%NoDup_cons [->|Hin] Hid; rewrite lookup_cons.
  - by rewrite decide_True.
  - rewrite decide_False; [by apply IH|].
    intros Hxid. apply Hx. apply list_elem_of_In. rewrite Hxid, <- Hid. by apply in_map.
Qed.

Lemma select_id_lookup cid tbl : select_id cid tbl = c_id <$> lookup_channel cid tbl.
Proof.
  unfold select_id, lookup_channel. by destruct (filter _ tbl).
Qed.

Lemma sql_update_ids title thumb now cid tbl :
  map c_id (sql_update title thumb now cid tbl) = map c_id tbl.
Proof.
  unfold sql_update. rewrite map_map. apply map_ext. intros r.
  by destruct (str_eqb (c_id r) cid).
Qed.

Lemma lookup_sql_update title thumb now cid tbl cid' :
  lookup_channel cid' (sql_update title thumb now cid tbl)
  = if decide (cid' = cid) then updated title thumb now <$> lookup_channel cid tbl
    else lookup_channel cid' tbl.
Proof.
  unfold str_eqb. induction tbl as [|r tbl IH]; simpl.
  - by case_decide.
  - rewrite !lookup_cons, IH. unfold str_eqb. case_bool_decide as Hr; simpl.
    + case_decide as Hc.
      * subst. by rewrite !decide_True.
      * rewrite !decide_False; [done|congruence..].
    + case_decide as Hc.
      * subst. by rewrite !decide_False.
      * done.
Qed.

Lemma sql_insert_fresh r tbl :
  lookup_channel (c_id r) tbl = None → sql_insert r tbl = Ok (tbl ++ [r]).
Proof.
  intros Hl. unfold sql_insert.
  destruct (existsb _ tbl) eqn:E; [|done].
  apply existsb_exists in E as (x & Hx & Hid). unfold str_eqb in Hid.
  apply bool_decide_eq_true in Hid. apply lookup_None in Hl. destruct Hl.
  rewrite <- Hid. by apply in_map.
Qed.

(** The binding of the parameters. *)
Lemma bind_text_ok s : utf8_encodable s = true → bind_text s = Ok s.
Proof. unfold bind_text, encode_utf8. by intros ->. Qed.

Lemma bind_text_inv s s' : bind_text s = Ok s' → s' = s ∧ utf8_encodable s = true.
Proof. unfold bind_text, encode_utf8. destruct (utf8_encodable s); [by intros [= <-]|done]. Qed.

Lemma bind_parameter_null v : bind_parameter v = Ok None → v = JNull.
Proof.
  destruct v as [|b|s|n|l|f]; simpl; try done.
  - unfold bind_text, encode_utf8. by destruct (utf8_encodable s).
  - by destruct (_ && _).
Qed.

Lemma bind_parameter_str s t :
  bind_parameter (JStr s) = Ok t → t = Some s ∧ utf8_encodable s = true.
Proof.
  simpl. unfold bind_text, encode_utf8. destruct (utf8_encodable s); simpl; [|done].
  by intros [= <-].
Qed.

Lemma bind_parameter_text s : utf8_encodable s = true → bind_parameter (JStr s) = Ok (Some s).
Proof. intros Hs. simpl. by rewrite (bind_text_ok _ Hs). Qed.

Lemma bind_parameter_opt_str o t : bind_parameter (opt_str o) = Ok t → t = o.
Proof.
  destruct o as [s|]; [|by intros [= <-]].
  intros Hs. by destruct (bind_parameter_str _ _ Hs) as [-> _].
Qed.

Lemma can_bind_ok v : can_bind v = true → ∃ t, bind_parameter v = Ok t.
Proof. unfold can_bind. destruct (bind_parameter v) as [t|e]; [by exists t|done]. Qed.

Lemma bind_can_bind v t : bind_parameter v = Ok t → can_bind v = true.
Proof. unfold can_bind. by intros ->. Qed.

(** The exceptions of a binding. *)
Lemma bind_parameter_raise v e :
  bind_parameter v = Raise e →
  (∃ s, e = UnicodeEncodeError (u "utf-8") s) ∨ e = OverflowError ∨ e = ProgrammingError.
Proof.
  destruct v as [|b|s|n|l|f]; simpl; try done.
  - unfold bind_text, encode_utf8. destruct (utf8_encodable s); simpl; [done|].
    intros [= <-]. left. by exists s.
  - destruct (_ && _); [done|]. intros [= <-]. right. by left.
  - intros [= <-]. right. by right.
  - intros [= <-]. right. by right.
Qed.

(** The table after an upsert whose parameters were bound. *)
Lemma lookup_upserted now cid t th tbl cid' :
  lookup_channel cid' (upserted now cid t th tbl)
  = if decide (cid' = cid)
    then Some (match lookup_channel cid tbl with
               | Some r => updated t th now r
               | None => inserted cid t th now
               end)
    else lookup_channel cid' tbl.
Proof.
  unfold upserted. destruct (lookup_channel cid tbl) as [r|] eqn:E.
  - rewrite lookup_sql_update, E. done.
  - rewrite lookup_app. unfold lookup_channel at 2. simpl. rewrite filter_cons, filter_nil.
    simpl. case_decide as Hc.
    + subst. rewrite E. by rewrite decide_True.
    + rewrite decide_False by done. by destruct (lookup_channel cid' tbl).
Qed.

Lemma upserted_ids now cid t th tbl :
  ∃ new, map c_id (upserted now cid t th tbl) = map c_id tbl ++ new ∧
         (new = [] ∨ new = [cid]).
Proof.
  unfold upserted. destruct (lookup_channel cid tbl).
  - exists []. split; [by rewrite sql_update_ids, app_nil_r|by left].
  - exists [cid]. split; [by rewrite map_app|by right].
Qed.

(** What an upsert of a present id does when its parameters can be bound,
    and that an upsert that returns has bound its parameters. *)
Lemma upsert_channel_spec now cid title thumb t th tbl :
  cid ≠ [] → utf8_encodable cid = true →
  bind_parameter title = Ok t → bind_parameter thumb = Ok th →
  upsert_channel now (Some cid) title thumb tbl
  = Ok (upserted (isoformat now) cid t th tbl).
Proof.
  intros Hne Hcid Ht Hth. unfold upsert_channel, upserted.
  destruct cid as [|c cid]; [done|].
  rewrite (bind_text_ok _ Hcid). cbn [rbind]. rewrite select_id_lookup, Ht, Hth.
  cbn [rbind].
  destruct (lookup_channel (c :: cid) tbl) as [r|] eqn:E; simpl; [done|].
  by apply sql_insert_fresh.
Qed.

Lemma upsert_channel_inv now cid title thumb tbl tbl' :
  cid ≠ [] → upsert_channel now (Some cid) title thumb tbl = Ok tbl' →
  ∃ t th, utf8_encodable cid = true ∧
          bind_parameter title = Ok t ∧ bind_parameter thumb = Ok th ∧
          tbl' = upserted (isoformat now) cid t th tbl.
Proof.
  intros Hne Hup.
  assert (∃ t th, utf8_encodable cid = true ∧
                  bind_parameter title = Ok t ∧ bind_parameter thumb = Ok th)
    as (t & th & Hcid & Ht & Hth).
  { unfold upsert_channel in Hup. destruct cid as [|c cid]; [done|].
    destruct (bind_text (c :: cid)) as [cid'|] eqn:Eb; cbn [rbind] in Hup; [|done].
    apply bind_text_inv in Eb as [-> Hcid].
    destruct (bind_parameter title) as [t|] eqn:Et;
      [|by destruct (select_id _ _)].
    destruct (bind_parameter thumb) as [th|] eqn:Eth;
      [|by destruct (select_id _ _)].
    by exists t, th. }
  exists t, th. split; [done|]. split; [done|]. split; [done|].
  rewrite (upsert_channel_spec _ _ _ _ _ _ _ Hne Hcid Ht Hth) in Hup. by injection Hup.
Qed.

(** An upsert succeeds when its parameters can be bound, and only then;
    when it fails it has raised at a binding. *)
Lemma upsert_channel_bindable now ch_id title thumb tbl :
  bindable ch_id title thumb = true →
  ∃ tbl', upsert_channel now ch_id title thumb tbl = Ok tbl'.
Proof.
  destruct ch_id as [[|c cid]|]; try (by eexists).
  unfold bindable. intros [[Hcid Ht]%andb_true_iff Hth]%andb_true_iff.
  apply can_bind_ok in Ht as [t Ht]. apply can_bind_ok in Hth as [th Hth].
  rewrite (upsert_channel_spec _ _ _ _ t th) by done. by eexists.
Qed.

Lemma upsert_channel_ok_bindable now ch_id title thumb tbl tbl' :
  upsert_channel now ch_id title thumb tbl = Ok tbl' → bindable ch_id title thumb = true.
Proof.
  destruct ch_id as [[|c cid]|]; try done. intros Hup.
  apply upsert_channel_inv in Hup as (t & th & Hcid & Ht & Hth & _); [|done].
  unfold bindable. by rewrite Hcid, (bind_can_bind _ _ Ht), (bind_can_bind _ _ Hth).
Qed.

(** An upsert that raises raises the error of the first parameter that
    cannot be bound: the id, then the title, then the thumbnail. *)
Lemma upsert_channel_raise_first now ch_id title thumb tbl e :
  upsert_channel now ch_id title thumb tbl = Raise e →
  ∃ cid, ch_id = Some cid ∧
    match bind_text cid with
    | Raise e0 => e = e0
    | Ok _ =>
        match bind_parameter title with
        | Raise e1 => e = e1
        | Ok _ => bind_parameter thumb = Raise e
        end
    end.
Proof.
  intros Hup. destruct ch_id as [[|c cid]|]; try done. exists (c :: cid).
  split; [done|]. unfold upsert_channel in Hup.
  destruct (bind_text (c :: cid)) as [cid'|e0] eqn:Hcid; cbn [rbind] in Hup;
    [|congruence].
  apply bind_text_inv in Hcid as [-> _]. rewrite select_id_lookup in Hup.
  destruct (bind_parameter title) as [t|e1] eqn:Et.
  - destruct (bind_parameter thumb) as [th|e2] eqn:Eth.
    + destruct (lookup_channel (c :: cid) tbl) as [r|] eqn:El; cbn in Hup; [done|].
      rewrite sql_insert_fresh in Hup by done. done.
    + destruct (lookup_channel (c :: cid) tbl); cbn in Hup; congruence.
  - destruct (lookup_channel (c :: cid) tbl); cbn in Hup; congruence.
Qed.

Lemma upsert_channel_raise now ch_id title thumb tbl e :
  upsert_channel now ch_id title thumb tbl = Raise e →
  bindable ch_id title thumb = false ∧
  ((∃ s, e = UnicodeEncodeError (u "utf-8") s) ∨ e = OverflowError ∨ e = ProgrammingError).
Proof.
  intros Hup. split.
  - destruct (bindable ch_id title thumb) eqn:E; [|done].
    destruct (upsert_channel_bindable now _ _ _ tbl E) as [tbl' Htbl']. congruence.
  - destruct (upsert_channel_raise_first _ _ _ _ _ _ Hup) as (cid & _ & Hfirst).
    destruct (bind_text cid) as [cid'|e0] eqn:Hcid.
    + destruct (bind_parameter title) as [t|e1] eqn:Et.
      * by eapply bind_parameter_raise.
      * subst e1. by eapply bind_parameter_raise.
    + subst e0. apply (bind_parameter_raise (JStr cid)). simpl. by rewrite Hcid.
Qed.

Lemma lookup_upsert now cid title thumb tbl tbl' :
  cid ≠ [] → upsert_channel now (Some cid) title thumb tbl = Ok tbl' →
  ∃ t th, bind_parameter title = Ok t ∧ bind_parameter thumb = Ok th ∧
    ∀ cid', lookup_channel cid' tbl'
            = if decide (cid' = cid)
              then Some (match lookup_channel cid tbl with
                         | Some r => updated t th (isoformat now) r
                         | None => inserted cid t th (isoformat now)
                         end)
              else lookup_channel cid' tbl.
Proof.
  intros Hne Hup.
  destruct (upsert_channel_inv _ _ _ _ _ _ Hne Hup) as (t & th & _ & Ht & Hth & ->).
  exists t, th. split; [done|]. split; [done|]. intros cid'. apply lookup_upserted.
Qed.


(** A sequence of upserts whose parameters can be bound does not fail. *)
Lemma upserts_bindable calls tbl :
  Forall bindable_call calls → ∃ tbl', upserts calls tbl = Ok tbl'.
Proof.
  intros Hall. revert tbl. induction Hall as [|c calls Hc _ IH]; intros tbl; simpl.
  - by eexists.
  - destruct (upsert_channel_bindable (u_now c) _ _ _ tbl Hc) as [tbl1 ->]. apply IH.
Qed.

(** The ids of a reachable table are not empty, and they are text that
    UTF-8 encodes. *)
Lemma upsert_ids_bound now ch_id title thumb tbl tbl' :
  Forall (λ r, c_id r ≠ [] ∧ utf8_encodable (c_id r) = true) tbl →
  upsert_channel now ch_id title thumb tbl = Ok tbl' →
  Forall (λ r, c_id r ≠ [] ∧ utf8_encodable (c_id r) = true) tbl'.
Proof.
  intros Hall. destruct ch_id as [[|c cid]|]; try (by intros [= <-]).
  intros Hup. apply upsert_channel_inv in Hup as (t & th & Hcid & _ & _ & ->); [|done].
  unfold upserted. destruct (lookup_channel _ tbl).
  - unfold sql_update. rewrite List.Forall_map. eapply Forall_impl; [done|].
    intros x Hx. by destruct (str_eqb _ _).
  - apply Forall_app. split; [done|]. by repeat constructor.
Qed.

Lemma upserts_ids_bound calls tbl tbl' :
  Forall (λ r, c_id r ≠ [] ∧ utf8_encodable (c_id r) = true) tbl →
  upserts calls tbl = Ok tbl' →
  Forall (λ r, c_id r ≠ [] ∧ utf8_encodable (c_id r) = true) tbl'.
Proof.
  revert tbl. induction calls as [|c calls IH]; intros tbl Hall; simpl.
  - by intros [= <-].
  - destruct (upsert_channel _ _ _ _ tbl) as [tbl1|] eqn:E; simpl; [|done].
    apply IH. by eapply upsert_ids_bound.
Qed.

(** C4 (amended): on a table the system has built, an upsert of the id of
    an existing record whose title and thumbnail can be bound succeeds; it
    keeps the stored title when the new title is null and the stored
    thumbnail when the new thumbnail is null, stores a title or thumbnail
    that is not null -- a text as it is, a number as its decimal text --
    and sets [last_used_at] to the time of the upsert. *)
Theorem upsert_existing_coalesce now cid title thumb t th tbl r :
  reachable tbl → lookup_channel cid tbl = Some r →
  bind_parameter title = Ok t → bind_parameter thumb = Ok th →
  ∃ tbl' r',
    upsert_channel now (Some cid) title thumb tbl = Ok tbl' ∧
    lookup_channel cid tbl' = Some r' ∧
    (title = JNull → c_title r' = c_title r) ∧
    (thumb = JNull → c_thumbnail r' = c_thumbnail r) ∧
    (∀ s, title = JStr s → c_title r' = Some s) ∧
    (∀ s, thumb = JStr s → c_thumbnail r' = Some s) ∧
    (title ≠ JNull → c_title r' = t ∧ t ≠ None) ∧
    (thumb ≠ JNull → c_thumbnail r' = th ∧ th ≠ None) ∧
    c_id r' = cid ∧ c_saved_at r' = c_saved_at r ∧
    c_last_used_at r' = isoformat now.
Proof.
  intros [calls Hcalls] Hr Ht Hth.
  assert (cid ≠ [] ∧ utf8_encodable cid = true) as [Hne Hcid].
  { apply (upserts_ids_bound calls [] tbl) in Hcalls; [|done].
    destruct (lookup_Some _ _ _ Hr) as [Hin <-].
    rewrite List.Forall_forall in Hcalls. by apply Hcalls. }
  exists (upserted (isoformat now) cid t th tbl), (updated t th (isoformat now) r).
  split; [by apply upsert_channel_spec|]. split.
  - by rewrite lookup_upserted, Hr, decide_True.
  - assert (∀ v x, bind_parameter v = Ok x → v ≠ JNull → x ≠ None) as Hnn.
    { intros v x Hv Hnull ->. by apply Hnull, bind_parameter_null. }
    destruct (lookup_Some _ _ _ Hr) as [_ Hid].
    simpl. repeat match goal with |- _ ∧ _ => split end; try done.
    + intros ->. by injection Ht as <-.
    + intros ->. by injection Hth as <-.
    + intros s ->. by destruct (bind_parameter_str _ _ Ht) as [-> _].
    + intros s ->. by destruct (bind_parameter_str _ _ Hth) as [-> _].
    + intros Hnull. specialize (Hnn _ _ Ht Hnull). split; [|done]. by destruct t.
    + intros Hnull. specialize (Hnn _ _ Hth Hnull). split; [|done]. by destruct th.
Qed.








(** ** The listing *)

Lemma insert_desc_perm r l : Permutation (insert_desc r l) (r :: l).
Proof.
  induction l as [|x l IH]; simpl; [done|].
  destruct (str_leb _ _); [done|].
  rewrite IH. apply perm_swap.
Qed.

Lemma order_by_perm tbl : Permutation (order_by_last_used_desc tbl) tbl.
Proof.
  induction tbl as [|r tbl IH]; simpl; [done|].
  rewrite insert_desc_perm. by constructor.
Qed.

Lemma insert_desc_sorted r l :
  StronglySorted listed_before l → StronglySorted listed_before (insert_desc r l).
Proof.
  induction 1 as [|x l Hs IH Hall]; simpl.
  - repeat constructor.
  - destruct (str_leb (c_last_used_at x) (c_last_used_at r)) eqn:E.
    + apply str_leb_le in E. constructor; [by constructor|].
      constructor; [done|]. eapply Forall_impl; [done|].
      intros y Hy. unfold listed_before in *. by eapply str_le_trans.
    + apply str_leb_total in E. constructor; [done|].
      eapply Permutation_Forall; [symmetry; apply insert_desc_perm|].
      by constructor.
Qed.

Lemma order_by_sorted tbl : StronglySorted listed_before (order_by_last_used_desc tbl).
Proof.
  induction tbl as [|r tbl IH]; simpl; [constructor|]. by apply insert_desc_sorted.
Qed.

Lemma sorted_entries l :
  StronglySorted listed_before l → StronglySorted entry_before (map entry_of_row l).
Proof.
  induction 1 as [|x l Hs IH Hall]; simpl; constructor; [done|].
  rewrite List.Forall_map. eapply Forall_impl; [done|]. by intros y Hy.
Qed.

(** Two sorted arrangements of rows with distinct keys are the same. *)
Lemma sorted_perm_unique (l1 l2 : list row) :
  StronglySorted listed_before l1 → StronglySorted listed_before l2 →
  Permutation l1 l2 →
  (∀ x y, In x l1 → In y l1 → c_last_used_at x = c_last_used_at y → x = y) →
  l1 = l2.
Proof.
  intros Hs1. revert l2. induction Hs1 as [|x l1 Hs1 IH Hall1]; intros l2 Hs2 Hp Hinj.
  - by apply Permutation_nil in Hp.
  - destruct Hs2 as [|y l2 Hs2 Hall2]; [by apply Permutation_sym, Permutation_nil in Hp|].
    assert (x = y) as <-.
    { assert (In x (y :: l2)) as Hx by (eapply Permutation_in; [done|by left]).
      assert (In y (x :: l1)) as Hy
        by (eapply Permutation_in; [by symmetry|by left]).
      destruct Hx as [->|Hx]; [done|]. destruct Hy as [->|Hy]; [done|].
      rewrite List.Forall_forall in Hall1, Hall2.
      apply Hinj; [by left|by right|].
      apply str_le_antisym; [apply (Hall2 x Hx)|apply (Hall1 y Hy)]. }
    f_equal. apply IH; [done|by eapply Permutation_cons_inv|].
    intros a b Ha Hb. apply Hinj; by right.
Qed.

Lemma entries_of_rows (l : list row) :
  Forall2 (λ r e, channel_id e = c_id r ∧ channel_title e = c_title r ∧
                  thumbnail e = c_thumbnail r ∧ saved_at e = c_saved_at r ∧
                  last_used_at e = c_last_used_at r) l (map entry_of_row l).
Proof. induction l as [|r l IH]; simpl; constructor; [done|apply IH]. Qed.

(** C6: the listing holds every record once -- its entries are the records
    of the table in some order, each with its id, title, thumbnail,
    [saved_at] and [last_used_at] under the names of the query -- ordered
    by [last_used_at] descending; records last touched at times
    [t1 < t2 < t3] are listed in the order [t3], [t2], [t1]. *)
Theorem list_channels_ordered (tbl : table) :
  (∃ rows, Permutation rows tbl ∧
     Forall2 (λ r e, channel_id e = c_id r ∧ channel_title e = c_title r ∧
                     thumbnail e = c_thumbnail r ∧ saved_at e = c_saved_at r ∧
                     last_used_at e = c_last_used_at r) rows (list_channels tbl)) ∧
  StronglySorted entry_before (list_channels tbl) ∧
  ∀ r1 r2 r3 t1 t2 t3,
    Permutation tbl [r1; r2; r3] →
    valid_datetime t1 → valid_datetime t2 → valid_datetime t3 →
    c_last_used_at r1 = isoformat t1 → c_last_used_at r2 = isoformat t2 →
    c_last_used_at r3 = isoformat t3 →
    dt_lt t1 t2 → dt_lt t2 t3 →
    list_channels tbl
    = [ {| channel_id := c_id r3; channel_title := c_title r3;
           thumbnail := c_thumbnail r3; saved_at := c_saved_at r3;
           last_used_at := c_last_used_at r3 |};
        {| channel_id := c_id r2; channel_title := c_title r2;
           thumbnail := c_thumbnail r2; saved_at := c_saved_at r2;
           last_used_at := c_last_used_at r2 |};
        {| channel_id := c_id r1; channel_title := c_title r1;
           thumbnail := c_thumbnail r1; saved_at := c_saved_at r1;
           last_used_at := c_last_used_at r1 |} ].
Proof.
  split; [|split].
  - exists (order_by_last_used_desc tbl). split; [apply order_by_perm|].
    apply entries_of_rows.
  - apply sorted_entries, order_by_sorted.
  - intros r1 r2 r3 t1 t2 t3 Hp Hv1 Hv2 Hv3 H1 H2 H3 H12 H23.
    unfold list_channels.
    change [_; _; _] with (map entry_of_row [r3; r2; r1]). f_equal.
    pose proof (isoformat_lt _ _ Hv1 Hv2 H12) as L12.
    pose proof (isoformat_lt _ _ Hv2 Hv3 H23) as L23.
    pose proof (lex_compare_lt_trans _ _ _ L12 L23) as L13.
    rewrite <- H1, <- H2 in L12. rewrite <- H2, <- H3 in L23. rewrite <- H1, <- H3 in L13.
    unfold str_lt in *.
    symmetry. apply sorted_perm_unique.
    + unfold listed_before. repeat constructor; by apply str_lt_le.
    + apply order_by_sorted.
    + rewrite order_by_perm, Hp.
      etrans; [apply perm_swap|]. etrans; [apply perm_skip, perm_swap|].
      apply perm_swap.
    + assert (∀ a b, lex_compare (c_last_used_at a) (c_last_used_at b) = Lt →
                     c_last_used_at a = c_last_used_at b → False) as Hne.
      { intros a b Hlt Heq. rewrite Heq, lex_compare_refl in Hlt. done. }
      intros x y [<-|[<-|[<-|[]]]] [<-|[<-|[<-|[]]]] Heq; try done; exfalso;
        first [ by apply (Hne _ _ L12) | by apply (Hne _ _ L23) | by apply (Hne _ _ L13)
              | symmetry in Heq;
                first [ by apply (Hne _ _ L12) | by apply (Hne _ _ L23)
                      | by apply (Hne _ _ L13) ] ].
Qed.

(** ** The streaming generator *)

Lemma chunk_positive : (0 < N.to_nat CHUNK)%nat.
Proof. unfold CHUNK. lia. Qed.

(** The size is never evaluated in unary. *)
Opaque CHUNK.

Lemma take_drop_length {A} n (l : list A) : take n l ++ drop (length (take n l)) l = l.
Proof.
  rewrite length_take. destruct (decide (n ≤ length l)%nat).
  - rewrite Nat.min_l by done. apply take_drop.
  - rewrite Nat.min_r by lia. rewrite take_ge, drop_all by lia. apply app_nil_r.
Qed.

Lemma stream_loop_yield path data pos files :
  (pos < length data)%nat →
  ∃ chunk,
    chunk = take (N.to_nat CHUNK) (drop pos data) ∧ chunk ≠ [] ∧
    stream_loop path {| h_data := data; h_pos := pos |} files
    = (Yield chunk, GenSuspended {| h_data := data; h_pos := pos + length chunk |}, files).
Proof.
  intros Hpos. pose proof chunk_positive as HC.
  unfold stream_loop, file_read. cbn [h_data h_pos].
  destruct (take (N.to_nat CHUNK) (drop pos data)) as [|b chunk] eqn:E.
  - apply (f_equal length) in E. rewrite length_take, length_drop in E. cbn [length] in E. lia.
  - exists (b :: chunk). split; [done|]. split; [done|]. reflexivity.
Qed.

Lemma stream_loop_stop path data pos files :
  (length data ≤ pos)%nat → is_Some (files !! path) →
  stream_loop path {| h_data := data; h_pos := pos |} files
  = (StopIteration, GenClosed, delete path files).
Proof.
  intros Hpos [d Hd]. unfold stream_loop, file_read, os_remove. cbn [h_data h_pos].
  rewrite drop_ge by done. rewrite take_nil. by rewrite Hd.
Qed.

(** A caller that reads to the end gets the bytes of the file, and the
    file is removed. *)
Lemma drain_suspended path data files n :
  is_Some (files !! path) →
  ∀ pos fuel, (length data - pos ≤ n)%nat → (n < fuel)%nat →
  ∃ chunks,
    drain fuel path (GenSuspended {| h_data := data; h_pos := pos |}) files
    = Some (chunks, StopIteration, delete path files) ∧
    concat chunks = drop pos data.
Proof.
  intros Hfile. induction n as [|n IH]; intros pos fuel Hrem Hfuel;
    (destruct fuel as [|fuel]; [lia|]); simpl.
  - rewrite stream_loop_stop by (done || lia). exists []. split; [done|].
    simpl. by rewrite drop_ge by lia.
  - destruct (decide (pos < length data)%nat) as [Hlt|Hge].
    + destruct (stream_loop_yield path data pos files Hlt) as (chunk & Hc & Hne & ->).
      assert (0 < length chunk)%nat by (destruct chunk; simpl; [done|lia]).
      destruct (IH (pos + length chunk)%nat fuel) as (chunks & -> & Hcat); [lia..|].
      exists (chunk :: chunks). split; [done|]. simpl. rewrite Hcat.
      rewrite <- drop_drop. rewrite Hc. apply take_drop_length.
    + rewrite stream_loop_stop by (done || lia). exists []. split; [done|].
      simpl. by rewrite drop_ge by lia.
Qed.

Lemma drain_removes_file path data files fuel :
  files !! path = Some data → (length data < fuel)%nat →
  ∃ chunks,
    drain fuel path GenCreated files = Some (chunks, StopIteration, delete path files) ∧
    concat chunks = data ∧ delete path files !! path = None.
Proof.
  intros Hfile Hfuel.
  destruct (drain_suspended path data files (length data) (mk_is_Some _ _ Hfile)
              0%nat fuel) as (chunks & Hd & Hcat); [lia..|].
  exists chunks. split; [|split; [done|apply lookup_delete_eq]].
  destruct fuel as [|fuel]; [lia|]. simpl in *. by rewrite Hfile.
Qed.

(** A caller that goes away after [k] chunks, before the end of the file,
    leaves the files as they were. *)
Lemma read_then_close_suspended path data files k :
  ∀ pos, (pos + k * N.to_nat CHUNK < length data + N.to_nat CHUNK)%nat →
  ∃ chunks,
    read_then_close k path (GenSuspended {| h_data := data; h_pos := pos |}) files
    = (chunks, GenClosed, files) ∧
    concat chunks = take (k * N.to_nat CHUNK) (drop pos data).
Proof.
  induction k as [|k IH]; intros pos Hk.
  - exists []. split; [done|]. by rewrite take_0.
  - cbn [read_then_close gen_next].
    destruct (stream_loop_yield path data pos files) as (chunk & Hc & Hne & ->); [lia|].
    destruct k as [|k].
    + exists [chunk]. split; [done|]. cbn [concat].
      by rewrite app_nil_r, Hc, Nat.mul_1_l.
    + assert (length chunk = N.to_nat CHUNK) as Hlen.
      { rewrite Hc, length_take, length_drop. lia. }
      destruct (IH (pos + length chunk)%nat) as (chunks & -> & Hcat); [lia|].
      exists (chunk :: chunks). split; [done|].
      cbn [concat]. rewrite Hcat, Hlen, <- drop_drop, Hc.
      replace (S (S k) * N.to_nat CHUNK)%nat
        with (N.to_nat CHUNK + S k * N.to_nat CHUNK)%nat by lia.
      apply take_take_drop.
Qed.

Lemma read_then_close_keeps_file path data files k :
  files !! path = Some data → (1 ≤ k)%nat →
  (k * N.to_nat CHUNK < length data + N.to_nat CHUNK)%nat →
  ∃ chunks,
    read_then_close k path GenCreated files = (chunks, GenClosed, files) ∧
    concat chunks = take (k * N.to_nat CHUNK) data.
Proof.
  intros Hfile Hk Hlen.
  destruct (read_then_close_suspended path data files k 0%nat) as (chunks & Hr & Hcat);
    [lia|].
  exists chunks. split; [|done]. rewrite <- Hr.
  destruct k as [|k]; [lia|]. cbn [read_then_close gen_next]. by rewrite Hfile.
Qed.

Lemma first_chunk_then_close path data files :
  files !! path = Some data → (0 < length data)%nat →
  read_then_close 1 path GenCreated files
  = ([take (N.to_nat CHUNK) data], GenClosed, files).
Proof.
  intros Hfile Hlen. cbn [read_then_close gen_next]. rewrite Hfile.
  destruct (stream_loop_yield path data 0 files) as (chunk & Hc & Hne & ->); [lia|].
  cbn [gen_close]. by rewrite Hc, drop_0.
Qed.

(** C1 (the code departs from the specification): a file of one chunk and one byte
    more is streamed; the caller reads the first chunk and goes away, and
    the generator is closed at its [yield].  The first chunk was sent, the
    generator is finished, and the file is still there. *)
Theorem stream_closed_early_leaks :
  let path := u "downloads/3f2a.mp4" in
  let data := replicate (N.to_nat CHUNK + 1) Byte.x00 in
  let files : fs := {[ path := data ]} in
  ∃ chunk files',
    read_then_close 1 path GenCreated files = ([chunk], GenClosed, files') ∧
    length chunk = N.to_nat CHUNK ∧
    files' !! path = Some data.
Proof.
  intros path data files.
  assert (files !! path = Some data) as Hfile by apply lookup_singleton_eq.
  assert (length data = (N.to_nat CHUNK + 1)%nat) as Hlen by apply length_replicate.
  clearbody files data path.
  exists (take (N.to_nat CHUNK) data), files.
  split; [|split; [rewrite length_take; lia|done]].
  apply first_chunk_then_close; [done|lia].
Qed.

(** ** The download pipeline *)

Lemma utf8_encodable_app a b :
  utf8_encodable (a ++ b) = utf8_encodable a && utf8_encodable b.
Proof. apply forallb_app. Qed.

(** The escapes of the JSON text are ASCII: the text of a string can be
    written as UTF-8 exactly when the string can. *)
Lemma utf8_encodable_escape c : utf8_encodable (json_escape c) = negb (is_surrogate c).
Proof.
  unfold json_escape.
  destruct (N.eqb_spec c 34) as [->|_]; [reflexivity|].
  destruct (N.eqb_spec c 92) as [->|_]; [reflexivity|].
  destruct (N.eqb_spec c 8) as [->|_]; [reflexivity|].
  destruct (N.eqb_spec c 12) as [->|_]; [reflexivity|].
  destruct (N.eqb_spec c 10) as [->|_]; [reflexivity|].
  destruct (N.eqb_spec c 13) as [->|_]; [reflexivity|].
  destruct (N.eqb_spec c 9) as [->|_]; [reflexivity|].
  destruct (N.ltb_spec c 32) as [Hc|_]; [|cbn; apply andb_true_r].
  assert (c / 16 < 2) by (apply N.Div0.div_lt_upper_bound; lia).
  assert (c mod 16 < 16) by (apply N.mod_lt; lia).
  assert (∀ n, n < 16 → is_surrogate (hex_digit n) = false) as Hhex.
  { intros n Hn. unfold hex_digit, is_surrogate.
    destruct (n <? 10); apply andb_false_iff; left; apply N.leb_gt; lia. }
  cbn. rewrite !Hhex by lia. cbn.
  symmetry. apply negb_true_iff, andb_false_iff. left. apply N.leb_gt. lia.
Qed.

Lemma utf8_encodable_json_string s : utf8_encodable (json_string s) = utf8_encodable s.
Proof.
  unfold json_string. rewrite !utf8_encodable_app. cbn [utf8_encodable forallb].
  assert (negb (is_surrogate 34) = true) as -> by reflexivity.
  cbn [andb]. rewrite andb_true_r.
  induction s as [|c s IH]; [done|]. cbn [flat_map].
  rewrite utf8_encodable_app, utf8_encodable_escape, IH. reflexivity.
Qed.

(** The report of a failure is rendered when its message can be written as
    UTF-8, and only then. *)
Lemma error_response msg :
  new_json_response (JObj [(u "error", JStr msg)]) 500
  = if utf8_encodable msg
    then Ok (JSONResponse (JObj [(u "error", JStr msg)]) 500)
    else Raise (UnicodeEncodeError (u "utf-8")
                  (json_dumps (JObj [(u "error", JStr msg)]))).
Proof.
  unfold new_json_response, encode_utf8.
  assert (utf8_encodable (json_dumps (JObj [(u "error", JStr msg)]))
          = utf8_encodable msg) as ->.
  { cbn [json_dumps map join]. rewrite !utf8_encodable_app, !utf8_encodable_json_string.
    assert (utf8_encodable (u "error") = true) as -> by reflexivity.
    cbn. by rewrite andb_true_r. }
  by destruct (utf8_encodable msg).
Qed.

Lemma latin1_encodable_app a b :
  latin1_encodable (a ++ b) = latin1_encodable a && latin1_encodable b.
Proof. apply forallb_app. Qed.

(** The response of a download is built when the file name can be written
    as Latin-1, and only then. *)
Lemma streaming_response_header path name :
  new_streaming_response path (u "video/mp4")
    [(u "Content-Disposition", u "attachment; filename=" ++ name)]
  = if latin1_encodable name
    then Ok (StreamingResponse path GenCreated (u "video/mp4")
               [(u "Content-Disposition", u "attachment; filename=" ++ name)])
    else Raise (UnicodeEncodeError (u "latin-1") (u "attachment; filename=" ++ name)).
Proof.
  unfold new_streaming_response, encode_headers, encode_latin1.
  rewrite latin1_encodable_app.
  assert (latin1_encodable (u "Content-Disposition") = true) as -> by reflexivity.
  assert (latin1_encodable (u "attachment; filename=") = true) as -> by reflexivity.
  assert (latin1_encodable (u "video/mp4") = true) as -> by reflexivity.
  cbn [andb rbind]. by destruct (latin1_encodable name).
Qed.

Section DownloadFacts.
Context `{Unicode}.
Variable ydl_extract_info : str → result video_info.
Variable ydl_download : str → str → fs → result str * fs.
Variable exn_message : exn → str.
Variable DOWNLOADS_DIR : str.

Local Abbreviation handle_download :=
  (download ydl_extract_info ydl_download exn_message DOWNLOADS_DIR).

(** The pipeline, step by step. *)
Lemma download_steps now unique_id url url' w :
  clean_youtube_url url = Ok url' →
  handle_download now unique_id url w
  = let '(title, w1) := after_metadata ydl_extract_info now url' w in
    let '(r, files') :=
      ydl_download url' (path_join DOWNLOADS_DIR unique_id ++ u ".%(ext)s") (files w1) in
    let w2 := {| db := db w1; files := files'; calls := calls w1 |} in
    match r with
    | Ok reported =>
        match new_streaming_response (resolve_final_path reported files') (u "video/mp4")
                [(u "Content-Disposition",
                  u "attachment; filename=" ++ filename_safe title)] with
        | Ok resp => (Ok resp, w2)
        | Raise e =>
            (new_json_response (JObj [(u "error", JStr (exn_message e))]) 500, w2)
        end
    | Raise e => (new_json_response (JObj [(u "error", JStr (exn_message e))]) 500, w2)
    end.
Proof.
  intros Hurl.
  cbv beta iota zeta delta
    [download try_except bind lift ret extract_info do_upsert do_download do_exists
     after_metadata resolve_final_path].
  rewrite Hurl.
  destruct (ydl_extract_info url') as [info|e];
    cbn [db files calls v_channel_id v_uploader v_thumbnail v_title fst snd].
  - destruct (upsert_channel now _ _ _ _) as [tbl|e];
      cbn [db files calls];
      (destruct (ydl_download url' _ _) as [[reported|e0] files']; [|done]);
      cbn [db files calls];
      (destruct (negb _); [destruct (path_exists _ _)|]);
      by destruct (new_streaming_response _ _ _).
  - destruct (ydl_download url' _ _) as [[reported|e0] files']; [|done].
    cbn [db files calls].
    (destruct (negb _); [destruct (path_exists _ _)|]);
      by destruct (new_streaming_response _ _ _).
Qed.

Lemma after_metadata_raise now url w e :
  ydl_extract_info url = Raise e → after_metadata ydl_extract_info now url w = (u "video", w).
Proof. unfold after_metadata. by intros ->. Qed.

Lemma after_metadata_ok now url w info :
  ydl_extract_info url = Ok info →
  bindable (v_channel_id info) (opt_str (v_uploader info)) (opt_str (v_thumbnail info))
  = true →
  ∃ tbl,
    upsert_channel now (v_channel_id info) (opt_str (v_uploader info))
      (opt_str (v_thumbnail info)) (db w) = Ok tbl ∧
    after_metadata ydl_extract_info now url w
    = (title_for_name (v_title info),
       {| db := tbl; files := files w; calls := calls w |}).
Proof.
  unfold after_metadata. intros -> Hbind.
  destruct (upsert_channel_bindable now _ _ _ (db w) Hbind) as [tbl Htbl].
  exists tbl. by rewrite Htbl.
Qed.

Lemma after_metadata_unbindable now url w info :
  ydl_extract_info url = Ok info →
  bindable (v_channel_id info) (opt_str (v_uploader info)) (opt_str (v_thumbnail info))
  = false →
  after_metadata ydl_extract_info now url w = (u "video", w).
Proof.
  unfold after_metadata. intros -> Hbind.
  destruct (upsert_channel now _ _ _ (db w)) as [tbl|e] eqn:E; [|done].
  apply upsert_channel_ok_bindable in E. congruence.
Qed.

Lemma after_metadata_world now url w :
  files (after_metadata ydl_extract_info now url w).2 = files w ∧
  calls (after_metadata ydl_extract_info now url w).2 = calls w.
Proof.
  unfold after_metadata. destruct (ydl_extract_info url); [|done].
  by destruct (upsert_channel _ _ _ _ _).
Qed.

Lemma filename_safe_video : filename_safe (u "video") = u "video.mp4".
Proof. vm_compute. reflexivity. Qed.

(** C7: when the metadata fetch fails, the failure does not reach the
    response: the channel table is as it was, no channel is upserted, and
    the response is that of the materialization alone -- the stream of the
    downloaded file under the name [video.mp4] when it succeeds, the report
    [{"error": str(e')}] of its failure, with status 500, when it fails
    with a message that can be written as UTF-8 (otherwise the rendering of
    the report raises). *)
Theorem metadata_failure_swallowed now unique_id url url' e w :
  clean_youtube_url url = Ok url' → ydl_extract_info url' = Raise e →
  let '(r, w') := handle_download now unique_id url w in
  db w' = db w ∧ calls w' = calls w ∧
  match ydl_download url' (path_join DOWNLOADS_DIR unique_id ++ u ".%(ext)s")
          (files w) with
  | (Ok reported, files') =>
      r = Ok (StreamingResponse (resolve_final_path reported files') GenCreated
                (u "video/mp4")
                [(u "Content-Disposition", u "attachment; filename=video.mp4")]) ∧
      files w' = files'
  | (Raise e', files') =>
      let body := JObj [(u "error", JStr (exn_message e'))] in
      r = (if utf8_encodable (exn_message e') then Ok (JSONResponse body 500)
           else Raise (UnicodeEncodeError (u "utf-8") (json_dumps body))) ∧
      files w' = files'
  end.
Proof.
  intros Hurl Hinfo. rewrite (download_steps _ _ _ _ _ Hurl).
  rewrite (after_metadata_raise _ _ _ _ Hinfo).
  destruct (ydl_download url' _ (files w)) as [[reported|e'] files'].
  - rewrite streaming_response_header, filename_safe_video. by cbn.
  - cbv zeta. by rewrite error_response.
Qed.

Lemma filename_safe_display title :
  filename_safe (title_for_name title) = display_name title ++ u ".mp4".
Proof.
  unfold filename_safe, display_name, title_for_name, re_sub_class, replace_char.
  f_equal.
  assert (match title with Some (c :: t) => c :: t | _ => u "video" end
          = match title with
            | Some t => if bool_decide (t = []) then u "video" else t
            | None => u "video"
            end) as -> by (by destruct title as [[|c t]|]).
  generalize (take 100 (map (λ c, if c =? 10 then 32 else c)
                (strip match title with
                       | Some t => if bool_decide (t = []) then u "video" else t
                       | None => u "video"
                       end))).
  intros l. induction l as [|c l IH]; [done|]. cbn [flat_map map].
  rewrite IH. unfold kept_in_filename. by destruct (is_word c || _ || _ || _).
Qed.

Lemma display_name_kept title :
  Forall (λ c, kept_in_filename c = true) (display_name title).
Proof.
  unfold display_name. apply List.Forall_map. apply List.Forall_forall. intros c _.
  destruct (kept_in_filename c) eqn:E; [done|]. reflexivity.
Qed.

Lemma display_name_length title : (length (display_name title) ≤ 100)%nat.
Proof. unfold display_name. rewrite length_map, length_take. lia. Qed.

Lemma filename_safe_latin1 title :
  latin1_encodable (filename_safe (title_for_name title))
  = latin1_encodable (display_name title).
Proof.
  rewrite filename_safe_display, latin1_encodable_app.
  assert (latin1_encodable (u ".mp4") = true) as -> by reflexivity.
  apply andb_true_r.
Qed.

(** The response of a download whose materialization succeeded. *)
Lemma download_materialized now unique_id url url' reported files' w :
  clean_youtube_url url = Ok url' →
  ydl_download url' (path_join DOWNLOADS_DIR unique_id ++ u ".%(ext)s") (files w)
  = (Ok reported, files') →
  handle_download now unique_id url w
  = let '(title, w1) := after_metadata ydl_extract_info now url' w in
    let w2 := {| db := db w1; files := files'; calls := calls w1 |} in
    if latin1_encodable (filename_safe title)
    then (Ok (StreamingResponse (resolve_final_path reported files') GenCreated
                (u "video/mp4")
                [(u "Content-Disposition",
                  u "attachment; filename=" ++ filename_safe title)]), w2)
    else (new_json_response
            (JObj [(u "error",
                    JStr (exn_message
                            (UnicodeEncodeError (u "latin-1")
                               (u "attachment; filename=" ++ filename_safe title))))])
            500, w2).
Proof.
  intros Hurl Hdl. rewrite (download_steps _ _ _ _ _ Hurl).
  destruct (after_metadata_world now url' w) as [Hfiles _].
  destruct (after_metadata ydl_extract_info now url' w) as [title w1].
  cbn [fst snd] in *. rewrite Hfiles, Hdl. rewrite streaming_response_header.
  by destruct (latin1_encodable (filename_safe title)).
Qed.

(** C9 (amended): when the channel of the metadata can be recorded and the
    display name can be written as Latin-1, the [Content-Disposition] file
    name of a download response is the display name with the extension
    [.mp4], where the display name is the title (or [video] when the
    metadata has no title or could not be fetched) trimmed of the white
    space around it, with each newline replaced by a space, then cut to 100
    characters, then with each character outside [[\w\- .]] replaced by an
    underscore.  The name has at most 100 characters, all of them in
    [[\w\- .]]. *)
Theorem content_disposition_filename now unique_id url url' reported files' w :
  clean_youtube_url url = Ok url' →
  ydl_download url' (path_join DOWNLOADS_DIR unique_id ++ u ".%(ext)s") (files w)
  = (Ok reported, files') →
  let title := match ydl_extract_info url' with
               | Ok info => v_title info
               | Raise _ => None
               end in
  (∀ info, ydl_extract_info url' = Ok info →
     bindable (v_channel_id info) (opt_str (v_uploader info))
       (opt_str (v_thumbnail info)) = true) →
  latin1_encodable (display_name title) = true →
  (handle_download now unique_id url w).1
  = Ok (StreamingResponse (resolve_final_path reported files') GenCreated
          (u "video/mp4")
          [(u "Content-Disposition",
            u "attachment; filename=" ++ display_name title ++ u ".mp4")]) ∧
  (length (display_name title) ≤ 100)%nat ∧
  Forall (λ c, kept_in_filename c = true) (display_name title).
Proof.
  intros Hurl Hdl title Hbind Hlatin.
  split; [|split; [apply display_name_length|apply display_name_kept]].
  rewrite (download_materialized _ _ _ _ _ _ _ Hurl Hdl).
  assert ((after_metadata ydl_extract_info now url' w).1 = title_for_name title) as Htitle.
  { unfold title. destruct (ydl_extract_info url') as [info|e] eqn:E.
    - destruct (after_metadata_ok now url' w info E (Hbind info eq_refl)) as (tbl & _ & ->).
      done.
    - by rewrite (after_metadata_raise _ _ _ _ E). }
  destruct (after_metadata ydl_extract_info now url' w) as [t w1]. cbn [fst snd] in *.
  subst t. rewrite filename_safe_latin1, Hlatin. cbn [fst].
  by rewrite filename_safe_display.
Qed.

End DownloadFacts.

(** ** The channel-video lister *)

(** C8: without a credential of the external API -- the variable unset or
    empty -- the listing fails with status 400 whatever the channel id and
    the paging parameters are, before any call to the API: the log of the
    calls and the channel table are as they were. *)
Theorem channel_videos_without_key
    (requests_get : request → result http_response) (YOUTUBE_API_KEY : option str)
    now channel_id page_token max_results w :
  YOUTUBE_API_KEY = None ∨ YOUTUBE_API_KEY = Some [] →
  ∃ detail w',
    channel_videos requests_get YOUTUBE_API_KEY now channel_id page_token max_results w
    = (Raise (HTTPException 400 detail), w') ∧
    calls w' = calls w ∧ db w' = db w ∧ w' = w.
Proof.
  intros Hkey. eexists _, w. split; [|done].
  unfold channel_videos. by destruct Hkey as [-> | ->].
Qed.

(** ** Instances of the statements *)

Lemma valid_t1 : valid_datetime t1.
Proof. unfold valid_datetime, t1. simpl. lia. Qed.
Lemma valid_t2 : valid_datetime t2.
Proof. unfold valid_datetime, t2. simpl. lia. Qed.
Lemma valid_t3 : valid_datetime t3.
Proof. unfold valid_datetime, t3. simpl. lia. Qed.

Lemma upsert_existing_coalesce_witness :
  ∃ tbl' r',
    upsert_channel t2 (Some (u "UCxyz")) JNull (JStr (u "http://t/2.jpg")) [acme_row]
    = Ok tbl' ∧
    lookup_channel (u "UCxyz") tbl' = Some r' ∧
    c_title r' = Some (u "Acme") ∧
    c_thumbnail r' = Some (u "http://t/2.jpg") ∧
    c_last_used_at r' = isoformat t2.
Proof.
  destruct (upsert_existing_coalesce t2 (u "UCxyz") JNull (JStr (u "http://t/2.jpg"))
              None (Some (u "http://t/2.jpg")) [acme_row] acme_row)
    as (tbl' & r' & Hup & Hr' & Htitle & _ & _ & Hthumb & _ & _ & _ & _ & Hused).
  - exists [acme t1]. vm_compute. reflexivity.
  - vm_compute. reflexivity.
  - reflexivity.
  - vm_compute. reflexivity.
  - exists tbl', r'. split; [done|]. split; [done|]. split; [by apply Htitle|].
    split; [by apply Hthumb|done].
Defined.

(** C4, as the specification words it, fails for a title that is not null and
    that sqlite3 cannot bind, such as a text with a lone surrogate: the
    upsert of an existing id raises, the stored title is not overwritten
    and [last_used_at] is not set. *)
Lemma upsert_existing_counterexample :
  reachable [acme_row] ∧
  lookup_channel (u "UCxyz") [acme_row] = Some acme_row ∧
  upsert_channel t2 (Some (u "UCxyz")) (JStr lone_surrogate) JNull [acme_row]
  = Raise (UnicodeEncodeError (u "utf-8") lone_surrogate) ∧
  db (do_upsert t2 (Some (u "UCxyz")) (JStr lone_surrogate) JNull
        {| db := [acme_row]; files := ∅; calls := [] |}).2 = [acme_row].
Proof. split; [exists [acme t1]; by vm_compute|by vm_compute]. Qed.



Lemma list_channels_ordered_witness :
  let r1 := {| c_id := u "UCa"; c_title := Some (u "Alpha"); c_thumbnail := None;
               c_saved_at := isoformat t1; c_last_used_at := isoformat t1 |} in
  let r2 := {| c_id := u "UCb"; c_title := None;
               c_thumbnail := Some (u "http://t/b.jpg");
               c_saved_at := isoformat t1; c_last_used_at := isoformat t2 |} in
  let r3 := {| c_id := u "UCc"; c_title := Some (u "Gamma");
               c_thumbnail := Some (u "http://t/c.jpg");
               c_saved_at := isoformat t2; c_last_used_at := isoformat t3 |} in
  list_channels [r2; r3; r1]
  = [ {| channel_id := u "UCc"; channel_title := Some (u "Gamma");
         thumbnail := Some (u "http://t/c.jpg");
         saved_at := u "2024-03-09T07:05:00.001250";
         last_used_at := u "2024-11-30T23:59:59.999999" |};
      {| channel_id := u "UCb"; channel_title := None;
         thumbnail := Some (u "http://t/b.jpg");
         saved_at := u "2024-03-09T07:05:00";
         last_used_at := u "2024-03-09T07:05:00.001250" |};
      {| channel_id := u "UCa"; channel_title := Some (u "Alpha");
         thumbnail := None;
         saved_at := u "2024-03-09T07:05:00";
         last_used_at := u "2024-03-09T07:05:00" |} ].
Proof.
  intros r1 r2 r3.
  etrans; [apply (proj2 (proj2 (list_channels_ordered [r2; r3; r1])) r1 r2 r3 t1 t2 t3)|].
  - etrans; [apply perm_skip, perm_swap|]. apply perm_swap.
  - apply valid_t1.
  - apply valid_t2.
  - apply valid_t3.
  - reflexivity.
  - reflexivity.
  - reflexivity.
  - by vm_compute.
  - by vm_compute.
  - vm_compute. reflexivity.
Defined.

Lemma metadata_failure_swallowed_witness :
  let '(r, w') := download no_metadata webm_then_mp4 message (u "downloads") t1
                    (u "3f2a") (u "https://youtu.be/abc123X") empty_world in
  db w' = db empty_world ∧ calls w' = calls empty_world ∧
  match webm_then_mp4 (u "https://youtu.be/abc123X")
          (path_join (u "downloads") (u "3f2a") ++ u ".%(ext)s") (files empty_world) with
  | (Ok reported, files') =>
      r = Ok (StreamingResponse (resolve_final_path reported files') GenCreated
                (u "video/mp4")
                [(u "Content-Disposition", u "attachment; filename=video.mp4")]) ∧
      files w' = files'
  | (Raise e', files') =>
      let body := JObj [(u "error", JStr (message e'))] in
      r = (if utf8_encodable (message e') then Ok (JSONResponse body 500)
           else Raise (UnicodeEncodeError (u "utf-8") (json_dumps body))) ∧
      files w' = files'
  end.
Proof.
  apply (metadata_failure_swallowed no_metadata webm_then_mp4 message (u "downloads")
           t1 (u "3f2a") (u "https://youtu.be/abc123X") (u "https://youtu.be/abc123X")
           (DownloadError (u "Video unavailable")) empty_world).
  - vm_compute. reflexivity.
  - reflexivity.
Defined.

Lemma content_disposition_filename_witness :
  (download some_metadata webm_then_mp4 message (u "downloads") t1
     (u "3f2a") (u "https://youtu.be/abc123X") empty_world).1
  = Ok (StreamingResponse (u "downloads/3f2a.mp4") GenCreated (u "video/mp4")
          [(u "Content-Disposition", u "attachment; filename=Tom _ Jerry_ ep_1.mp4")]).
Proof.
  destruct (content_disposition_filename some_metadata webm_then_mp4 message
              (u "downloads") t1 (u "3f2a") (u "https://youtu.be/abc123X")
              (u "https://youtu.be/abc123X") (u "downloads/3f2a.webm")
              (<[ u "downloads/3f2a.mp4" := [Byte.x00; Byte.x01] ]> ∅) empty_world)
    as [Hr _].
  - vm_compute. reflexivity.
  - reflexivity.
  - intros info [= <-]. vm_compute. reflexivity.
  - vm_compute. reflexivity.
  - rewrite Hr. vm_compute. reflexivity.
Defined.

Lemma channel_videos_without_key_witness :
  ∃ detail w',
    channel_videos (λ _, Ok {| status_code := 200; text := []; json_body := Ok JNull |})
      None t1 (u "UCxyz") None 20 empty_world
    = (Raise (HTTPException 400 detail), w') ∧
    calls w' = calls empty_world ∧ db w' = db empty_world ∧ w' = empty_world.
Proof.
  apply (channel_videos_without_key _ None t1 (u "UCxyz") None 20 empty_world).
  by left.
Defined.

(** C9, as the specification words it, fails on a title of 101 characters that
    starts with a space: the code trims the title before it cuts it, and
    keeps 100 letters; cutting first keeps 99, under each reading of
    "stripping newlines". *)
Lemma claimed_filename_counterexample :
  let title := u " " ++ replicate 100 97 in
  filename_safe (title_for_name (Some title)) ≠ claimed_filename remove_newlines title ∧
  filename_safe (title_for_name (Some title)) ≠ claimed_filename newlines_to_spaces title ∧
  filename_safe (title_for_name (Some title)) ≠ claimed_filename trim_and_replace title.
Proof. by vm_compute. Qed.

(** ** The functions on concrete inputs *)

Example splitext_webm :
  splitext (u "downloads/3f2a.webm") = (u "downloads/3f2a", u ".webm").
Proof. vm_compute. reflexivity. Qed.

Example splitext_hidden : splitext (u "dir.d/.profile") = (u "dir.d/.profile", []).
Proof. vm_compute. reflexivity. Qed.

Example path_join_plain : path_join (u "/srv/downloads") (u "3f2a") = u "/srv/downloads/3f2a".
Proof. vm_compute. reflexivity. Qed.

Example resolve_merged :
  resolve_final_path (u "downloads/3f2a.webm")
    (<[ u "downloads/3f2a.mp4" := [Byte.x00] ]> ∅) = u "downloads/3f2a.mp4".
Proof. vm_compute. reflexivity. Qed.

Example resolve_not_merged :
  resolve_final_path (u "downloads/3f2a.webm")
    (<[ u "downloads/3f2a.webm" := [Byte.x00] ]> ∅) = u "downloads/3f2a.webm".
Proof. vm_compute. reflexivity. Qed.

Example filename_of_title :
  filename_safe (title_for_name (Some [32; 77; 121; 10; 99; 108; 105; 112; 58; 32; 49; 47; 50; 32]))
  = u "My clip_ 1_2.mp4".
Proof. vm_compute. reflexivity. Qed.

Example filename_of_empty_title : filename_safe (title_for_name (Some [])) = u "video.mp4".
Proof. vm_compute. reflexivity. Qed.

Example upserts_example :
  upserts [acme t1; other t2; acme t3] []
  = Ok [ {| c_id := u "UCxyz"; c_title := Some (u "Acme");
            c_thumbnail := Some (u "http://t/1.jpg");
            c_saved_at := u "2024-03-09T07:05:00";
            c_last_used_at := u "2024-11-30T23:59:59.999999" |};
         {| c_id := u "UCabc"; c_title := None; c_thumbnail := None;
            c_saved_at := u "2024-03-09T07:05:00.001250";
            c_last_used_at := u "2024-03-09T07:05:00.001250" |} ].
Proof. vm_compute. reflexivity. Qed.

Example upsert_without_id :
  upsert_channel t1 (Some []) (JStr lone_surrogate) (JArr []) [] = Ok [].
Proof. reflexivity. Qed.

(** A title that is a number is stored as its decimal text; a list is not
    bound, and neither is a text with a lone surrogate. *)
Example upsert_number_title :
  upsert_channel t1 (Some (u "UCxyz")) (JInt (-42)) (JBool true) []
  = Ok [inserted (u "UCxyz") (Some (u "-42")) (Some (u "1")) (isoformat t1)].
Proof. vm_compute. reflexivity. Qed.

Example upsert_list_title :
  upsert_channel t1 (Some (u "UCxyz")) (JArr [JStr (u "Acme")]) (JStr lone_surrogate) []
  = Raise ProgrammingError.
Proof. vm_compute. reflexivity. Qed.

Example upsert_surrogate_id :
  upsert_channel t1 (Some lone_surrogate) (JArr []) JNull []
  = Raise (UnicodeEncodeError (u "utf-8") lone_surrogate).
Proof. vm_compute. reflexivity. Qed.

(** The JSON text of a value: [[1,null,true,"a\nb"]]. *)
Example json_dumps_array :
  json_dumps (JArr [JInt 1; JNull; JBool true; JStr [97; 10; 98]])
  = u "[1,null,true," ++ [34; 97; 92; 110; 98; 34] ++ u "]".
Proof. vm_compute. reflexivity. Qed.

Example upsert_large_number :
  upsert_channel t1 (Some (u "UCxyz")) (JInt (2 ^ 63)) JNull [] = Raise OverflowError.
Proof. vm_compute. reflexivity. Qed.

Example list_channels_example :
  map channel_id (list_channels
    [ inserted (u "UCa") None None (isoformat t2);
      inserted (u "UCb") None None (isoformat t3);
      inserted (u "UCc") None None (isoformat t1) ])
  = [u "UCb"; u "UCa"; u "UCc"].
Proof. vm_compute. reflexivity. Qed.

(** A file of one byte, read to its end: one chunk, then the generator
    stops and the file is gone. *)
Example drain_one_byte :
  drain 2 (u "downloads/3f2a.mp4") GenCreated {[ u "downloads/3f2a.mp4" := [Byte.x2a] ]}
  = Some ([[Byte.x2a]], StopIteration, ∅).
Proof.
  pose proof chunk_positive as HC.
  cbn [drain gen_next]. rewrite lookup_singleton_eq.
  unfold stream_loop at 1, file_read. cbn [h_data h_pos].
  rewrite drop_0, take_ge by (cbn [length]; lia).
  cbn [length gen_next Nat.add]. unfold stream_loop, file_read, os_remove.
  cbn [h_data h_pos]. rewrite drop_ge by (cbn [length]; lia). rewrite take_nil.
  rewrite lookup_singleton_eq. by rewrite delete_singleton_eq.
Qed.

Example channel_videos_not_found :
  (channel_videos api_without_channel (Some (u "key")) t1 (u "UCnone") None 20
     empty_world).1
  = Raise (HTTPException 404 (u "Channel not found")).
Proof. vm_compute. reflexivity. Qed.

Example channel_videos_page :
  let '(r, w) := channel_videos api_with_channel (Some (u "key")) t1 (u "UCxyz") None 20
                   empty_world in
  r = Ok (JObj [(u "channel", JObj [(u "id", JStr (u "UCxyz")); (u "title", JStr (u "Acme"));
                                     (u "thumbnail", JStr (u "http://t/c.jpg"))]);
                (u "videos", JArr [JObj [(u "videoId", JStr (u "abc123X"));
                                         (u "title", JStr (u "First"));
                                         (u "thumbnail", JStr (u "http://t/d.jpg"));
                                         (u "publishedAt", JStr (u "2024-03-09T07:05:00Z"));
                                         (u "channelTitle", JStr (u "Acme"))]]);
                (u "nextPageToken", JStr (u "CAUQAA"))]) ∧
  length (calls w) = 2%nat ∧
  db w = [inserted (u "UCxyz") (Some (u "Acme")) (Some (u "http://t/c.jpg")) (isoformat t1)].
Proof. vm_compute. done. Qed.

(** * Further properties of the module *)

(** ** The channel cache *)

(** The rows of a table after an upsert of [cid]: the rows of other ids as
    they were, and rows of [cid] last used now. *)
Lemma upserted_rows now cid t th tbl x :
  In x (upserted now cid t th tbl) →
  (In x tbl ∧ c_id x ≠ cid) ∨ (c_id x = cid ∧ c_last_used_at x = now).
Proof.
  unfold upserted. destruct (lookup_channel cid tbl) as [r|] eqn:E.
  - unfold sql_update. rewrite in_map_iff. intros (r0 & <- & Hin).
    unfold str_eqb. case_bool_decide as Hid; [by right|by left].
  - intros [Hin|[<-|[]]]%in_app_iff; [left|by right].
    split; [done|]. intros Hid. apply lookup_None in E. apply E.
    rewrite <- Hid. by apply in_map.
Qed.

Lemma upsert_rows now cid title thumb tbl tbl' x :
  cid ≠ [] → upsert_channel now (Some cid) title thumb tbl = Ok tbl' →
  In x tbl' →
  (In x tbl ∧ c_id x ≠ cid) ∨ (c_id x = cid ∧ c_last_used_at x = isoformat now).
Proof.
  intros Hne Hup. apply upsert_channel_inv in Hup as (t & th & _ & _ & _ & ->); [|done].
  apply upserted_rows.
Qed.

Lemma filter_sql_update title thumb now cid tbl cid' :
  cid' ≠ cid →
  filter (λ r, c_id r = cid') (sql_update title thumb now cid tbl)
  = filter (λ r, c_id r = cid') tbl.
Proof.
  intros Hne. induction tbl as [|r tbl IH]; [done|]. simpl.
  rewrite !filter_cons, IH. unfold str_eqb. case_bool_decide as Hid; simpl.
  - rewrite !decide_False; [done|congruence..].
  - done.
Qed.

(** X1: an upsert fails only at the binding of a parameter.  It succeeds
    when the id is empty or absent, or when the id is text that UTF-8
    encodes and the title and the thumbnail are values sqlite3 binds;
    otherwise it raises the error of the first parameter that cannot be
    bound -- the id, then the title, then the thumbnail -- which is a
    [UnicodeEncodeError] of the UTF-8 encoding, an [OverflowError] or a
    [ProgrammingError].  The insertion is only reached when no row has the
    id, so that the primary key is never violated.  A sequence of upserts
    whose parameters can be bound does not fail. *)
Theorem upsert_fails_only_at_binding now ch_id title thumb tbl :
  match upsert_channel now ch_id title thumb tbl with
  | Ok _ => bindable ch_id title thumb = true
  | Raise e =>
      bindable ch_id title thumb = false ∧
      ((∃ s, e = UnicodeEncodeError (u "utf-8") s) ∨ e = OverflowError
       ∨ e = ProgrammingError) ∧
      ∃ cid, ch_id = Some cid ∧
        match bind_text cid with
        | Raise e0 => e = e0
        | Ok _ =>
            match bind_parameter title with
            | Raise e1 => e = e1
            | Ok _ => bind_parameter thumb = Raise e
            end
        end
  end ∧
  ∀ calls, Forall bindable_call calls → ∃ tbl', upserts calls tbl = Ok tbl'.
Proof.
  split; [|intros calls Hcalls; by apply upserts_bindable].
  destruct (upsert_channel now ch_id title thumb tbl) as [tbl'|e] eqn:E.
  - by eapply upsert_channel_ok_bindable.
  - destruct (upsert_channel_raise _ _ _ _ _ _ E) as [Hb Hkind].
    split; [done|]. split; [done|]. by eapply upsert_channel_raise_first.
Qed.

(** X2: an upsert changes no row of another id: the rows of every id other
    than the upserted one are the same rows, in the same order. *)
Theorem upsert_other_rows_untouched now ch_id title thumb tbl tbl' cid' :
  upsert_channel now ch_id title thumb tbl = Ok tbl' → ch_id ≠ Some cid' →
  filter (λ r, c_id r = cid') tbl' = filter (λ r, c_id r = cid') tbl.
Proof.
  intros Hup Hne. destruct ch_id as [[|c cid]|]; try (by injection Hup as <-).
  apply upsert_channel_inv in Hup as (t & th & _ & _ & _ & ->); [|done].
  assert (cid' ≠ c :: cid) as Hne' by congruence.
  unfold upserted. destruct (lookup_channel (c :: cid) tbl).
  - by apply filter_sql_update.
  - rewrite filter_app, filter_cons, filter_nil. simpl.
    rewrite decide_False by done. apply app_nil_r.
Qed.

(** X3: an upsert of an id that is not empty, with parameters that can be
    bound, succeeds, and the record of the id is there afterwards, last
    used at the time of the call.  A new id gets a new row with the title
    and the thumbnail as they were bound, saved at the time of the call; a
    known id keeps its [saved_at] and the table keeps its length. *)
Theorem upsert_then_lookup now cid title thumb t th tbl :
  cid ≠ [] → utf8_encodable cid = true →
  bind_parameter title = Ok t → bind_parameter thumb = Ok th →
  ∃ tbl' r,
    upsert_channel now (Some cid) title thumb tbl = Ok tbl' ∧
    lookup_channel cid tbl' = Some r ∧
    c_id r = cid ∧ c_last_used_at r = isoformat now ∧
    (lookup_channel cid tbl = None →
       r = inserted cid t th (isoformat now) ∧ length tbl' = S (length tbl)) ∧
    (∀ r0, lookup_channel cid tbl = Some r0 →
       c_saved_at r = c_saved_at r0 ∧ length tbl' = length tbl).
Proof.
  intros Hne Hcid Ht Hth.
  exists (upserted (isoformat now) cid t th tbl).
  pose proof (lookup_upserted (isoformat now) cid t th tbl cid) as Hl.
  rewrite decide_True in Hl by done. unfold upserted in *.
  destruct (lookup_channel cid tbl) as [r0|] eqn:E.
  - exists (updated t th (isoformat now) r0).
    split; [by rewrite (upsert_channel_spec _ _ _ _ t th); unfold upserted; rewrite ?E|].
    split; [done|].
    destruct (lookup_Some _ _ _ E) as [_ Hid].
    split; [done|]. split; [done|]. split; [done|].
    intros r1 [= <-]. split; [done|]. unfold sql_update. by rewrite length_map.
  - exists (inserted cid t th (isoformat now)).
    split; [by rewrite (upsert_channel_spec _ _ _ _ t th); unfold upserted; rewrite ?E|].
    split; [done|].
    split; [done|]. split; [done|]. split; [|done].
    intros _. split; [done|]. rewrite length_app. simpl. lia.
Qed.

(** X4: the system never deletes or reorders a record: after any sequence
    of upserts the ids of the table start with the ids it had, in the same
    order. *)
Theorem upserts_keep_records calls tbl tbl' :
  upserts calls tbl = Ok tbl' → ∃ new, map c_id tbl' = map c_id tbl ++ new.
Proof.
  revert tbl. induction calls as [|c calls IH]; intros tbl; simpl.
  - intros [= <-]. exists []. by rewrite app_nil_r.
  - destruct (upsert_channel _ _ _ _ tbl) as [tbl1|] eqn:E; simpl; [|done].
    intros Hcalls. destruct (IH _ Hcalls) as [new Hnew].
    assert (∃ new1, map c_id tbl1 = map c_id tbl ++ new1) as [new1 Hnew1].
    { destruct (u_id c) as [[|x cid]|]; try (injection E as <-; exists [];
        by rewrite app_nil_r).
      apply upsert_channel_inv in E as (t & th & _ & _ & _ & ->); [|done].
      destruct (upserted_ids (isoformat (u_now c)) (x :: cid) t th tbl) as (new1 & Hn & _).
      by exists new1. }
    exists (new1 ++ new). by rewrite Hnew, Hnew1, <- app_assoc.
Qed.

(** X5: with a clock that does not go back and is not behind the table, the
    [last_used_at] of a record never decreases over a sequence of
    upserts. *)
Theorem last_used_never_decreases calls tbl tbl' cid r :
  Forall valid_datetime (map u_now calls) → nondecreasing (map u_now calls) →
  (∀ x c, In x tbl → In c calls → str_le (c_last_used_at x) (isoformat (u_now c))) →
  upserts calls tbl = Ok tbl' → lookup_channel cid tbl = Some r →
  ∃ r', lookup_channel cid tbl' = Some r' ∧
        str_le (c_last_used_at r) (c_last_used_at r').
Proof.
  revert tbl r. induction calls as [|c calls IH]; intros tbl r Hvalid Hmono Hclock; simpl.
  - intros [= <-] Hr. exists r. split; [done|apply str_le_refl].
  - simpl in Hvalid, Hmono. apply Forall_cons in Hvalid as [Hvc Hvalid].
    destruct Hmono as [Hc Hmono].
    destruct (upsert_channel _ _ _ _ tbl) as [tbl1|] eqn:E; simpl; [|done].
    intros Hcalls Hr.
    assert (∃ r1, lookup_channel cid tbl1 = Some r1 ∧
                  str_le (c_last_used_at r) (c_last_used_at r1)) as (r1 & Hr1 & Hle1).
    { destruct (u_id c) as [[|x cid0]|]; try (injection E as <-; exists r;
        split; [done|apply str_le_refl]).
      assert (x :: cid0 ≠ []) as Hne by done.
      destruct (lookup_upsert _ _ _ _ _ _ Hne E) as (t & th & _ & _ & ->).
      case_decide as Hid.
      - subst. rewrite Hr. eexists. split; [done|]. simpl.
        apply Hclock; [by apply (lookup_Some _ _ _ Hr)|by left].
      - exists r. split; [done|apply str_le_refl]. }
    destruct (IH tbl1 r1 Hvalid Hmono) as (r' & Hr' & Hle'); [|done..|].
    + intros y c' Hy Hc'.
      assert (In y tbl ∨ c_last_used_at y = isoformat (u_now c)) as [Hin| ->].
      { destruct (u_id c) as [[|x cid0]|]; try (injection E as <-; by left).
        assert (x :: cid0 ≠ []) as Hne by done.
        destruct (upsert_rows _ _ _ _ _ _ y Hne E Hy) as [[Hin _]|[_ Hlu]];
          [by left|by right]. }
      * apply Hclock; [done|by right].
      * rewrite List.Forall_forall in Hc, Hvalid.
        apply isoformat_le; [done|apply Hvalid; by apply in_map|apply Hc; by apply in_map].
    + exists r'. split; [done|]. by eapply str_le_trans.
Qed.

(** X6: the channel touched last is listed first: after an upsert at a time
    later than the last use of every other channel, the listing starts with
    the upserted channel, last used at the time of the call. *)
Theorem upsert_then_listed_first now cid title thumb tbl tbl' :
  cid ≠ [] →
  (∀ x, In x tbl → c_id x ≠ cid → str_lt (c_last_used_at x) (isoformat now)) →
  upsert_channel now (Some cid) title thumb tbl = Ok tbl' →
  ∃ e rest, list_channels tbl' = e :: rest ∧
            channel_id e = cid ∧ last_used_at e = isoformat now.
Proof.
  intros Hne Hlater Hup.
  destruct (lookup_upsert _ _ _ _ _ _ Hne Hup) as (t & th & _ & _ & Hl).
  specialize (Hl cid). rewrite decide_True in Hl by done.
  destruct (lookup_Some _ _ _ Hl) as [Hin Hid]. clear Hl.
  set (r' := match lookup_channel cid tbl with
             | Some r => updated t th (isoformat now) r
             | None => inserted cid t th (isoformat now)
             end) in *.
  assert (c_last_used_at r' = isoformat now) as Hlu.
  { unfold r'. by destruct (lookup_channel cid tbl). }
  pose proof (order_by_sorted tbl') as Hsorted.
  pose proof (order_by_perm tbl') as Hperm.
  unfold list_channels.
  destruct (order_by_last_used_desc tbl') as [|x l] eqn:E.
  { apply Permutation_nil in Hperm. by rewrite Hperm in Hin. }
  exists (entry_of_row x), (map entry_of_row l). split; [done|]. simpl.
  assert (In x tbl') as Hx by (eapply Permutation_in; [done|by left]).
  destruct (upsert_rows _ _ _ _ _ _ x Hne Hup Hx) as [[Hxin Hxid]|[Hxid Hxlu]]; [|done].
  exfalso. specialize (Hlater x Hxin Hxid).
  apply Permutation_sym in Hperm.
  pose proof (Permutation_in _ Hperm Hin) as [->|Hr']; [done|].
  apply StronglySorted_inv in Hsorted as [_ Hall].
  rewrite List.Forall_forall in Hall. specialize (Hall r' Hr').
  unfold listed_before, str_le, str_lt in *. rewrite Hlu in Hall.
  rewrite (lex_compare_antisym (c_last_used_at x)), Hlater in Hall. by apply Hall.
Qed.

(** X7: the text [isoformat] writes orders as the time it stands for: on
    valid datetimes the TEXT comparison of two timestamps is the comparison
    of the datetimes, and equal texts stand for equal datetimes. *)
Theorem isoformat_order_embedding a b :
  valid_datetime a → valid_datetime b →
  (str_le (isoformat a) (isoformat b) ↔ dt_le a b) ∧
  (str_lt (isoformat a) (isoformat b) ↔ dt_lt a b) ∧
  (isoformat a = isoformat b ↔ a = b).
Proof.
  intros Ha Hb. unfold str_le, str_lt, dt_le, dt_lt.
  rewrite (lex_compare_isoformat a b Ha Hb). split; [done|]. split; [done|].
  split; [|by intros ->].
  intros Heq.
  assert (lex_compare (dt_fields a) (dt_fields b) = Eq) as Hf.
  { by rewrite <- (lex_compare_isoformat a b Ha Hb), Heq, lex_compare_refl. }
  apply lex_compare_eq in Hf. destruct a, b. unfold dt_fields in Hf. simpl in Hf.
  by injection Hf as -> -> -> -> -> -> ->.
Qed.

(** ** The URL normalizer *)

Section NormalizerMore.
Context `{Unicode}.

Lemma strip_around pre x rest :
  x ≠ [] → no_lead x → (∀ a, no_trail (a ++ x)) →
  strip (pre ++ x ++ rest) = lstrip pre ++ x ++ rstrip rest.
Proof.
  intros Hne Hlead Htrail. unfold strip.
  rewrite lstrip_app; [|by destruct x|by apply no_lead_app].
  rewrite (app_assoc (lstrip pre) x rest), rstrip_app;
    [by rewrite <- app_assoc|by destruct (lstrip pre), x|apply Htrail].
Qed.

(** X8: an input that holds a watch URL or a short-domain URL -- one of the
    eight forms of the prefix, then an identifier of at least six characters
    of [[\w-]] that ends where the text ends or at a character outside the
    class -- with no shorts URL anywhere and no earlier watch URL, is
    normalized to exactly that URL: the text before it and the parameters
    after the identifier are dropped. *)
Theorem watch_url_extracted (pre P id rest : str) :
  In P watch_prefixes →
  Forall (λ c, is_idchar c = true) id → (6 ≤ length id)%nat →
  no_head is_idchar rest →
  ¬ contains shorts_re (pre ++ P ++ id ++ rest) →
  (∀ a b, pre = a ++ b → b ≠ [] → ¬ matches_at watch_re (b ++ P ++ id ++ rest)) →
  clean_youtube_url (pre ++ P ++ id ++ rest) = Ok (P ++ id).
Proof.
  intros HP Hall Hlen Hrest Hshorts Hfirst.
  assert (id ≠ []) as Hne by (destruct id; simpl in *; [lia|done]).
  unfold clean_youtube_url.
  assert (re_search shorts_re (strip (pre ++ P ++ id ++ rest)) = None) as ->.
  { apply re_search_none. intros Hc. by apply Hshorts, contains_strip. }
  replace (pre ++ P ++ id ++ rest) with (pre ++ (P ++ id) ++ rest)
    by (by rewrite <- !app_assoc).
  rewrite strip_around.
  2: { by destruct P, id. }
  2: { by apply watch_prefix_lead. }
  2: { intros a. rewrite app_assoc. by apply idchars_no_trail. }
  rewrite <- !app_assoc. rewrite re_search_skip_app.
  - rewrite search_watch_here; [done..|]. by apply idchars_no_head_strip.
  - intros a1 a2 Hpre Ha2 Hm.
    destruct (lstrip_suffix pre) as [ws Hws].
    destruct (rstrip_prefix rest) as [ws' Hws'].
    apply (Hfirst (ws ++ a1) a2); [by rewrite <- app_assoc, <- Hpre|done|].
    rewrite Hws'.
    replace (a2 ++ P ++ id ++ rstrip rest ++ ws')
      with ((a2 ++ P ++ id) ++ rstrip rest ++ ws') by (by rewrite <- !app_assoc).
    apply matches_at_extend. by rewrite <- !app_assoc.
Qed.

(** X9: the normalized URL never starts or ends with white space. *)
Theorem clean_youtube_url_no_outer_space (url : str) :
  ∃ out, clean_youtube_url url = Ok out ∧ no_lead out ∧ no_trail out.
Proof.
  destruct (clean_youtube_url_cases url)
    as [(P & id & _ & Hall & Hlen & ->)|[(P & id & HP & Hall & Hlen & ->)
       |(_ & _ & ->)]]; eexists; (split; [done|]).
  - assert (id ≠ []) as Hne by (destruct id; simpl in *; [lia|done]).
    split; [by vm_compute|by apply idchars_no_trail].
  - assert (id ≠ []) as Hne by (destruct id; simpl in *; [lia|done]).
    split; [by apply watch_prefix_lead|by apply idchars_no_trail].
  - split; [apply strip_no_lead|apply strip_no_trail].
Qed.

Lemma lstrip_spaces t : Forall (λ c, is_space c = true) t → lstrip t = [].
Proof. induction 1 as [|c t Hc _ IH]; simpl; [done|]. by rewrite Hc. Qed.

(** X10: a title made of white space only is not replaced by the fallback
    name: it is trimmed to nothing and the file name is the bare extension
    [.mp4]. *)
Theorem blank_title_filename (t : str) :
  t ≠ [] → Forall (λ c, is_space c = true) t →
  filename_safe (title_for_name (Some t)) = u ".mp4".
Proof.
  intros Hne Hall. unfold title_for_name.
  destruct t as [|c t]; [done|].
  unfold strip. rewrite (lstrip_spaces _ Hall). reflexivity.
Qed.

End NormalizerMore.

Lemma watch_url_extracted_witness :
  clean_youtube_url (u "see https://www.youtube.com/watch?v=dQw4w9WgXcQ&t=42s ")
  = Ok (u "https://www.youtube.com/watch?v=dQw4w9WgXcQ").
Proof.
  apply (watch_url_extracted (u "see ") (u "https://www.youtube.com/watch?v=")
           (u "dQw4w9WgXcQ") (u "&t=42s ")).
  - simpl. tauto.
  - repeat constructor.
  - simpl. lia.
  - reflexivity.
  - apply re_search_none. vm_compute. reflexivity.
  - apply no_match_inside. vm_compute. reflexivity.
Defined.

Lemma blank_title_filename_witness :
  filename_safe (title_for_name (Some (u "  "))) = u ".mp4".
Proof. apply blank_title_filename; [done|repeat constructor]. Defined.

(** ** The streaming generator *)

Lemma gen_next_yield_bounds path g files chunk g' files' :
  gen_next path g files = (Yield chunk, g', files') →
  (0 < length chunk ≤ N.to_nat CHUNK)%nat ∧ files' = files.
Proof.
  assert (∀ f, stream_loop path f files = (Yield chunk, g', files') →
               (0 < length chunk ≤ N.to_nat CHUNK)%nat ∧ files' = files) as Hloop.
  { intros f. unfold stream_loop, file_read.
    destruct (take (N.to_nat CHUNK) (drop (h_pos f) (h_data f))) as [|b l] eqn:E;
      [done|].
    intros [= <- _ <-]. split; [|done]. rewrite <- E, length_take.
    split; [|lia]. apply (f_equal length) in E. rewrite length_take in E.
    cbn [length] in E. lia. }
  destruct g as [|f|]; cbn [gen_next]; [|apply Hloop|done].
  destruct (files !! path); [apply Hloop|done].
Qed.

Lemma drain_chunks_bounded fuel path g files chunks ev files' :
  drain fuel path g files = Some (chunks, ev, files') →
  Forall (λ c, (0 < length c ≤ N.to_nat CHUNK)%nat) chunks.
Proof.
  revert g files chunks. induction fuel as [|fuel IH]; intros g files chunks; [done|].
  cbn [drain]. destruct (gen_next path g files) as [[e g1] files1] eqn:E.
  destruct e as [chunk| |e].
  - destruct (drain fuel path g1 files1) as [[[chunks1 ev1] files2]|] eqn:E1; [|done].
    intros [= <- <- <-].
    constructor; [apply (proj1 (gen_next_yield_bounds _ _ _ _ _ _ E))|by eapply IH].
  - by intros [= <- _ _].
  - by intros [= <- _ _].
Qed.

(** X11: a caller that reads the stream to its end receives the bytes of
    the file, in chunks that are not empty and hold at most 1 MiB each; the
    generator then stops and the file is removed. *)
Theorem stream_read_to_end path data files fuel :
  files !! path = Some data → (length data < fuel)%nat →
  ∃ chunks,
    drain fuel path GenCreated files = Some (chunks, StopIteration, delete path files) ∧
    concat chunks = data ∧
    Forall (λ c, (0 < length c ≤ N.to_nat CHUNK)%nat) chunks ∧
    delete path files !! path = None.
Proof.
  intros Hfile Hfuel.
  destruct (drain_removes_file path data files fuel Hfile Hfuel)
    as (chunks & Hd & Hcat & Hgone).
  exists chunks. split; [done|]. split; [done|]. split; [|done].
  by eapply drain_chunks_bounded.
Qed.

(** X12: a caller that goes away before the stream ends -- before the first
    chunk or after [k] chunks while bytes are left or the end has not been
    seen -- closes the generator without the file being removed: the files
    are as they were, and the bytes sent are the first [k] MiB of the
    file. *)
Theorem stream_closed_early_keeps_file path data files k :
  files !! path = Some data →
  (k * N.to_nat CHUNK < length data + N.to_nat CHUNK)%nat →
  ∃ chunks,
    read_then_close k path GenCreated files = (chunks, GenClosed, files) ∧
    concat chunks = take (k * N.to_nat CHUNK) data.
Proof.
  intros Hfile Hk. destruct k as [|k].
  - exists []. split; [done|]. by rewrite take_0.
  - apply read_then_close_keeps_file; [done|lia|done].
Qed.

Lemma stream_read_to_end_witness :
  ∃ chunks,
    drain 2 (u "downloads/3f2a.mp4") GenCreated {[ u "downloads/3f2a.mp4" := [Byte.x2a] ]}
    = Some (chunks, StopIteration,
            delete (u "downloads/3f2a.mp4") {[ u "downloads/3f2a.mp4" := [Byte.x2a] ]}) ∧
    concat chunks = [Byte.x2a].
Proof.
  destruct (stream_read_to_end (u "downloads/3f2a.mp4") [Byte.x2a]
              {[ u "downloads/3f2a.mp4" := [Byte.x2a] ]} 2) as (chunks & Hd & Hc & _).
  - apply lookup_singleton_eq.
  - cbn [length]. lia.
  - by exists chunks.
Defined.

Lemma stream_closed_early_keeps_file_witness :
  ∃ chunks,
    read_then_close 1 (u "downloads/3f2a.mp4") GenCreated
      {[ u "downloads/3f2a.mp4" := [Byte.x2a] ]}
    = (chunks, GenClosed, {[ u "downloads/3f2a.mp4" := [Byte.x2a] ]}).
Proof.
  pose proof chunk_positive as HC.
  destruct (stream_closed_early_keeps_file (u "downloads/3f2a.mp4") [Byte.x2a]
              {[ u "downloads/3f2a.mp4" := [Byte.x2a] ]} 1) as (chunks & Hr & _).
  - apply lookup_singleton_eq.
  - cbn [length]. lia.
  - by exists chunks.
Defined.

(** ** The download endpoint *)

Section DownloadMore.
Context `{Unicode}.
Variable ydl_extract_info : str → result video_info.
Variable ydl_download : str → str → fs → result str * fs.
Variable exn_message : exn → str.
Variable DOWNLOADS_DIR : str.

Local Abbreviation serve_download :=
  (download ydl_extract_info ydl_download exn_message DOWNLOADS_DIR).

Lemma clean_youtube_url_ok url : ∃ url', clean_youtube_url url = Ok url'.
Proof.
  destruct (clean_youtube_url_cases url)
    as [(P & id & _ & _ & _ & ->)|[(P & id & _ & _ & _ & ->)|(_ & _ & ->)]];
    by eexists.
Qed.

(** The title a download names its file after is that of the metadata, or
    [video]. *)
Lemma after_metadata_title now url w :
  (after_metadata ydl_extract_info now url w).1 = u "video" ∨
  ∃ info, ydl_extract_info url = Ok info ∧
          (after_metadata ydl_extract_info now url w).1 = title_for_name (v_title info).
Proof.
  unfold after_metadata. destruct (ydl_extract_info url) as [info|e]; [|by left].
  destruct (upsert_channel _ _ _ _ _); [|by left]. right. by exists info.
Qed.

Lemma download_name_latin1 now url w :
  (∀ info, ydl_extract_info url = Ok info →
     latin1_encodable (display_name (v_title info)) = true) →
  latin1_encodable (filename_safe (after_metadata ydl_extract_info now url w).1) = true.
Proof.
  intros Hlatin. destruct (after_metadata_title now url w) as [->|(info & Hinfo & ->)].
  - by rewrite filename_safe_video.
  - rewrite filename_safe_latin1. by apply Hlatin.
Qed.

(** X13: the download endpoint never calls the external API, and whatever
    the extractor and the downloader do it ends in one of three ways: with
    a stream of type [video/mp4] that has not started; with a JSON body
    [{"error": str(e)}] of status 500; or, only when the message of a
    failure cannot be written as UTF-8, with the [UnicodeEncodeError] of
    the rendering of that body, raised on its JSON text.  When every
    message can be written, the endpoint does not raise. *)
Theorem download_outcomes now unique_id url w :
  ∃ r w',
    serve_download now unique_id url w = (r, w') ∧
    calls w' = calls w ∧
    match r with
    | Ok (StreamingResponse _ body media_type _) =>
        body = GenCreated ∧ media_type = u "video/mp4"
    | Ok (JSONResponse content status) =>
        status = 500 ∧ ∃ e, content = JObj [(u "error", JStr (exn_message e))]
    | Raise e =>
        ∃ e0, utf8_encodable (exn_message e0) = false ∧
              e = UnicodeEncodeError (u "utf-8")
                    (json_dumps (JObj [(u "error", JStr (exn_message e0))]))
    end ∧
    ((∀ e, utf8_encodable (exn_message e) = true) → ∃ resp, r = Ok resp).
Proof.
  destruct (clean_youtube_url_ok url) as [url' Hurl].
  rewrite (download_steps _ _ _ _ _ _ _ _ _ Hurl).
  destruct (after_metadata_world ydl_extract_info now url' w) as [_ Hcalls].
  destruct (after_metadata ydl_extract_info now url' w) as [title w1].
  cbn [fst snd] in *.
  assert (∀ e w2, calls w2 = calls w →
            ∃ r w', (new_json_response (JObj [(u "error", JStr (exn_message e))]) 500, w2)
                    = (r, w') ∧ calls w' = calls w ∧
              match r with
              | Ok (StreamingResponse _ body media_type _) =>
                  body = GenCreated ∧ media_type = u "video/mp4"
              | Ok (JSONResponse content status) =>
                  status = 500 ∧ ∃ e, content = JObj [(u "error", JStr (exn_message e))]
              | Raise e =>
                  ∃ e0, utf8_encodable (exn_message e0) = false ∧
                        e = UnicodeEncodeError (u "utf-8")
                              (json_dumps (JObj [(u "error", JStr (exn_message e0))]))
              end ∧
              ((∀ e, utf8_encodable (exn_message e) = true) → ∃ resp, r = Ok resp))
    as Hreport.
  { intros e w2 Hw2. rewrite error_response.
    destruct (utf8_encodable (exn_message e)) eqn:E; eexists _, w2;
      (split; [reflexivity|]); (split; [done|]); split.
    - split; [done|]. by exists e.
    - intros _. by eexists.
    - by exists e.
    - intros Hall. specialize (Hall e). congruence. }
  destruct (ydl_download url' _ (files w1)) as [[reported|e] files']; [|by apply Hreport].
  rewrite streaming_response_header.
  destruct (latin1_encodable (filename_safe title)); [|by apply Hreport].
  eexists _, _. split; [reflexivity|]. split; [done|]. split; [done|].
  intros _. by eexists.
Qed.

(** X14: when the materialization fails with a message that can be written
    as UTF-8, the response is the JSON body [{"error": str(e)}] with status
    500, and the endpoint removes nothing: the files are those the failed
    download left. *)
Theorem materialization_failure_reported now unique_id url url' e files' w :
  clean_youtube_url url = Ok url' →
  ydl_download url' (path_join DOWNLOADS_DIR unique_id ++ u ".%(ext)s") (files w)
  = (Raise e, files') →
  utf8_encodable (exn_message e) = true →
  (serve_download now unique_id url w).1
  = Ok (JSONResponse (JObj [(u "error", JStr (exn_message e))]) 500) ∧
  files (serve_download now unique_id url w).2 = files'.
Proof.
  intros Hurl Hdl Hmsg. rewrite (download_steps _ _ _ _ _ _ _ _ _ Hurl).
  destruct (after_metadata_world ydl_extract_info now url' w) as [Hfiles _].
  destruct (after_metadata ydl_extract_info now url' w) as [title w1].
  cbn [fst snd] in *. rewrite Hfiles, Hdl. rewrite error_response, Hmsg. by cbn.
Qed.

(** X15: when the metadata fetch succeeds with a channel id and the
    parameters of the upsert can be bound, the channel is in the table
    after the request, whether the materialization then succeeds or
    fails: its record is last used at the time of the request and carries
    the uploader as title and the thumbnail of the video, where these are
    known; a record that was there keeps its [saved_at]. *)
Theorem download_records_channel now unique_id url url' info cid w :
  clean_youtube_url url = Ok url' → ydl_extract_info url' = Ok info →
  v_channel_id info = Some cid → cid ≠ [] →
  bindable (Some cid) (opt_str (v_uploader info)) (opt_str (v_thumbnail info)) = true →
  ∃ r, lookup_channel cid (db (serve_download now unique_id url w).2) = Some r ∧
       c_last_used_at r = isoformat now ∧
       (∀ t, v_uploader info = Some t → c_title r = Some t) ∧
       (∀ t, v_thumbnail info = Some t → c_thumbnail r = Some t) ∧
       (∀ r0, lookup_channel cid (db w) = Some r0 → c_saved_at r = c_saved_at r0) ∧
       (lookup_channel cid (db w) = None → c_saved_at r = isoformat now).
Proof.
  intros Hurl Hinfo Hch Hne Hbind. rewrite (download_steps _ _ _ _ _ _ _ _ _ Hurl).
  rewrite <- Hch in Hbind.
  destruct (after_metadata_ok ydl_extract_info now url' w info Hinfo Hbind)
    as (tbl & Hup & ->).
  rewrite Hch in Hup.
  destruct (lookup_upsert _ _ _ _ _ _ Hne Hup) as (t & th & Ht & Hth & Hl).
  apply bind_parameter_opt_str in Ht, Hth. subst t th.
  specialize (Hl cid). rewrite decide_True in Hl by done.
  assert (∃ r, lookup_channel cid tbl = Some r ∧
               c_last_used_at r = isoformat now ∧
               (∀ t, v_uploader info = Some t → c_title r = Some t) ∧
               (∀ t, v_thumbnail info = Some t → c_thumbnail r = Some t) ∧
               (∀ r0, lookup_channel cid (db w) = Some r0 → c_saved_at r = c_saved_at r0) ∧
               (lookup_channel cid (db w) = None → c_saved_at r = isoformat now))
    as Hrecord.
  { eexists. split; [done|].
    destruct (lookup_channel cid (db w)) as [r0|]; cbn;
      (split; [done|]); (split; [by intros t ->|]); (split; [by intros t ->|]);
      (split; [|done]).
    - by intros r1 [= <-].
    - done. }
  cbv beta iota zeta. cbn [db files calls].
  destruct (ydl_download url' _ _) as [[reported|e] files'];
    [destruct (new_streaming_response _ _ _)|]; exact Hrecord.
Qed.

(** X16: a download whose materialization succeeds and whose file name can
    be written as Latin-1, read to its end, delivers the bytes of the file
    at the resolved path, and the file no longer exists afterwards. *)
Theorem download_streams_and_deletes now unique_id url url' reported files' data w :
  clean_youtube_url url = Ok url' →
  ydl_download url' (path_join DOWNLOADS_DIR unique_id ++ u ".%(ext)s") (files w)
  = (Ok reported, files') →
  (∀ info, ydl_extract_info url' = Ok info →
     latin1_encodable (display_name (v_title info)) = true) →
  files' !! resolve_final_path reported files' = Some data →
  ∃ headers w' chunks,
    serve_download now unique_id url w
    = (Ok (StreamingResponse (resolve_final_path reported files') GenCreated
             (u "video/mp4") headers), w') ∧
    drain (S (length data)) (resolve_final_path reported files') GenCreated (files w')
    = Some (chunks, StopIteration, delete (resolve_final_path reported files') files') ∧
    concat chunks = data ∧
    delete (resolve_final_path reported files') files'
      !! resolve_final_path reported files' = None.
Proof.
  intros Hurl Hdl Hlatin Hdata.
  rewrite (download_materialized _ _ _ _ _ _ _ _ _ _ _ Hurl Hdl).
  pose proof (download_name_latin1 now url' w Hlatin) as Hname.
  destruct (after_metadata ydl_extract_info now url' w) as [title w1].
  cbn [fst snd] in *. rewrite Hname.
  destruct (drain_removes_file _ _ _ (S (length data)) Hdata) as (chunks & Hd & Hc & Hg);
    [lia|].
  by eexists _, _, chunks.
Qed.

(** X26: a download whose title keeps a character that Latin-1 cannot
    write is not streamed, although its materialization succeeded: the
    construction of the response raises the [UnicodeEncodeError] of the
    header value, the response is the JSON body of that error with status
    500 (when its message can be written as UTF-8), and the downloaded file
    stays in the directory. *)
Theorem download_name_not_latin1 now unique_id url url' info reported files' w :
  clean_youtube_url url = Ok url' → ydl_extract_info url' = Ok info →
  bindable (v_channel_id info) (opt_str (v_uploader info)) (opt_str (v_thumbnail info))
  = true →
  latin1_encodable (display_name (v_title info)) = false →
  ydl_download url' (path_join DOWNLOADS_DIR unique_id ++ u ".%(ext)s") (files w)
  = (Ok reported, files') →
  let e := UnicodeEncodeError (u "latin-1")
             (u "attachment; filename=" ++ display_name (v_title info) ++ u ".mp4") in
  utf8_encodable (exn_message e) = true →
  (serve_download now unique_id url w).1
  = Ok (JSONResponse (JObj [(u "error", JStr (exn_message e))]) 500) ∧
  files (serve_download now unique_id url w).2 = files'.
Proof.
  intros Hurl Hinfo Hbind Hlatin Hdl e Hmsg. subst e.
  rewrite (download_materialized _ _ _ _ _ _ _ _ _ _ _ Hurl Hdl).
  destruct (after_metadata_ok ydl_extract_info now url' w info Hinfo Hbind)
    as (tbl & _ & ->).
  rewrite filename_safe_latin1, Hlatin, filename_safe_display, error_response, Hmsg.
  by cbn.
Qed.

(** X27: when the metadata was fetched but the upsert of its channel
    raises, the title of the metadata is not used: the file is streamed
    under the name [video.mp4] and the table is as it was. *)
Theorem download_unrecorded_channel now unique_id url url' info reported files' w :
  clean_youtube_url url = Ok url' → ydl_extract_info url' = Ok info →
  bindable (v_channel_id info) (opt_str (v_uploader info)) (opt_str (v_thumbnail info))
  = false →
  ydl_download url' (path_join DOWNLOADS_DIR unique_id ++ u ".%(ext)s") (files w)
  = (Ok reported, files') →
  serve_download now unique_id url w
  = (Ok (StreamingResponse (resolve_final_path reported files') GenCreated
           (u "video/mp4")
           [(u "Content-Disposition", u "attachment; filename=video.mp4")]),
     {| db := db w; files := files'; calls := calls w |}).
Proof.
  intros Hurl Hinfo Hbind Hdl.
  rewrite (download_materialized _ _ _ _ _ _ _ _ _ _ _ Hurl Hdl).
  rewrite (after_metadata_unbindable ydl_extract_info now url' w info Hinfo Hbind).
  by rewrite filename_safe_video.
Qed.

End DownloadMore.

(** ** The metadata endpoint *)

Section MetadataEndpointFacts.
Context `{Unicode}.
Variable ydl_extract_info : str → result video_info.
Variable exn_message : exn → str.

Local Abbreviation serve_video_info := (get_video_info ydl_extract_info exn_message).

(** The endpoint, step by step. *)
Lemma get_video_info_steps now url url' save w :
  clean_youtube_url url = Ok url' →
  serve_video_info now url save w
  = match ydl_extract_info url' with
    | Ok data =>
        let respond (w1 : world) :=
          match new_json_response (json_of_info data) 200 with
          | Ok resp => (Ok resp, w1)
          | Raise e =>
              (Raise (HTTPException 400 (u "Failed to extract: " ++ exn_message e)), w1)
          end in
        if (save =? 1)%Z && truthy (opt_str (v_channel_id data))
        then match upsert_channel now (v_channel_id data) (opt_str (v_uploader data))
                     (opt_str (v_thumbnail data)) (db w) with
             | Ok tbl => respond {| db := tbl; files := files w; calls := calls w |}
             | Raise e =>
                 (Raise (HTTPException 400 (u "Failed to extract: " ++ exn_message e)), w)
             end
        else respond w
    | Raise e =>
        (Raise (HTTPException 400 (u "Failed to extract: " ++ exn_message e)), w)
    end.
Proof.
  intros Hurl.
  cbv beta iota zeta delta
    [get_video_info try_except bind lift ret raise extract_info do_upsert].
  rewrite Hurl. destruct (ydl_extract_info url') as [data|e]; [|done].
  destruct data as [vid vtitle vdur vthumb vupl vch vurl vdate vweb].
  cbn [v_channel_id v_uploader v_thumbnail].
  destruct ((save =? 1)%Z && truthy (opt_str vch));
    [destruct (upsert_channel now vch _ _ (db w)); [|done]|];
    by destruct (new_json_response _ _).
Qed.

(** X17: the metadata endpoint answers with status 200 and the nine fields
    of the extracted metadata when the extraction succeeds, the upsert of
    the channel -- made when [save] is 1 and the metadata has a channel id
    that is not empty -- does not raise, and the JSON text of the metadata
    can be written as UTF-8; the table is then the one the upsert left.  It
    fails with status 400 and the detail ["Failed to extract: " + str(e)]
    when the extraction raises [e], and then nothing has changed; when the
    upsert raises [e], and then nothing has changed either; and when the
    rendering of the metadata raises the [UnicodeEncodeError] [e] of its
    JSON text, after the upsert. *)
Theorem video_info_outcomes now url save w :
  ∃ url', clean_youtube_url url = Ok url' ∧
    let failed (e : exn) : result response :=
      Raise (HTTPException 400 (u "Failed to extract: " ++ exn_message e)) in
    match ydl_extract_info url' with
    | Ok data =>
        let saving := (save =? 1)%Z && truthy (opt_str (v_channel_id data)) in
        let body :=
          JObj [(u "id", opt_str (v_id data));
                (u "title", opt_str (v_title data));
                (u "duration", match v_duration data with
                               | Some n => JInt (Z.of_N n)
                               | None => JNull
                               end);
                (u "thumbnail", opt_str (v_thumbnail data));
                (u "uploader", opt_str (v_uploader data));
                (u "channel_id", opt_str (v_channel_id data));
                (u "channel_url", opt_str (v_channel_url data));
                (u "upload_date", opt_str (v_upload_date data));
                (u "webpage_url", opt_str (v_webpage_url data))] in
        match (if saving
               then upsert_channel now (v_channel_id data) (opt_str (v_uploader data))
                      (opt_str (v_thumbnail data)) (db w)
               else Ok (db w)) with
        | Ok tbl =>
            serve_video_info now url save w
            = (if utf8_encodable (json_dumps body) then Ok (JSONResponse body 200)
               else failed (UnicodeEncodeError (u "utf-8") (json_dumps body)),
               {| db := tbl; files := files w; calls := calls w |})
        | Raise e => serve_video_info now url save w = (failed e, w)
        end
    | Raise e => serve_video_info now url save w = (failed e, w)
    end.
Proof.
  destruct (clean_youtube_url_ok url) as [url' Hurl]. exists url'. split; [done|].
  rewrite (get_video_info_steps _ _ _ _ _ Hurl).
  destruct (ydl_extract_info url') as [data|e]; [|done].
  cbv zeta. change (JObj _) with (json_of_info data).
  assert (∀ w1 : world,
            match new_json_response (json_of_info data) 200 with
            | Ok resp => (Ok resp, w1)
            | Raise e =>
                (Raise (HTTPException 400 (u "Failed to extract: " ++ exn_message e)), w1)
            end
            = (if utf8_encodable (json_dumps (json_of_info data))
               then Ok (JSONResponse (json_of_info data) 200)
               else Raise (HTTPException 400
                             (u "Failed to extract: "
                              ++ exn_message
                                   (UnicodeEncodeError (u "utf-8")
                                      (json_dumps (json_of_info data))))), w1))
    as Hrespond.
  { intros w1. unfold new_json_response, encode_utf8.
    by destruct (utf8_encodable _). }
  destruct ((save =? 1)%Z && truthy (opt_str (v_channel_id data))).
  - destruct (upsert_channel now _ _ _ (db w)) as [tbl|e]; [apply Hrespond|done].
  - rewrite Hrespond. by destruct w.
Qed.

(** X18: the metadata endpoint never touches the files and never calls the
    external API, and it changes the channel table only when [save] is 1 and
    the extraction gave a channel id that is not empty. *)
Theorem video_info_writes_only_on_save now url save w :
  let w' := (serve_video_info now url save w).2 in
  files w' = files w ∧ calls w' = calls w ∧
  (db w' ≠ db w →
   save = 1%Z ∧
   ∃ url' data cid, clean_youtube_url url = Ok url' ∧
     ydl_extract_info url' = Ok data ∧ v_channel_id data = Some cid ∧ cid ≠ []).
Proof.
  destruct (clean_youtube_url_ok url) as [url' Hurl].
  rewrite (get_video_info_steps _ _ _ _ _ Hurl).
  destruct (ydl_extract_info url') as [data|e] eqn:Hdata; [|done].
  cbv zeta.
  destruct (Z.eqb_spec save 1) as [->|Hsave]; cbn [andb];
    [|by destruct (new_json_response _ _)].
  destruct (v_channel_id data) as [[|c cid]|] eqn:Hch; cbn [opt_str truthy];
    [by destruct (new_json_response _ _)| |by destruct (new_json_response _ _)].
  destruct (upsert_channel now _ _ _ (db w)) as [tbl|e]; [|done].
  destruct (new_json_response _ _); cbn; (split; [done|]); (split; [done|]);
    intros _; (split; [done|]); by exists url', data, (c :: cid).
Qed.

(** X19: with [save] set to 1, a channel id in the metadata and parameters
    of the upsert that can be bound, the channel is in the table
    afterwards: its record is last used at the time of the call and carries
    the uploader as title and the thumbnail of the video, where these are
    known. *)
Theorem video_info_saves_channel now url url' data cid w :
  clean_youtube_url url = Ok url' → ydl_extract_info url' = Ok data →
  v_channel_id data = Some cid → cid ≠ [] →
  bindable (Some cid) (opt_str (v_uploader data)) (opt_str (v_thumbnail data)) = true →
  ∃ r, lookup_channel cid (db (serve_video_info now url 1 w).2) = Some r ∧
       c_last_used_at r = isoformat now ∧
       (∀ t, v_uploader data = Some t → c_title r = Some t) ∧
       (∀ t, v_thumbnail data = Some t → c_thumbnail r = Some t).
Proof.
  intros Hurl Hdata Hch Hne Hbind.
  rewrite (get_video_info_steps _ _ _ _ _ Hurl), Hdata, Hch.
  destruct cid as [|c cid]; [done|]. cbv zeta. cbn [Z.eqb Pos.eqb andb opt_str truthy].
  destruct (upsert_channel_bindable now (Some (c :: cid)) (opt_str (v_uploader data))
              (opt_str (v_thumbnail data)) (db w) Hbind) as [tbl Htbl].
  rewrite Htbl.
  destruct (lookup_upsert _ _ _ _ _ _ Hne Htbl) as (t & th & Ht & Hth & Hl).
  apply bind_parameter_opt_str in Ht, Hth. subst t th.
  specialize (Hl (c :: cid)). rewrite decide_True in Hl by done.
  assert (db (match new_json_response (json_of_info data) 200 with
              | Ok resp => (Ok resp, {| db := tbl; files := files w; calls := calls w |})
              | Raise e =>
                  (Raise (HTTPException 400 (u "Failed to extract: " ++ exn_message e)),
                   {| db := tbl; files := files w; calls := calls w |})
              end).2 = tbl) as -> by (by destruct (new_json_response _ _)).
  eexists. split; [done|].
  destruct (lookup_channel (c :: cid) (db w)); cbn; (split; [done|]);
    split; by intros t ->.
Qed.

End MetadataEndpointFacts.

(** ** The channel-video lister *)

Lemma rbind_ok {A} (r : result A) : rbind r Ok = r.
Proof. by destruct r. Qed.

Lemma jor_page_token page_token :
  jor (opt_str page_token) (JStr [])
  = JStr (match page_token with Some token => token | None => [] end).
Proof. by destruct page_token as [[|c t]|]. Qed.

Section ListerFacts.
Variable requests_get : request → result http_response.
Variable YOUTUBE_API_KEY : option str.

Local Abbreviation list_videos := (channel_videos requests_get YOUTUBE_API_KEY).

(** One step of a handler run: the next test of the run is decided. *)
Ltac mstep H :=
  cbv beta iota in H; cbn [db files calls] in H;
  match type of H with
  | match ?x with _ => _ end = _ => destruct x eqn:?
  | (if ?b then _ else _) _ = _ => destruct b eqn:?
  end.

Lemma rmap_length {A B} (f : A → result B) l l' :
  rmap f l = Ok l' → length l' = length l.
Proof.
  revert l'. induction l as [|x l IH]; intros l'; simpl; [by intros [= <-]|].
  destruct (f x); simpl; [|done]. destruct (rmap f l); simpl; [|done].
  intros [= <-]. simpl. f_equal. by apply IH.
Qed.

(** What a run of the lister with a credential leaves behind. *)
Lemma channel_videos_run key now channel_id page_token max_results w r w' :
  YOUTUBE_API_KEY = Some key → key ≠ [] →
  list_videos now channel_id page_token max_results w = (r, w') →
  files w' = files w ∧
  (∃ new, calls w' = new ++ calls w ∧ (length new ≤ 2)%nat) ∧
  (∀ e, r = Raise e → db w' = db w).
Proof.
  intros -> Hkey. destruct key as [|k key]; [done|].
  unfold channel_videos. cbn [opt_str truthy negb].
  cbv beta iota zeta delta [bind lift ret raise do_get do_upsert].
  intros Hrun.
  repeat (mstep Hrun;
          try (injection Hrun as <- <-; cbn [db files calls];
               split; [done|]; split; [|done];
               first [ exists []; split; [reflexivity|cbn; lia]
                     | eexists [_]; split; [reflexivity|cbn; lia]
                     | eexists [_; _]; split; [reflexivity|cbn; lia] ])).
  all: match goal with
       | Hp : match upsert_channel ?n ?i ?t ?th ?tbl with _ => _ end = _ |- _ =>
           destruct (upsert_channel n i t th tbl) as [tbl'|e'] eqn:Hup;
           injection Hp as ? <-; try done
       end.
  all: injection Hrun as <- <-; cbn [db files calls].
  all: try match goal with
         | Hi : rbind (jget _ _ ?d) jiter = Ok _, Hn : jget _ _ ?d = Raise _ |- _ =>
             exfalso; destruct d; try done; simpl in Hn;
             by destruct (assoc _ _)
         end.
  all: split; [done|]; split; [eexists [_; _]; split; [reflexivity|cbn; lia]|]; done.
Qed.

(** X20: with a credential, a reply of the channel call whose status is not
    200 is forwarded: the lister fails with that status and the body of the
    reply as detail, after this one call, and the table is as it was. *)
Theorem upstream_error_forwarded key now channel_id page_token max_results w resp :
  YOUTUBE_API_KEY = Some key → key ≠ [] →
  requests_get (channels_request key channel_id) = Ok resp →
  status_code resp ≠ 200 →
  list_videos now channel_id page_token max_results w
  = (Raise (HTTPException (status_code resp) (text resp)),
     {| db := db w; files := files w;
        calls := channels_request key channel_id :: calls w |}).
Proof.
  intros -> Hkey Hresp Hstatus. destruct key as [|k key]; [done|].
  unfold channel_videos. cbn [opt_str truthy negb].
  cbv beta iota zeta delta [bind lift ret raise do_get do_upsert].
  fold (channels_request (k :: key) channel_id). rewrite Hresp.
  apply N.eqb_neq in Hstatus. by rewrite Hstatus.
Qed.

(** X21: with a credential, a channel call that answers 200 with no items
    -- the key missing or the list empty -- makes the lister fail with
    status 404, after this one call, and the table is as it was. *)
Theorem unknown_channel_not_found key now channel_id page_token max_results w
    resp fields :
  YOUTUBE_API_KEY = Some key → key ≠ [] →
  requests_get (channels_request key channel_id) = Ok resp →
  status_code resp = 200 → json_body resp = Ok (JObj fields) →
  assoc (u "items") fields = None ∨ assoc (u "items") fields = Some (JArr []) →
  list_videos now channel_id page_token max_results w
  = (Raise (HTTPException 404 (u "Channel not found")),
     {| db := db w; files := files w;
        calls := channels_request key channel_id :: calls w |}).
Proof.
  intros -> Hkey Hresp Hstatus Hbody Hitems. destruct key as [|k key]; [done|].
  unfold channel_videos. cbn [opt_str truthy negb].
  cbv beta iota zeta delta [bind lift ret raise do_get do_upsert].
  fold (channels_request (k :: key) channel_id). rewrite Hresp, Hstatus, Hbody.
  cbn [N.eqb Pos.eqb negb jget]. by destruct Hitems as [-> | ->].
Qed.

Lemma key_cases :
  (YOUTUBE_API_KEY = None ∨ YOUTUBE_API_KEY = Some []) ∨
  ∃ key, YOUTUBE_API_KEY = Some key ∧ key ≠ [].
Proof.
  destruct YOUTUBE_API_KEY as [[|k key]|]; [left; by right|right|left; by left].
  by exists (k :: key).
Qed.

Lemma channel_videos_no_key now channel_id page_token max_results w :
  YOUTUBE_API_KEY = None ∨ YOUTUBE_API_KEY = Some [] →
  ∃ e, list_videos now channel_id page_token max_results w = (Raise e, w).
Proof. intros Hk. unfold channel_videos. destruct Hk as [-> | ->]; by eexists. Qed.

(** X22: a run of the lister makes at most two calls to the external API,
    never touches the files, and changes the channel table only when it
    succeeds: a failing run leaves the table as it was. *)
Theorem lister_failure_keeps_cache now channel_id page_token max_results w r w' :
  channel_videos requests_get YOUTUBE_API_KEY now channel_id page_token max_results w
  = (r, w') →
  files w' = files w ∧
  (∃ new, calls w' = new ++ calls w ∧ (length new ≤ 2)%nat) ∧
  (∀ e, r = Raise e → db w' = db w).
Proof.
  intros Hrun. destruct key_cases as [Hk|(key & Hk & Hne)].
  - destruct (channel_videos_no_key now channel_id page_token max_results w Hk)
      as [e He].
    rewrite He in Hrun. injection Hrun as <- <-.
    split; [done|]. split; [exists []; split; [done|cbn; lia]|done].
  - by apply (channel_videos_run key now channel_id page_token max_results).
Qed.

(** X23: with a credential, when the channel call answers 200 with a list
    of items whose first holds the uploads playlist, the title and the
    default thumbnail of the channel, and the playlist call -- for that
    playlist, with the page size and the page token passed through --
    answers 200 with a page of entries that can be summarized, and the
    channel can be upserted with the title and the thumbnail of the reply,
    then the lister has made exactly these two calls in this order, the
    table is the result of that upsert, and the result holds the channel
    with the title and the thumbnail of the reply, one video per entry in
    the order of the page, and the token of the next page, null when the
    page has none. *)
Theorem lister_success key now channel_id page_token max_results w
    ch body item rest uploads ch_title ch_thumb pl data entries videos tbl :
  YOUTUBE_API_KEY = Some key → key ≠ [] →
  requests_get (channels_request key channel_id) = Ok ch →
  status_code ch = 200 → json_body ch = Ok (JObj body) →
  assoc (u "items") body = Some (JArr (item :: rest)) →
  jpath [u "contentDetails"; u "relatedPlaylists"; u "uploads"] item = Ok uploads →
  jpath [u "snippet"; u "title"] item = Ok ch_title →
  jpath [u "snippet"; u "thumbnails"; u "default"; u "url"] item = Ok ch_thumb →
  requests_get (playlist_request key uploads page_token max_results) = Ok pl →
  status_code pl = 200 → json_body pl = Ok (JObj data) →
  field (u "items") (JArr []) data = JArr entries →
  rmap video_of_item entries = Ok videos →
  upsert_channel now (Some channel_id) ch_title ch_thumb (db w) = Ok tbl →
  list_videos now channel_id page_token max_results w
  = (Ok (JObj [(u "channel", JObj [(u "id", JStr channel_id); (u "title", ch_title);
                                    (u "thumbnail", ch_thumb)]);
               (u "videos", JArr videos);
               (u "nextPageToken", field (u "nextPageToken") JNull data)]),
     {| db := tbl; files := files w;
        calls := playlist_request key uploads page_token max_results
                 :: channels_request key channel_id :: calls w |}) ∧
  length videos = length entries.
Proof.
  intros -> Hkey Hch Hst Hbody Hitems Hup Htitle Hthumb Hpl Hst2 Hdata Hentries
    Hvideos Hups.
  split; [|by eapply rmap_length].
  destruct key as [|k key]; [done|].
  unfold channel_videos. cbn [opt_str truthy negb].
  cbv beta iota zeta delta [bind lift ret raise do_get do_upsert].
  rewrite jor_page_token.
  fold (channels_request (k :: key) channel_id). rewrite Hch, Hst.
  cbn [N.eqb Pos.eqb negb]. rewrite Hbody. cbn [jget]. rewrite Hitems.
  cbn [truthy negb jfirst].
  cbn [jpath] in Hup, Htitle, Hthumb.
  destruct (jitem (u "contentDetails") item) as [cd|]; cbn [rbind] in Hup |- *; [|done].
  destruct (jitem (u "relatedPlaylists") cd) as [rp|]; cbn [rbind] in Hup |- *; [|done].
  rewrite rbind_ok in Hup. rewrite Hup.
  destruct (jitem (u "snippet") item) as [sn|]; cbn [rbind] in Htitle, Hthumb |- *;
    [|done].
  rewrite rbind_ok in Htitle. rewrite Htitle.
  destruct (jitem (u "thumbnails") sn) as [th|]; cbn [rbind] in Hthumb |- *; [|done].
  destruct (jitem (u "default") th) as [df|]; cbn [rbind] in Hthumb |- *; [|done].
  rewrite rbind_ok in Hthumb. rewrite Hthumb.
  cbn [db files calls].
  fold (playlist_request (k :: key) uploads page_token max_results). rewrite Hpl, Hst2.
  cbn [N.eqb Pos.eqb negb]. rewrite Hdata. unfold field in *. cbn [jget].
  destruct (assoc (u "items") data) as [v|]; [subst v|injection Hentries as <-];
    cbn [rbind jiter]; rewrite Hvideos; cbn [rbind db files calls]; rewrite Hups;
    by destruct (assoc (u "nextPageToken") data).
Qed.

End ListerFacts.

(** X24: the summary of a playlist entry takes its thumbnail from the
    [medium] variant when the entry has one, from the [default] variant when
    it has no [medium] one, and has a null thumbnail when it has neither. *)
Theorem video_thumbnail_preference fields sn cd th :
  assoc (u "snippet") fields = Some (JObj sn) →
  assoc (u "contentDetails") fields = Some (JObj cd) →
  assoc (u "thumbnails") sn = Some (JObj th) →
  (∀ m, assoc (u "medium") th = Some (JObj m) → m ≠ [] →
     ∃ v, video_of_item (JObj fields) = Ok v ∧
          jget (u "thumbnail") JNull v
          = Ok (match assoc (u "url") m with Some x => x | None => JNull end)) ∧
  (∀ d, assoc (u "medium") th = None → assoc (u "default") th = Some (JObj d) → d ≠ [] →
     ∃ v, video_of_item (JObj fields) = Ok v ∧
          jget (u "thumbnail") JNull v
          = Ok (match assoc (u "url") d with Some x => x | None => JNull end)) ∧
  (assoc (u "medium") th = None → assoc (u "default") th = None →
     ∃ v, video_of_item (JObj fields) = Ok v ∧ jget (u "thumbnail") JNull v = Ok JNull).
Proof.
  intros Hsn Hcd Hth.
  assert (∀ a b c d e, jget (u "thumbnail") JNull
            (JObj [(u "videoId", a); (u "title", b); (u "thumbnail", c);
                   (u "publishedAt", d); (u "channelTitle", e)]) = Ok c) as Hget.
  { intros. by vm_compute. }
  split; [|split].
  - intros m Hm Hne. unfold video_of_item. cbn [jget]. rewrite Hsn, Hcd. cbn [rbind jget].
    rewrite Hth. cbn [rbind jget]. rewrite Hm. cbn [rbind].
    destruct m as [|f m]; [done|].
    destruct (assoc (u "default") th); cbn [rbind jor truthy jget];
      destruct (assoc (u "url") (f :: m)); cbn [rbind];
      destruct (assoc (u "videoId") cd), (assoc (u "title") sn),
        (assoc (u "publishedAt") sn), (assoc (u "channelTitle") sn); cbn [rbind];
      eexists; (split; [done|]); apply Hget.
  - intros d Hm Hd Hne. unfold video_of_item. cbn [jget]. rewrite Hsn, Hcd.
    cbn [rbind jget]. rewrite Hth. cbn [rbind jget]. rewrite Hm, Hd. cbn [rbind].
    destruct d as [|f d]; [done|]. cbn [rbind jor truthy jget].
    destruct (assoc (u "url") (f :: d)); cbn [rbind];
      destruct (assoc (u "videoId") cd), (assoc (u "title") sn),
        (assoc (u "publishedAt") sn), (assoc (u "channelTitle") sn); cbn [rbind];
      eexists; (split; [done|]); apply Hget.
  - intros Hm Hd. unfold video_of_item. cbn [jget]. rewrite Hsn, Hcd.
    cbn [rbind jget]. rewrite Hth. cbn [rbind jget]. rewrite Hm, Hd.
    cbn [rbind jor truthy jget assoc].
    destruct (assoc (u "videoId") cd), (assoc (u "title") sn),
      (assoc (u "publishedAt") sn), (assoc (u "channelTitle") sn); cbn [rbind];
      eexists; (split; [done|]); apply Hget.
Qed.

(** ** The resolved path of a download *)

Lemma rfind_from_absent c s i last : ¬ In c s → rfind_from c s i last = last.
Proof.
  revert i last. induction s as [|x s IH]; intros i last Hno; simpl; [done|].
  rewrite IH by (intros Hin; apply Hno; by right).
  destruct (N.eqb_spec x c) as [->|Hx]; [|done]. destruct Hno. by left.
Qed.

Lemma rfind_from_last c a b i last :
  ¬ In c b → rfind_from c (a ++ c :: b) i last = (i + Z.of_nat (length a))%Z.
Proof.
  intros Hb. revert i last. induction a as [|x a IH]; intros i last; simpl.
  - rewrite N.eqb_refl, rfind_from_absent by done. lia.
  - rewrite IH. lia.
Qed.

Lemma rfind_from_app c a b i last :
  ¬ In c b → rfind_from c (a ++ b) i last = rfind_from c a i last.
Proof.
  intros Hb. revert i last. induction a as [|x a IH]; intros i last; simpl.
  - by apply rfind_from_absent.
  - apply IH.
Qed.

Lemma rfind_from_bound c s i last :
  (last < i)%Z → (rfind_from c s i last < i + Z.of_nat (length s))%Z.
Proof.
  revert i last. induction s as [|x s IH]; intros i last Hlast; simpl; [lia|].
  specialize (IH (i + 1)%Z (if x =? c then i else last)).
  destruct (x =? c); lia.
Qed.

(** The index of the last separator of a path whose last component is
    [tail]. *)
Lemma rfind_separator dir tail :
  dir = [] ∨ (∃ d, dir = d ++ [47]) → ¬ In 47 tail →
  rfind 47 (dir ++ tail) = (Z.of_nat (length dir) - 1)%Z.
Proof.
  intros [->|[d ->]] Htail; unfold rfind.
  - simpl. by rewrite rfind_from_absent.
  - rewrite <- app_assoc. simpl. rewrite rfind_from_last by done.
    rewrite length_app. simpl. lia.
Qed.

(** [splitext] cuts a path at the last dot of its last component, when
    the component holds another character before that dot. *)
Lemma splitext_extension dir name ext c :
  dir = [] ∨ (∃ d, dir = d ++ [47]) → ¬ In 47 name → In c name → c ≠ 46 →
  ¬ In 46 ext → ¬ In 47 ext →
  splitext (dir ++ name ++ 46 :: ext) = (dir ++ name, 46 :: ext).
Proof.
  intros Hdir Hname Hc Hc46 Hext46 Hext47. unfold splitext.
  rewrite (rfind_separator dir (name ++ 46 :: ext) Hdir).
  2: { intros [Hin|[Heq|Hin]]%in_app_iff; [by apply Hname|done|by apply Hext47]. }
  assert (rfind 46 (dir ++ name ++ 46 :: ext) = Z.of_nat (length dir + length name)) as ->.
  { unfold rfind. rewrite app_assoc, rfind_from_last by done. rewrite length_app. lia. }
  assert ((Z.of_nat (length dir) - 1 <? Z.of_nat (length dir + length name))%Z = true)
    as -> by (apply Z.ltb_lt; lia).
  unfold slice.
  replace (Z.to_nat (Z.of_nat (length dir) - 1 + 1)) with (length dir) by lia.
  replace (Z.to_nat (Z.of_nat (length dir + length name)) - length dir)%nat
    with (length name) by lia.
  rewrite drop_app_length, take_app_length.
  assert (existsb (λ x, negb (x =? 46)) name = true) as ->.
  { apply existsb_exists. exists c. split; [done|]. by apply negb_true_iff, N.eqb_neq. }
  cbn [andb]. rewrite Nat2Z.id, app_assoc.
  by rewrite take_app_length', drop_app_length' by (by rewrite length_app).
Qed.

(** [splitext] finds no extension in a path whose last component holds no
    dot, or holds dots only at its start. *)
Lemma splitext_no_extension dir k rest :
  dir = [] ∨ (∃ d, dir = d ++ [47]) → ¬ In 47 rest → ¬ In 46 rest →
  splitext (dir ++ replicate k 46 ++ rest) = (dir ++ replicate k 46 ++ rest, []).
Proof.
  intros Hdir Hrest47 Hrest46. unfold splitext.
  rewrite (rfind_separator dir (replicate k 46 ++ rest) Hdir).
  2: { intros [Hin|Hin]%in_app_iff; [|by apply Hrest47].
       apply list_elem_of_In, elem_of_replicate in Hin as [Heq _]. done. }
  set (dot := rfind 46 (dir ++ replicate k 46 ++ rest)).
  assert (dot < Z.of_nat (length dir + k))%Z as Hdot.
  { unfold dot, rfind. rewrite app_assoc, rfind_from_app by done.
    pose proof (rfind_from_bound 46 (dir ++ replicate k 46) 0 (-1)) as Hb.
    rewrite length_app, length_replicate in Hb. lia. }
  destruct (Z.ltb_spec (Z.of_nat (length dir) - 1) dot) as [Hlt|Hge]; [|done].
  cbn [andb]. unfold slice.
  replace (Z.to_nat (Z.of_nat (length dir) - 1 + 1)) with (length dir) by lia.
  rewrite drop_app_length.
  rewrite take_app_le by (rewrite length_replicate; lia).
  rewrite take_replicate.
  assert (∀ n, existsb (λ x, negb (x =? 46)) (replicate n 46) = false) as ->; [|done].
  intros n. induction n as [|n IH]; [done|]. simpl. by rewrite IH.
Qed.

Section ResolvedPath.
Context `{Unicode}.
Variable ydl_extract_info : str → result video_info.
Variable ydl_download : str → str → fs → result str * fs.
Variable exn_message : exn → str.
Variable DOWNLOADS_DIR : str.

(** X25: a download whose file name can be written as Latin-1 streams from
    the path the downloader reported when that path ends in [.mp4];
    otherwise from the path with its extension replaced by [.mp4] when that
    file exists, and from the reported path when it does not.  The
    extension replaced starts at the last dot of the last component of the
    path, when the component holds another character before that dot; a
    path whose last component has no such dot has no extension, and
    [.mp4] is added to it. *)
Theorem download_streams_reported_or_merged now unique_id url url' reported files' w :
  clean_youtube_url url = Ok url' →
  ydl_download url' (path_join DOWNLOADS_DIR unique_id ++ u ".%(ext)s") (files w)
  = (Ok reported, files') →
  (∀ info, ydl_extract_info url' = Ok info →
     latin1_encodable (display_name (v_title info)) = true) →
  ∃ path headers,
    (download ydl_extract_info ydl_download exn_message DOWNLOADS_DIR
       now unique_id url w).1
    = Ok (StreamingResponse path GenCreated (u "video/mp4") headers) ∧
    (endswith (u ".mp4") reported = true → path = reported) ∧
    (endswith (u ".mp4") reported = false →
     ∃ stem,
       path = (if bool_decide (is_Some (files' !! (stem ++ u ".mp4")))
               then stem ++ u ".mp4" else reported) ∧
       (∀ dir name ext c,
          reported = dir ++ name ++ 46 :: ext →
          dir = [] ∨ (∃ d, dir = d ++ [47]) → ¬ In 47 name → In c name → c ≠ 46 →
          ¬ In 46 ext → ¬ In 47 ext →
          stem = dir ++ name) ∧
       (∀ dir k rest,
          reported = dir ++ replicate k 46 ++ rest →
          dir = [] ∨ (∃ d, dir = d ++ [47]) → ¬ In 47 rest → ¬ In 46 rest →
          stem = reported)).
Proof.
  intros Hurl Hdl Hlatin.
  rewrite (download_materialized _ _ _ _ _ _ _ _ _ _ _ Hurl Hdl).
  pose proof (download_name_latin1 ydl_extract_info now url' w Hlatin) as Hname.
  destruct (after_metadata ydl_extract_info now url' w) as [title w1].
  cbn [fst snd] in *. rewrite Hname. cbn [fst].
  eexists _, _. split; [done|].
  unfold resolve_final_path, path_exists.
  destruct (endswith (u ".mp4") reported) eqn:E; cbn [negb]; (split; [done|]);
    intros [=].
  exists (splitext reported).1. split; [done|]. split.
  - intros dir name ext c -> Hdir Hname' Hc Hc46 Hext46 Hext47.
    by rewrite (splitext_extension dir name ext c).
  - intros dir k rest -> Hdir Hrest47 Hrest46.
    by rewrite (splitext_no_extension dir k rest).
Qed.

End ResolvedPath.

(** ** Instances of the further statements *)

Lemma upsert_fails_only_at_binding_witness :
  ∃ tbl', upserts [acme t1; other t2; acme t3] [] = Ok tbl'.
Proof.
  apply (proj2 (upsert_fails_only_at_binding t1 None JNull JNull [])).
  repeat apply List.Forall_cons; try apply List.Forall_nil; by vm_compute.
Defined.

Lemma upsert_other_rows_untouched_witness :
  filter (λ r, c_id r = u "UCxyz") [acme_row; inserted (u "UCabc") None None (isoformat t2)]
  = filter (λ r, c_id r = u "UCxyz") [acme_row].
Proof.
  apply (upsert_other_rows_untouched t2 (Some (u "UCabc")) JNull JNull [acme_row]).
  - vm_compute. reflexivity.
  - by vm_compute.
Defined.

Lemma upsert_then_lookup_witness :
  ∃ tbl' r,
    upsert_channel t1 (Some (u "UCxyz")) (JStr (u "Acme")) (JInt 7) [] = Ok tbl' ∧
    lookup_channel (u "UCxyz") tbl' = Some r ∧ c_last_used_at r = isoformat t1 ∧
    r = inserted (u "UCxyz") (Some (u "Acme")) (Some (u "7")) (isoformat t1).
Proof.
  destruct (upsert_then_lookup t1 (u "UCxyz") (JStr (u "Acme")) (JInt 7)
              (Some (u "Acme")) (Some (u "7")) [])
    as (tbl' & r & Hup & Hr & _ & Hused & Hnew & _).
  - by vm_compute.
  - reflexivity.
  - reflexivity.
  - reflexivity.
  - exists tbl', r. split; [done|]. split; [done|]. split; [done|]. by apply Hnew.
Defined.

Lemma upserts_keep_records_witness :
  ∃ new, map c_id [acme_row; inserted (u "UCabc") None None (isoformat t2)]
         = map c_id [acme_row] ++ new.
Proof.
  apply (upserts_keep_records [other t2; acme t3] [acme_row]
           [updated (Some (u "Acme")) (Some (u "http://t/1.jpg")) (isoformat t3) acme_row;
            inserted (u "UCabc") None None (isoformat t2)]).
  vm_compute. reflexivity.
Defined.

Lemma last_used_never_decreases_witness :
  ∃ r', lookup_channel (u "UCxyz")
          [updated (Some (u "Acme")) (Some (u "http://t/1.jpg")) (isoformat t3) acme_row;
           inserted (u "UCabc") None None (isoformat t2)] = Some r' ∧
        str_le (c_last_used_at acme_row) (c_last_used_at r').
Proof.
  apply (last_used_never_decreases [other t2; acme t3] [acme_row]).
  - simpl. repeat apply List.Forall_cons; try apply List.Forall_nil;
      [apply valid_t2|apply valid_t3].
  - simpl. repeat split; repeat apply List.Forall_cons; try apply List.Forall_nil;
      by vm_compute.
  - intros x c [<-|[]] [<-|[<-|[]]]; by vm_compute.
  - vm_compute. reflexivity.
  - vm_compute. reflexivity.
Defined.

Lemma upsert_then_listed_first_witness :
  ∃ e rest,
    list_channels [acme_row; inserted (u "UCabc") None None (isoformat t2)] = e :: rest ∧
    channel_id e = u "UCabc" ∧ last_used_at e = isoformat t2.
Proof.
  apply (upsert_then_listed_first t2 (u "UCabc") JNull JNull [acme_row]).
  - by vm_compute.
  - intros x [<-|[]] _. by vm_compute.
  - vm_compute. reflexivity.
Defined.

Lemma isoformat_order_embedding_witness :
  str_lt (isoformat t1) (isoformat t2) ↔ dt_lt t1 t2.
Proof. apply (isoformat_order_embedding t1 t2 valid_t1 valid_t2). Defined.

Lemma download_outcomes_witness :
  ∃ resp w',
    download some_metadata download_fails (λ _, u "failed") (u "downloads") t1
      (u "3f2a") (u "https://youtu.be/abc123X") empty_world = (Ok resp, w').
Proof.
  destruct (download_outcomes some_metadata download_fails (λ _, u "failed")
              (u "downloads") t1 (u "3f2a") (u "https://youtu.be/abc123X") empty_world)
    as (r & w' & Hrun & _ & _ & Hok).
  destruct Hok as [resp ->]; [reflexivity|]. by exists resp, w'.
Defined.

Lemma materialization_failure_reported_witness :
  (download some_metadata download_fails message (u "downloads") t1
     (u "3f2a") (u "https://youtu.be/abc123X") empty_world).1
  = Ok (JSONResponse (JObj [(u "error", JStr (u "HTTP Error 403: Forbidden"))]) 500) ∧
  files (download some_metadata download_fails message (u "downloads") t1
           (u "3f2a") (u "https://youtu.be/abc123X") empty_world).2
  = <[ u "downloads/3f2a.mp4.part" := [Byte.x00] ]> ∅.
Proof.
  apply (materialization_failure_reported some_metadata download_fails message
           (u "downloads") t1 (u "3f2a") (u "https://youtu.be/abc123X")
           (u "https://youtu.be/abc123X")
           (DownloadError (u "HTTP Error 403: Forbidden"))
           (<[ u "downloads/3f2a.mp4.part" := [Byte.x00] ]> ∅) empty_world).
  - vm_compute. reflexivity.
  - reflexivity.
  - reflexivity.
Defined.

Lemma download_records_channel_witness :
  ∃ r, lookup_channel (u "UCxyz")
         (db (download some_metadata download_fails message (u "downloads") t1
                (u "3f2a") (u "https://youtu.be/abc123X") empty_world).2) = Some r ∧
       c_last_used_at r = isoformat t1 ∧ c_title r = Some (u "Acme") ∧
       c_saved_at r = isoformat t1.
Proof.
  destruct (download_records_channel some_metadata download_fails message (u "downloads")
              t1 (u "3f2a") (u "https://youtu.be/abc123X") (u "https://youtu.be/abc123X")
              {| v_id := Some (u "abc123X"); v_title := Some (u " Tom & Jerry: ep/1 ");
                 v_duration := Some 61; v_thumbnail := Some (u "http://t/1.jpg");
                 v_uploader := Some (u "Acme"); v_channel_id := Some (u "UCxyz");
                 v_channel_url := None; v_upload_date := Some (u "20240309");
                 v_webpage_url := Some (u "https://youtu.be/abc123X") |}
              (u "UCxyz") empty_world) as (r & Hr & Hused & Htitle & _ & _ & Hsaved).
  - vm_compute. reflexivity.
  - reflexivity.
  - reflexivity.
  - by vm_compute.
  - vm_compute. reflexivity.
  - exists r. split; [done|]. split; [done|]. split; [by apply Htitle|].
    apply Hsaved. reflexivity.
Defined.

Lemma download_streams_and_deletes_witness :
  ∃ headers w' chunks,
    download no_metadata mp4_written message (u "downloads") t1
      (u "3f2a") (u "https://youtu.be/abc123X") empty_world
    = (Ok (StreamingResponse (u "downloads/3f2a.mp4") GenCreated (u "video/mp4") headers),
       w') ∧
    concat chunks = [Byte.x2a].
Proof.
  destruct (download_streams_and_deletes no_metadata mp4_written message (u "downloads")
              t1 (u "3f2a") (u "https://youtu.be/abc123X") (u "https://youtu.be/abc123X")
              (u "downloads/3f2a.mp4") (<[ u "downloads/3f2a.mp4" := [Byte.x2a] ]> ∅)
              [Byte.x2a] empty_world)
    as (headers & w' & chunks & Hr & _ & Hc & _).
  - vm_compute. reflexivity.
  - reflexivity.
  - intros info [=].
  - vm_compute. reflexivity.
  - exists headers, w', chunks. split; [|done]. rewrite Hr. do 3 f_equal.
Defined.

Lemma download_name_not_latin1_witness :
  (@download latin1_and_cjk cjk_metadata mp4_written message (u "downloads") t1
     (u "3f2a") (u "https://youtu.be/abc123X") empty_world).1
  = Ok (JSONResponse
          (JObj [(u "error", JStr (u "'latin-1' codec can't encode the text"))]) 500) ∧
  files (@download latin1_and_cjk cjk_metadata mp4_written message (u "downloads") t1
           (u "3f2a") (u "https://youtu.be/abc123X") empty_world).2
  = <[ u "downloads/3f2a.mp4" := [Byte.x2a] ]> ∅.
Proof.
  apply (@download_name_not_latin1 latin1_and_cjk cjk_metadata mp4_written message
           (u "downloads") t1 (u "3f2a") (u "https://youtu.be/abc123X")
           (u "https://youtu.be/abc123X")
           {| v_id := Some (u "abc123X"); v_title := Some [20013; 25991];
              v_duration := None; v_thumbnail := None; v_uploader := None;
              v_channel_id := None; v_channel_url := None; v_upload_date := None;
              v_webpage_url := Some (u "https://youtu.be/abc123X") |}
           (u "downloads/3f2a.mp4") (<[ u "downloads/3f2a.mp4" := [Byte.x2a] ]> ∅)
           empty_world).
  - vm_compute. reflexivity.
  - reflexivity.
  - reflexivity.
  - vm_compute. reflexivity.
  - reflexivity.
  - reflexivity.
Defined.

Lemma download_unrecorded_channel_witness :
  download surrogate_metadata mp4_written message (u "downloads") t1
    (u "3f2a") (u "https://youtu.be/abc123X") empty_world
  = (Ok (StreamingResponse (u "downloads/3f2a.mp4") GenCreated (u "video/mp4")
           [(u "Content-Disposition", u "attachment; filename=video.mp4")]),
     {| db := []; files := <[ u "downloads/3f2a.mp4" := [Byte.x2a] ]> ∅; calls := [] |}).
Proof.
  apply (download_unrecorded_channel surrogate_metadata mp4_written message
           (u "downloads") t1 (u "3f2a") (u "https://youtu.be/abc123X")
           (u "https://youtu.be/abc123X")
           {| v_id := Some (u "abc123X"); v_title := Some (u "Clip");
              v_duration := None; v_thumbnail := None;
              v_uploader := Some lone_surrogate;
              v_channel_id := Some (u "UCxyz"); v_channel_url := None;
              v_upload_date := None;
              v_webpage_url := Some (u "https://youtu.be/abc123X") |}
           (u "downloads/3f2a.mp4") (<[ u "downloads/3f2a.mp4" := [Byte.x2a] ]> ∅)
           empty_world).
  - vm_compute. reflexivity.
  - reflexivity.
  - reflexivity.
  - reflexivity.
Defined.

Lemma video_info_writes_only_on_save_witness :
  db (get_video_info some_metadata message t1 (u "https://youtu.be/abc123X") 0
        empty_world).2 = db empty_world.
Proof.
  destruct (video_info_writes_only_on_save some_metadata message t1
              (u "https://youtu.be/abc123X") 0 empty_world) as (_ & _ & Hdb).
  destruct (decide (db (get_video_info some_metadata message t1
                          (u "https://youtu.be/abc123X") 0 empty_world).2
                    = db empty_world)) as [Heq|Hne]; [done|].
  by destruct (Hdb Hne) as [? _].
Defined.

Lemma video_info_saves_channel_witness :
  ∃ r, lookup_channel (u "UCxyz")
         (db (get_video_info some_metadata message t1 (u "https://youtu.be/abc123X") 1
                empty_world).2) = Some r ∧
       c_title r = Some (u "Acme").
Proof.
  destruct (video_info_saves_channel some_metadata message t1
              (u "https://youtu.be/abc123X") (u "https://youtu.be/abc123X")
              {| v_id := Some (u "abc123X"); v_title := Some (u " Tom & Jerry: ep/1 ");
                 v_duration := Some 61; v_thumbnail := Some (u "http://t/1.jpg");
                 v_uploader := Some (u "Acme"); v_channel_id := Some (u "UCxyz");
                 v_channel_url := None; v_upload_date := Some (u "20240309");
                 v_webpage_url := Some (u "https://youtu.be/abc123X") |}
              (u "UCxyz") empty_world) as (r & Hr & _ & Ht & _).
  - vm_compute. reflexivity.
  - reflexivity.
  - reflexivity.
  - by vm_compute.
  - vm_compute. reflexivity.
  - exists r. split; [done|]. by apply Ht.
Defined.

Lemma upstream_error_forwarded_witness :
  channel_videos api_refuses (Some (u "key")) t1 (u "UCxyz") None 20 empty_world
  = (Raise (HTTPException 403 (u "quotaExceeded")),
     {| db := []; files := ∅; calls := [channels_request (u "key") (u "UCxyz")] |}).
Proof.
  apply (upstream_error_forwarded api_refuses (Some (u "key")) (u "key") t1 (u "UCxyz")
           None 20 empty_world
           {| status_code := 403; text := u "quotaExceeded"; json_body := Raise ValueError |}).
  - reflexivity.
  - by vm_compute.
  - reflexivity.
  - by vm_compute.
Defined.

Lemma unknown_channel_not_found_witness :
  channel_videos api_without_channel (Some (u "key")) t1 (u "UCnone") None 20 empty_world
  = (Raise (HTTPException 404 (u "Channel not found")),
     {| db := []; files := ∅; calls := [channels_request (u "key") (u "UCnone")] |}).
Proof.
  apply (unknown_channel_not_found api_without_channel (Some (u "key")) (u "key") t1
           (u "UCnone") None 20 empty_world
           {| status_code := 200; text := [];
              json_body := Ok (JObj [(u "items", JArr [])]) |}
           [(u "items", JArr [])]).
  - reflexivity.
  - by vm_compute.
  - reflexivity.
  - reflexivity.
  - reflexivity.
  - right. vm_compute. reflexivity.
Defined.

Lemma lister_failure_keeps_cache_witness :
  db (channel_videos api_refuses (Some (u "key")) t1 (u "UCxyz") None 20 empty_world).2
  = db empty_world.
Proof.
  destruct (channel_videos api_refuses (Some (u "key")) t1 (u "UCxyz") None 20
              empty_world) as [r w'] eqn:E.
  destruct (lister_failure_keeps_cache api_refuses (Some (u "key")) t1 (u "UCxyz")
              None 20 empty_world r w' E) as (_ & _ & Hdb).
  vm_compute in E. injection E as <- <-. by apply (Hdb _ eq_refl).
Defined.

Lemma lister_success_witness :
  channel_videos api_with_channel (Some (u "key")) t1 (u "UCxyz") (Some (u "CAEQAA")) 5
    empty_world
  = (Ok (JObj [(u "channel", JObj [(u "id", JStr (u "UCxyz")); (u "title", JStr (u "Acme"));
                                    (u "thumbnail", JStr (u "http://t/c.jpg"))]);
               (u "videos", JArr [JObj [(u "videoId", JStr (u "abc123X"));
                                        (u "title", JStr (u "First"));
                                        (u "thumbnail", JStr (u "http://t/d.jpg"));
                                        (u "publishedAt", JStr (u "2024-03-09T07:05:00Z"));
                                        (u "channelTitle", JStr (u "Acme"))]]);
               (u "nextPageToken", JStr (u "CAUQAA"))]),
     {| db := [inserted (u "UCxyz") (Some (u "Acme")) (Some (u "http://t/c.jpg"))
                 (isoformat t1)];
        files := ∅;
        calls := [playlist_request (u "key") (JStr (u "UUxyz")) (Some (u "CAEQAA")) 5;
                  channels_request (u "key") (u "UCxyz")] |}).
Proof.
  refine (proj1 (lister_success api_with_channel (Some (u "key")) (u "key") t1 (u "UCxyz")
            (Some (u "CAEQAA")) 5 empty_world _ _ _ [] _ _ _ _ _ _ _ _
            eq_refl _ eq_refl eq_refl eq_refl eq_refl eq_refl eq_refl eq_refl
            eq_refl eq_refl eq_refl eq_refl eq_refl eq_refl)).
  by vm_compute.
Defined.

Lemma video_thumbnail_preference_witness :
  ∃ v, video_of_item (JObj playlist_entry) = Ok v ∧
       jget (u "thumbnail") JNull v = Ok (JStr (u "http://t/m.jpg")).
Proof.
  destruct (video_thumbnail_preference playlist_entry
              [(u "title", JStr (u "First"));
               (u "thumbnails",
                JObj [(u "default", JObj [(u "url", JStr (u "http://t/d.jpg"))]);
                      (u "medium", JObj [(u "url", JStr (u "http://t/m.jpg"))])])]
              [(u "videoId", JStr (u "abc123X"))]
              [(u "default", JObj [(u "url", JStr (u "http://t/d.jpg"))]);
               (u "medium", JObj [(u "url", JStr (u "http://t/m.jpg"))])])
    as (Hmedium & _ & _).
  - vm_compute. reflexivity.
  - vm_compute. reflexivity.
  - vm_compute. reflexivity.
  - destruct (Hmedium [(u "url", JStr (u "http://t/m.jpg"))]) as (v & Hv & Ht).
    + vm_compute. reflexivity.
    + done.
    + exists v. split; [done|]. rewrite Ht. vm_compute. reflexivity.
Defined.

Lemma download_streams_reported_or_merged_witness :
  ∃ headers,
    (download no_metadata webm_then_mp4 message (u "downloads") t1
       (u "3f2a") (u "https://youtu.be/abc123X") empty_world).1
    = Ok (StreamingResponse (u "downloads/3f2a.mp4") GenCreated (u "video/mp4") headers).
Proof.
  destruct (download_streams_reported_or_merged no_metadata webm_then_mp4 message
              (u "downloads") t1 (u "3f2a") (u "https://youtu.be/abc123X")
              (u "https://youtu.be/abc123X") (u "downloads/3f2a.webm")
              (<[ u "downloads/3f2a.mp4" := [Byte.x00; Byte.x01] ]> ∅) empty_world)
    as (path & headers & Hr & _ & Hmerged).
  - vm_compute. reflexivity.
  - reflexivity.
  - intros info [=].
  - destruct Hmerged as (stem & Hpath & Hstem & _); [reflexivity|].
    rewrite (Hstem (u "downloads/") (u "3f2a") (u "webm") 51) in Hpath.
    + exists headers. rewrite Hr, Hpath. vm_compute. reflexivity.
    + reflexivity.
    + right. by exists (u "downloads").
    + vm_compute. intuition discriminate.
    + vm_compute. tauto.
    + done.
    + vm_compute. intuition discriminate.
    + vm_compute. intuition discriminate.
Defined.
